(** * SonicSync: search-and-fetch pipeline

    A shallow embedding of [services/scraper_service.py] and
    [services/download_service.py], and the properties of the search
    cascade, the link extractor, the link validator and the bounded-retry
    downloader that the specification states about them.

    Conventions.
    - A Python [str] is a [list ascii] (type [str]); a string literal is
      coerced to it.  Text is taken to be ASCII: [lower], [isspace] and the
      regular-expression classes are the ASCII restrictions of Python's.
    - Integers are [Z]; a [float] is a binary64 float of the kernel; file
      contents are [list byte].
    - Code that touches the network, the clock, the browser driver or the
      file system runs in the monad [M]: a state (clock, file system, trace
      of effects) threaded through, and a result that is either a value or a
      raised exception.  What the outside world answers is read from a
      [World], indexed by the clock, so that two requests to the same
      address may be answered differently.
    - Functions of Python's standard library whose details do not matter
      here ([urljoin], [quote_plus], [urlparse(..).path], the iteration
      order of a [set]) are Section variables. *)

From Stdlib Require Import String Ascii ZArith List Floats.
From stdpp Require Import gmap strings list.

Open Scope string_scope.
Open Scope list_scope.
Open Scope stdpp_scope.
Open Scope Z_scope.
Open Scope nat_scope.

Abbreviation str := (list ascii).
Coercion list_ascii_of_string : string >-> list.

(** ** Python string operations *)

Module PyStr.

(** [str.isspace] on one ASCII character: TAB..CR, FS..US and the space. *)
Definition is_space (c : ascii) : bool :=
  let n := nat_of_ascii c in
  ((9 <=? n) && (n <=? 13)) || ((28 <=? n) && (n <=? 32)).

Definition is_upper (c : ascii) : bool :=
  let n := nat_of_ascii c in (65 <=? n) && (n <=? 90).

Definition is_lower (c : ascii) : bool :=
  let n := nat_of_ascii c in (97 <=? n) && (n <=? 122).

Definition is_digit (c : ascii) : bool :=
  let n := nat_of_ascii c in (48 <=? n) && (n <=? 57).

(** The class [\w] of the [re] module. *)
Definition is_word (c : ascii) : bool :=
  is_upper c || is_lower c || is_digit c || bool_decide (c = "_"%char).

Definition lower_char (c : ascii) : ascii :=
  if is_upper c then ascii_of_nat (nat_of_ascii c + 32) else c.

(** [s.lower()] *)
Definition lower (s : str) : str := map lower_char s.

Fixpoint lstrip (s : str) : str :=
  match s with
  | c :: s' => if is_space c then lstrip s' else s
  | [] => []
  end.

Definition rstrip (s : str) : str := rev (lstrip (rev s)).

(** [s.strip()] *)
Definition strip (s : str) : str := rstrip (lstrip s).

(** [s.split()]: the maximal runs of non-blank characters. *)
Fixpoint split (s : str) : list str :=
  match s with
  | [] => []
  | c :: s' =>
      if is_space c then split s'
      else match s' with
           | [] => [[c]]
           | c' :: _ =>
               if is_space c' then [c] :: split s'
               else match split s' with
                    | w :: ws => (c :: w) :: ws
                    | [] => [[c]]
                    end
           end
  end.

(** [sep.join(parts)] *)
Fixpoint join (sep : str) (parts : list str) : str :=
  match parts with
  | [] => []
  | [p] => p
  | p :: ps => p ++ sep ++ join sep ps
  end.

(** [s.startswith(p)] *)
Fixpoint startswith (p s : str) : bool :=
  match p, s with
  | [], _ => true
  | a :: p', b :: s' => bool_decide (a = b) && startswith p' s'
  | _ :: _, [] => false
  end.

(** [s.endswith(p)] *)
Definition endswith (p s : str) : bool := startswith (rev p) (rev s).

(** [sub in s] *)
Fixpoint contains (sub s : str) : bool :=
  startswith sub s ||
  match s with
  | [] => false
  | _ :: s' => contains sub s'
  end.

(** [s.replace(old, new)] for a non-empty [old]: occurrences are found
    left to right and do not overlap.  [skip] counts the characters of a
    matched occurrence still to be passed over. *)
Fixpoint replace_from (old new : str) (skip : nat) (s : str) : str :=
  match s with
  | [] => []
  | c :: s' =>
      match skip with
      | S k => replace_from old new k s'
      | O =>
          if startswith old s
          then new ++ replace_from old new (length old - 1) s'
          else c :: replace_from old new 0 s'
      end
  end.

Definition replace (old new s : str) : str := replace_from old new 0 s.

(** [s.rfind(c)] for a one-character [c], [-1] when absent. *)
Fixpoint rfind_from (c : ascii) (i : Z) (found : Z) (s : str) : Z :=
  match s with
  | [] => found
  | a :: s' => rfind_from c (i + 1)%Z (if bool_decide (a = c) then i else found) s'
  end.

Definition rfind (c : ascii) (s : str) : Z := rfind_from c 0%Z (-1)%Z s.

(** The slice [s[i:j]] for [0 <= i]. *)
Definition slice (i j : nat) (s : str) : str := take (j - i) (drop i s).

(** The blanks [int] passes over at both ends of ASCII text: TAB..CR
    and the space, not FS..US. *)
Definition is_c_space (c : ascii) : bool :=
  let n := nat_of_ascii c in
  ((9 <=? n) && (n <=? 13)) || (n =? 32).

Fixpoint lstrip_by (blank : ascii -> bool) (s : str) : str :=
  match s with
  | c :: s' => if blank c then lstrip_by blank s' else s
  | [] => []
  end.

Definition strip_by (blank : ascii -> bool) (s : str) : str :=
  rev (lstrip_by blank (rev (lstrip_by blank s))).

(** [int(s)] on ASCII text: surrounding blanks, an optional sign, and
    decimal digits that single underscores may separate.  [None] stands
    for [ValueError]. *)
Definition digit_val (c : ascii) : Z := Z.of_nat (nat_of_ascii c - 48).

Fixpoint int_digits (acc : Z) (after_digit : bool) (s : str) : option Z :=
  match s with
  | [] => if after_digit then Some acc else None
  | c :: s' =>
      if is_digit c then int_digits (10 * acc + digit_val c)%Z true s'
      else if bool_decide (c = "_"%char) && after_digit
           then match s' with
                | d :: _ => if is_digit d then int_digits acc false s' else None
                | [] => None
                end
           else None
  end.

Definition int (s : str) : option Z :=
  match strip_by is_c_space s with
  | c :: s' =>
      if bool_decide (c = "-"%char) then Z.opp <$> int_digits 0%Z false s'
      else if bool_decide (c = "+"%char) then int_digits 0%Z false s'
      else int_digits 0%Z false (c :: s')
  | [] => None
  end.

(** [f"{n:02d}"]: decimal, padded with a zero to two digits. *)
Fixpoint decimal_fuel (fuel n : nat) (acc : str) : str :=
  match fuel with
  | O => acc
  | S f =>
      let acc' := ascii_of_nat (48 + n mod 10) :: acc in
      if n / 10 =? 0 then acc' else decimal_fuel f (n / 10) acc'
  end.

Definition decimal (n : nat) : str := decimal_fuel (S n) n [].

Definition format_02d (n : nat) : str :=
  let d := decimal n in
  if length d <? 2 then "0" ++ d else d.

(** [os.path.splitext(p)[1]] (POSIX): the extension starts at the last
    dot of the last path component, leading dots of that component not
    counted. *)
Definition splitext_ext (p : str) : str :=
  let sepIndex := rfind "/"%char p in
  let dotIndex := rfind "."%char p in
  if (sepIndex <? dotIndex)%Z then
    let name_start := Z.to_nat (sepIndex + 1) in
    let dot := Z.to_nat dotIndex in
    if forallb (fun c => bool_decide (c = "."%char)) (slice name_start dot p)
    then []
    else drop dot p
  else [].

(** [os.path.join(a, b)] (POSIX). *)
Definition path_join (a b : str) : str :=
  if startswith "/" b then b
  else if bool_decide (a = []) || endswith "/" a then a ++ b
  else a ++ "/" ++ b.

End PyStr.

Import PyStr.

(** Truth value of a Python string that may be [None]. *)
Definition truthy (o : option str) : bool :=
  match o with
  | Some (_ :: _) => true
  | _ => false
  end.

Definition nonempty {A} (l : list A) : bool :=
  match l with
  | [] => false
  | _ :: _ => true
  end.

(** [list(dict.fromkeys(l))]: the first occurrence of every element, in
    order. *)
Fixpoint fromkeys_from (seen : list str) (l : list str) : list str :=
  match l with
  | [] => []
  | x :: l' =>
      if bool_decide (x ∈ seen) then fromkeys_from seen l'
      else x :: fromkeys_from (x :: seen) l'
  end.

Definition fromkeys (l : list str) : list str := fromkeys_from [] l.

(** ** The outside world and the effect monad *)

Inductive Exn :=
| ConnectionError
| Timeout
| HTTPError (status : Z)
| ValueError
| AttributeError
| WebDriverException
| OSError
| CallbackError.

Inductive Outcome (A : Type) :=
| Ok (a : A)
| Raise (e : Exn).
Arguments Ok {A} a.
Arguments Raise {A} e.

(** An element of a parsed page, as [soup.select] returns it:
    [link.get('href')] and [link.get_text(strip=True)]. *)
Record Tag := { tag_href : option str; tag_text : str }.

(** [BeautifulSoup(response.text, 'html.parser')], by the queries the code
    runs on it. *)
Record Soup := {
  soup_select : str -> list Tag;       (* soup.select(css) *)
  soup_anchor_hrefs : list str;        (* link['href'] of find_all('a', href=True) *)
  soup_audio_srcs : list (option str); (* audio.get('src') of find_all('audio') *)
  soup_scripts : list (option str)     (* script.string of find_all('script') *)
}.

(** A [requests] response: status, the two headers the code reads, the
    parsed body, and the body as [iter_content] streams it (the chunks, and
    the error that ends the stream early when there is one). *)
Record Response := {
  status_code : Z;
  content_type : option str;
  content_length : option str;
  soup : Soup;
  chunks : list (list Byte.byte);
  stream_error : option Exn
}.

(** A Selenium element: either attribute access may raise. *)
Record WebElement := {
  el_href : Outcome (option str);
  el_onclick : Outcome (option str);
  el_text : Outcome str
}.

Record World := {
  session_get : nat -> str -> Outcome Response;
  session_head : nat -> str -> Outcome Response;
  chrome_available : nat -> bool;                       (* get_driver() is not None *)
  driver_get : nat -> str -> Outcome (str -> Outcome (list WebElement));
                                                        (* driver.get(url), then find_elements(css) *)
  open_wb : nat -> str -> option Exn;                   (* open(path, 'wb') fails *)
  makedirs : nat -> str -> option Exn                   (* os.makedirs(path, exist_ok=True) fails *)
}.

Inductive Event :=
| EvGet (url : str)
| EvHead (url : str)
| EvDriver
| EvDriverGet (url : str)
| EvSleep (seconds : nat)
| EvJitter                      (* time.sleep(random.uniform(0.5, 1.5)) *)
| EvAttempt (n : nat)           (* the log line "Downloading attempt n/3" *)
| EvProgress (i : nat).         (* progress_callback(i, total, song) *)

Record State := {
  clock : nat;
  files : gmap str (list Byte.byte);
  trace : list Event
}.

Definition M (A : Type) : Type := State -> Outcome A * State.

Definition ret {A} (a : A) : M A := fun s => (Ok a, s).

Definition raise {A} (e : Exn) : M A := fun s => (Raise e, s).

Definition bind {A B} (m : M A) (k : A -> M B) : M B :=
  fun s =>
    match m s with
    | (Ok a, s') => k a s'
    | (Raise e, s') => (Raise e, s')
    end.

(** [try: m  except Exception as e: h e] *)
Definition try_except {A} (m : M A) (h : Exn -> M A) : M A :=
  fun s =>
    match m s with
    | (Ok a, s') => (Ok a, s')
    | (Raise e, s') => h e s'
    end.

Declare Scope effect_scope.
Notation "x <- m ;; k" := (bind m (fun x => k))
  (at level 100, m at next level, right associativity) : effect_scope.
Notation "m ;; k" := (bind m (fun _ => k))
  (at level 100, right associativity) : effect_scope.
Open Scope effect_scope.

Definition lift {A} (o : Outcome A) : M A := fun s => (o, s).

(** One observable step: the event is appended to the trace and the clock
    advances. *)
Definition emit (e : Event) : M unit :=
  fun s => (Ok tt, {| clock := S (clock s); files := files s; trace := trace s ++ [e] |}).

Definition now : M nat := fun s => (Ok (clock s), s).

Definition sleep (seconds : nat) : M unit := emit (EvSleep seconds).

(** [response.raise_for_status()] *)
Definition raise_for_status (r : Response) : M unit :=
  if ((400 <=? status_code r) && (status_code r <? 600))%Z
  then raise (HTTPError (status_code r))
  else ret tt.

(** File system. *)
Definition fs_open_wb (w : World) (path : str) : M unit :=
  fun s =>
    match open_wb w (clock s) path with
    | Some e => (Raise e, s)
    | None => (Ok tt, {| clock := clock s; files := <[path := []]> (files s); trace := trace s |})
    end.

Definition fs_write (path : str) (chunk : list Byte.byte) : M unit :=
  fun s =>
    (Ok tt, {| clock := clock s;
               files := <[path := default [] (files s !! path) ++ chunk]> (files s);
               trace := trace s |}).

(** [os.remove(path)]: [FileNotFoundError] when the file is absent. *)
Definition fs_remove (path : str) : M unit :=
  fun s =>
    match files s !! path with
    | Some _ => (Ok tt, {| clock := clock s; files := delete path (files s); trace := trace s |})
    | None => (Raise OSError, s)
    end.

Definition fs_exists (path : str) : M bool :=
  fun s => (Ok (bool_decide (is_Some (files s !! path))), s).

(** [os.path.getsize(path)] *)
Definition fs_getsize (path : str) : M Z :=
  fun s =>
    match files s !! path with
    | Some c => (Ok (Z.of_nat (length c)), s)
    | None => (Raise OSError, s)
    end.

(** ** services/scraper_service.py *)

(** A search result: the dict [{'url', 'title', 'source'}]. *)
Record SearchHit := { hit_url : str; hit_title : str; hit_source : str }.

Definition dquote : str := [ascii_of_nat 34].
Definition quoted (s : str) : str := dquote ++ s ++ dquote.

Definition base_masstamilan : str := "https://masstamilan.dev".
Definition base_backup_masstamilan : str := "https://www.masstamilan.com".

Definition stop_words : list str :=
  ["original" : str; "soundtrack" : str; "ost" : str; "feat" : str;
   "featuring" : str; "remix" : str; "version" : str].

(** [re.sub(r'[^\w\s]', ' ', query)], blanks collapsed, lower-cased, stop
    words removed: the function on ASCII text, where [\w] is the letters,
    the digits and the underscore and [lower] touches A..Z only. *)
Definition clean_search_query (query : str) : str :=
  let query := map (fun c => if is_word c || is_space c then c else " "%char) query in
  let query := join " " (split query) in
  let words := split (lower query) in
  let words := List.filter (fun word => negb (bool_decide (word ∈ stop_words))) words in
  join " " words.

(** The variations in the order the code appends them, before the
    [list(set(..))[:5]]. *)
Definition variation_candidates (query : str) : list str :=
  let words := split query in
  (if 2 <? length words
   then flat_map
          (fun i =>
             let variation := join " " (take i words ++ drop (i + 1) words) in
             if 3 <? length (strip variation) then [strip variation] else [])
          (seq 0 (length words))
   else []) ++
  (if 2 <? length words
   then [join " " (take 2 words); join " " (take 3 words)]
   else []) ++
  [replace " " "+" query; replace "&" "and" query; replace "and" "&" query].

Definition unwanted_words : list str :=
  ["advertisement" : str; "ad" : str; "promo" : str].

(** The loop of [_filter_and_deduplicate_results], with its three
    accumulators. *)
Fixpoint filter_loop (results : list SearchHit)
    (seen_urls seen_titles : gset str) (filtered_results : list SearchHit)
    : list SearchHit :=
  match results with
  | [] => filtered_results
  | result :: rest =>
      let url := hit_url result in
      let title := strip (lower (hit_title result)) in
      if bool_decide (url ∈ seen_urls) || bool_decide (title ∈ seen_titles)
      then filter_loop rest seen_urls seen_titles filtered_results
      else if (length title <? 5)
              || existsb (fun word => contains word (lower title)) unwanted_words
      then filter_loop rest seen_urls seen_titles filtered_results
      else filter_loop rest ({[url]} ∪ seen_urls) ({[title]} ∪ seen_titles)
             (filtered_results ++ [result])
  end.

Definition _filter_and_deduplicate_results (results : list SearchHit)
    : list SearchHit :=
  filter_loop results ∅ ∅ [].

Definition selectors : list str :=
  [("a[href*=" : str) ++ quoted "/songs/" ++ "]";
   ("a[href*=" : str) ++ quoted "/movie/" ++ "]";
   ("a[href*=" : str) ++ quoted "/album/" ++ "]";
   ".entry-title a" : str; ".post-title a" : str; "h2 a" : str; "h3 a" : str].

Definition page_keywords : list str := ["/songs/" : str; "/movie/" : str; "/album/" : str].

Definition selenium_search_css : str :=
  ("a[href*=" : str) ++ quoted "/songs/" ++ "], a[href*=" ++ quoted "/movie/"
  ++ "], a[href*=" ++ quoted "/album/" ++ "]".

Definition selenium_download_css : str :=
  ("a[href$=" : str) ++ quoted ".mp3" ++ "], button[onclick*=" ++ quoted "download"
  ++ "], .download-link, .download-btn".

(** The regular expression of the script scan: [http], an optional [s],
    [://], one or more characters that are neither blank nor a quote
    (double or single), then [.mp3].  [url_char] is that character
    class. *)
Definition url_char (c : ascii) : bool :=
  negb (is_space c || bool_decide (c = ascii_of_nat 34) || bool_decide (c = "'"%char)).

Fixpoint take_while (p : ascii -> bool) (s : str) : str :=
  match s with
  | c :: s' => if p c then c :: take_while p s' else []
  | [] => []
  end.

(** In the run [r] of URL characters, the end of the last [.mp3] that has
    at least one character before it: the greedy [+] gives back as little
    as it must.  [pos] is the number of characters already passed. *)
Fixpoint mp3_end (r : str) (pos : nat) (best : option nat) : option nat :=
  match r with
  | [] => best
  | _ :: r' =>
      mp3_end r' (S pos)
        (if (1 <=? pos) && startswith ".mp3" r then Some (pos + 4) else best)
  end.

(** Length of the match that starts at the head of [s], if there is one. *)
Definition match_mp3_url (s : str) : option nat :=
  let scheme :=
    if startswith "https://" s then Some 8
    else if startswith "http://" s then Some 7
    else None in
  match scheme with
  | Some n => (fun e => n + e) <$> mp3_end (take_while url_char (drop n s)) 0 None
  | None => None
  end.

(** [re.findall] of that expression: matches are taken left to right and
    do not overlap. *)
Fixpoint findall_from (skip : nat) (s : str) : list str :=
  match s with
  | [] => []
  | _ :: s' =>
      match skip with
      | S k => findall_from k s'
      | O =>
          match match_mp3_url s with
          | Some n => take n s :: findall_from (n - 1) s'
          | None => findall_from 0 s'
          end
      end
  end.

Definition findall_mp3_urls (s : str) : list str := findall_from 0 s.

(** The three scans of [get_download_links], in order. *)
Definition collect_links (page : Soup) : list str :=
  List.filter (fun href => endswith ".mp3" href || contains "download" (lower href))
    (soup_anchor_hrefs page)
  ++ flat_map
       (fun src =>
          match src with
          | Some s => if nonempty s && endswith ".mp3" s then [s] else []
          | None => []
          end)
       (soup_audio_srcs page)
  ++ flat_map
       (fun script =>
          match script with
          | Some s => if nonempty s then findall_mp3_urls s else []
          | None => []
          end)
       (soup_scripts page).

Section Scraper.

Variable urljoin : str -> str -> str.
Variable quote_plus : str -> str.
(** [list(set(l))]: the elements of [l], each once, in hash order. *)
Variable set_order : list str -> list str.
Variable w : World.

Definition _generate_query_variations (query : str) : list str :=
  take 5 (set_order (variation_candidates query)).

(** The hits [_search_masstamilan_direct] reads off a parsed page. *)
Definition direct_hits (base_url : str) (page : Soup) : list SearchHit :=
  flat_map
    (fun selector =>
       flat_map
         (fun link =>
            match tag_href link with
            | Some href =>
                if nonempty href
                   && existsb (fun keyword => contains keyword (lower href)) page_keywords
                then
                  let full_url := urljoin base_url href in
                  let title := tag_text link in
                  if nonempty title && (5 <? length title)
                  then [{| hit_url := full_url; hit_title := title;
                           hit_source := "masstamilan_direct" |}]
                  else []
                else []
            | None => []
            end)
         (soup_select page selector))
    selectors.

Definition http_get (url : str) : M Response :=
  t <- now ;; emit (EvGet url) ;; lift (session_get w t url).

Definition http_head (url : str) : M Response :=
  t <- now ;; emit (EvHead url) ;; lift (session_head w t url).

(** [get_driver()]: [None] when Chrome cannot be set up. *)
Definition get_driver : M bool :=
  t <- now ;; emit EvDriver ;; ret (chrome_available w t).

Definition driver_load (url : str) : M (str -> Outcome (list WebElement)) :=
  t <- now ;; emit (EvDriverGet url) ;; lift (driver_get w t url).

Definition _search_masstamilan_direct (query : str) (base_url : option str)
    : M (list SearchHit) :=
  try_except
    (let base_url := if truthy base_url then default [] base_url else base_masstamilan in
     let search_url := base_url ++ "/?s=" ++ quote_plus query in
     emit EvJitter ;;
     response <- http_get search_url ;;
     raise_for_status response ;;
     ret (direct_hits base_url (soup response)))
    (fun _ => ret []).

(** The hit of one Selenium element, nothing when an attribute raises. *)
Definition selenium_hit (link : WebElement) : list SearchHit :=
  match el_href link, el_text link with
  | Ok href, Ok text =>
      let title := strip text in
      if truthy href && nonempty title && (5 <? length title)
      then [{| hit_url := default [] href; hit_title := title;
               hit_source := "masstamilan" |}]
      else []
  | _, _ => []
  end.

Definition _search_masstamilan_selenium (query : str) : M (list SearchHit) :=
  try_except
    (driver <- get_driver ;;
     if negb driver then ret []
     else
       let search_url := base_masstamilan ++ "/?s=" ++ quote_plus query in
       find_elements <- driver_load search_url ;;
       sleep 3 ;;
       links <- lift (find_elements selenium_search_css) ;;
       ret (flat_map selenium_hit links))
    (fun _ => ret []).

(** Method 4 of [search_masstamilan]: the loop over the variations. *)
Fixpoint variations_loop (variations : list str) (search_results : list SearchHit)
    : M (list SearchHit) :=
  match variations with
  | [] => ret search_results
  | variation :: rest =>
      results4 <- _search_masstamilan_direct variation (Some base_masstamilan) ;;
      let search_results := search_results ++ results4 in
      if nonempty search_results then ret search_results
      else variations_loop rest search_results
  end.

(** The four methods, before the filter: what [search_results] holds
    when the loop of method 4 is left. *)
Definition search_cascade (cleaned_query : str) : M (list SearchHit) :=
  let search_results := [] in
  results1 <- _search_masstamilan_direct cleaned_query (Some base_masstamilan) ;;
  let search_results := search_results ++ results1 in
  search_results <-
    (if negb (nonempty search_results)
     then results2 <- _search_masstamilan_direct cleaned_query (Some base_backup_masstamilan) ;;
          ret (search_results ++ results2)
     else ret search_results) ;;
  search_results <-
    (if negb (nonempty search_results)
     then results3 <- _search_masstamilan_selenium cleaned_query ;;
          ret (search_results ++ results3)
     else ret search_results) ;;
  if negb (nonempty search_results)
  then variations_loop (_generate_query_variations cleaned_query) search_results
  else ret search_results.

Definition search_masstamilan (query : str) : M (list SearchHit) :=
  try_except
    (let cleaned_query := clean_search_query query in
     search_results <- search_cascade cleaned_query ;;
     let unique_results := _filter_and_deduplicate_results search_results in
     ret (take 20 unique_results))
    (fun _ => ret []).

(** "Clean and validate links" in [get_download_links]. *)
Definition clean_links (song_page_url : str) (download_links : list str) : list str :=
  flat_map
    (fun link =>
       if startswith "http" link && endswith ".mp3" link then [link]
       else if startswith "/" link then [urljoin song_page_url link]
       else [])
    download_links.

Definition extract_links (song_page_url : str) (page : Soup) : list str :=
  fromkeys (clean_links song_page_url (collect_links page)).

Definition get_download_links (song_page_url : str) : M (list str) :=
  try_except
    (response <- http_get song_page_url ;;
     raise_for_status response ;;
     ret (extract_links song_page_url (soup response)))
    (fun _ => ret []).

Definition selenium_links (element : WebElement) : list str :=
  match el_href element, el_onclick element with
  | Ok href, Ok onclick =>
      if truthy href && endswith ".mp3" (default [] href) then [default [] href]
      else if truthy onclick then findall_mp3_urls (default [] onclick)
      else []
  | _, _ => []
  end.

Definition get_download_links_selenium (song_page_url : str) : M (list str) :=
  try_except
    (driver <- get_driver ;;
     if negb driver then ret []
     else
       find_elements <- driver_load song_page_url ;;
       sleep 5 ;;
       download_elements <- lift (find_elements selenium_download_css) ;;
       ret (fromkeys (flat_map selenium_links download_elements)))
    (fun _ => ret []).

End Scraper.

(** ** services/download_service.py *)

Definition supported_formats : list str :=
  [".mp3" : str; ".m4a" : str; ".wav" : str; ".flac" : str; ".aac" : str].

(** Maximum file size (100MB). *)
Definition max_file_size : Z := 100 * 1024 * 1024.

Definition max_retries : nat := 3.

(** The characters [<>:], the double quote, and [/\|?*]. *)
Definition invalid_chars : str := ("<>:" : str) ++ dquote ++ "/\|?*".

Definition sanitize_filename (filename : str) : str :=
  let filename := fold_left (fun name char => replace [char] "_" name) invalid_chars filename in
  let filename := join " " (split filename) in
  take 100 filename.

(** [any(ext in url.lower() for ext in self.supported_formats)] *)
Definition looks_like_audio (url : str) : bool :=
  existsb (fun ext => contains ext (lower url)) supported_formats.

(** A song handed to the downloader: a dict, by the three keys that are
    read ([None] for an absent key), or any other object, by its [str()]. *)
Inductive SongInfo :=
| SongDict (url title name : option str)
| SongOther (text : str).

(** A Python number as the batch result holds one: an [int], or the
    [float] of a division. *)
Inductive PyNum :=
| PyInt (n : Z)
| PyFloat (x : float).

(** [float(n)] for the length of a list: exact below 2^53, as every
    length is. *)
Definition float_of_nat (n : nat) : float :=
  PrimFloat.of_uint63 (Uint63.of_Z (Z.of_nat n)).

(** [a / b] for the lengths of two lists, [b] not 0: the float nearest to
    the quotient. *)
Definition true_divide (a b : nat) : float :=
  PrimFloat.div (float_of_nat a) (float_of_nat b).

(** The dict [download_multiple_songs] returns. *)
Record BatchResult := {
  successful : list SongInfo;
  failed : list SongInfo;
  total : nat;
  success_rate : PyNum;
  error : option Exn
}.

Section Download.

Variable urljoin : str -> str -> str.
(** [urlparse(url).path] *)
Variable url_path : str -> str.
Variable w : World.

Definition validate_download_link (url : str) : M bool :=
  try_except
    (if looks_like_audio url then ret true
     else
       response <- http_head w url ;;
       if negb (status_code response =? 200)%Z then ret false
       else
         let content_type := lower (default [] (content_type response)) in
         let content_length := content_length response in
         let is_audio :=
           contains "audio" content_type || contains "mpeg" content_type
           || contains "mp3" content_type || contains "mp4" content_type in
         if truthy content_length then
           match int (default [] content_length) with
           | None => raise ValueError
           | Some size =>
               if (size <? 1024 * 1024)%Z || (max_file_size <? size)%Z
               then ret false
               else ret is_audio
           end
         else ret is_audio)
    (fun _ => ret false).

(** "Determine file extension" in [_download_file]. *)
Definition choose_ext (content_type url : str) : str :=
  if contains "audio/mpeg" content_type || contains "audio/mp3" content_type
  then ".mp3"
  else if contains "audio/mp4" content_type || contains "audio/m4a" content_type
  then ".m4a"
  else
    let url_ext := lower (splitext_ext (url_path url)) in
    if bool_decide (url_ext ∈ supported_formats) then url_ext else ".mp3".

(** "Sanitize filename and add extension". *)
Definition destination_name (filename ext : str) : str :=
  let safe_filename := sanitize_filename filename in
  if existsb (fun fmt => endswith fmt (lower safe_filename)) supported_formats
  then safe_filename
  else safe_filename ++ ext.

(** The loop over [response.iter_content]: [Some false] is the
    [return False] of the size check, [None] the end of the chunks. *)
Fixpoint write_loop (file_path : str) (stream : list (list Byte.byte))
    (downloaded_size : Z) : M (option bool) :=
  match stream with
  | [] => ret None
  | chunk :: rest =>
      if nonempty chunk then
        fs_write file_path chunk ;;
        let downloaded_size := (downloaded_size + Z.of_nat (length chunk))%Z in
        if (max_file_size <? downloaded_size)%Z
        then fs_remove file_path ;; ret (Some false)
        else write_loop file_path rest downloaded_size
      else write_loop file_path rest downloaded_size
  end.

(** The transfer itself: the file is opened, the chunks are written, and
    what is on disk is verified ("at least 1KB") or cleaned up. *)
Definition store_stream (file_path : str) (response : Response) : M bool :=
  fs_open_wb w file_path ;;
  stopped <- write_loop file_path (chunks response) 0%Z ;;
  match stopped with
  | Some result => ret result
  | None =>
      match stream_error response with
      | Some e => raise e
      | None =>
          present <- fs_exists file_path ;;
          size <- (if present then fs_getsize file_path else ret 0%Z) ;;
          if present && (1024 <? size)%Z then ret true
          else
            still <- fs_exists file_path ;;
            (if still then fs_remove file_path else ret tt) ;;
            ret false
      end
  end.

(** Where the transfer of [response] is stored. *)
Definition destination_path (url download_folder filename : str)
    (response : Response) : str :=
  let ext := choose_ext (default [] (content_type response)) url in
  let safe_filename := destination_name filename ext in
  path_join download_folder safe_filename.

Definition _download_file (url download_folder filename : str) : M bool :=
  try_except
    (if negb (nonempty url) || negb (startswith "http" url) then ret false
     else
       proceed <-
         (if negb (looks_like_audio url)
          then try_except
                 (head_response <- http_head w url ;;
                  let content_type := lower (default [] (content_type head_response)) in
                  ret (contains "audio" content_type || contains "mpeg" content_type))
                 (fun _ => ret true)
          else ret true) ;;
       if negb proceed then ret false
       else
         response <- http_get w url ;;
         raise_for_status response ;;
         too_large <-
           (if truthy (content_length response) then
              match int (default [] (content_length response)) with
              | None => raise ValueError
              | Some n => ret (max_file_size <? n)%Z
              end
            else ret false) ;;
         if too_large then ret false
         else store_stream (destination_path url download_folder filename response)
                response)
    (fun _ => ret false).

(** "Try each download link until one works". *)
Fixpoint links_loop (download_links : list str) (download_folder filename : str)
    : M bool :=
  match download_links with
  | [] => ret false
  | link :: rest =>
      done <-
        try_except
          (valid <- validate_download_link link ;;
           if negb valid then ret false
           else _download_file link download_folder filename)
          (fun _ => ret false) ;;
      if done then ret true else links_loop rest download_folder filename
  end.

(** What an attempt does once it has announced itself: extraction, the
    Selenium fallback, then the links.  [Some b] is [return b], [None]
    goes on to the next attempt. *)
Definition attempt_links (song_url song_title download_folder : str)
    (preferred_name : option str) (attempt : nat) : M (option bool) :=
  download_links <- get_download_links urljoin w song_url ;;
  download_links <-
    (if negb (nonempty download_links)
     then get_download_links_selenium w song_url
     else ret download_links) ;;
  if negb (nonempty download_links) then
    if attempt <? max_retries - 1 then sleep 2 ;; ret None
    else ret (Some false)
  else
    let filename := if truthy preferred_name then default [] preferred_name
                    else song_title in
    done <- links_loop download_links download_folder filename ;;
    if done then ret (Some true)
    else
      (if attempt <? max_retries - 1 then sleep 3 else ret tt) ;;
      ret None.

(** One iteration of the retry loop, inside its [try]. *)
Definition attempt_body (song_info : SongInfo) (download_folder : str)
    (preferred_name : option str) (attempt : nat) : M (option bool) :=
  try_except
    (let '(song_url, song_title) :=
       match song_info with
       | SongDict url title _ => (url, default ("Unknown Song" : str) title)
       | SongOther text => (Some text, "Unknown Song" : str)
       end in
     if negb (truthy song_url) then ret (Some false)
     else
       emit (EvAttempt (attempt + 1)) ;;
       attempt_links (default [] song_url) song_title download_folder
         preferred_name attempt)
    (fun _ =>
       (if attempt <? max_retries - 1 then sleep 2 else ret tt) ;;
       ret None).

Fixpoint attempts_loop (song_info : SongInfo) (download_folder : str)
    (preferred_name : option str) (attempts : list nat) : M bool :=
  match attempts with
  | [] => ret false
  | attempt :: rest =>
      r <- attempt_body song_info download_folder preferred_name attempt ;;
      match r with
      | Some result => ret result
      | None => attempts_loop song_info download_folder preferred_name rest
      end
  end.

Definition download_song (song_info : SongInfo) (download_folder : str)
    (preferred_name : option str) : M bool :=
  attempts_loop song_info download_folder preferred_name (seq 0 max_retries).

(** The loop of [download_multiple_songs] over [enumerate(song_list)],
    with its two accumulators. *)
Fixpoint songs_loop (progress_callback : option (nat -> nat -> SongInfo -> Outcome unit))
    (total_songs : nat) (download_folder : str)
    (i : nat) (songs : list SongInfo)
    (successful_downloads failed_downloads : list SongInfo)
    : M (list SongInfo * list SongInfo) :=
  match songs with
  | [] => ret (successful_downloads, failed_downloads)
  | song_info :: rest =>
      success <-
        try_except
          (match progress_callback with
           | Some callback =>
               emit (EvProgress i) ;; lift (callback i total_songs song_info)
           | None => ret tt
           end ;;
           (if 0 <? i then sleep 1 else ret tt) ;;
           name <-
             match song_info with
             | SongDict _ _ name => ret (default ("song" : str) name)
             | SongOther _ => raise AttributeError
             end ;;
           download_song song_info download_folder
             (Some (format_02d (i + 1) ++ "_" ++ name)))
          (fun _ => ret false) ;;
      if success
      then songs_loop progress_callback total_songs download_folder (S i) rest
             (successful_downloads ++ [song_info]) failed_downloads
      else songs_loop progress_callback total_songs download_folder (S i) rest
             successful_downloads (failed_downloads ++ [song_info])
  end.

Definition fs_makedirs (path : str) : M unit :=
  fun s =>
    match makedirs w (clock s) path with
    | Some e => (Raise e, s)
    | None => (Ok tt, s)
    end.

Definition download_multiple_songs (song_list : list SongInfo) (download_folder : str)
    (progress_callback : option (nat -> nat -> SongInfo -> Outcome unit))
    : M BatchResult :=
  try_except
    (fs_makedirs download_folder ;;
     let total_songs := length song_list in
     lists <-
       songs_loop progress_callback total_songs download_folder 0 song_list [] [] ;;
     let successful_downloads := fst lists in
     let failed_downloads := snd lists in
     ret {| successful := successful_downloads;
            failed := failed_downloads;
            total := total_songs;
            success_rate :=
              if 0 <? total_songs
              then PyFloat (true_divide (length successful_downloads) total_songs)
              else PyInt 0;
            error := None |})
    (fun e =>
       ret {| successful := [];
              failed := song_list;
              total := length song_list;
              success_rate := PyInt 0;
              error := Some e |}).

End Download.

(** ** Auxiliary notions used in the statements *)

(** The title as [_filter_and_deduplicate_results] compares it. *)
Definition norm_title (h : SearchHit) : str := strip (lower (hit_title h)).

(** "Title is too short or contains unwanted content". *)
Definition junk_title (title : str) : bool :=
  (length title <? 5) || existsb (fun word => contains word (lower title)) unwanted_words.

(** The entries the loop keeps, as a function of the two sets it starts
    from. *)
Fixpoint kept (results : list SearchHit) (seen_urls seen_titles : gset str)
    : list SearchHit :=
  match results with
  | [] => []
  | result :: rest =>
      if bool_decide (hit_url result ∈ seen_urls)
         || bool_decide (norm_title result ∈ seen_titles)
         || junk_title (norm_title result)
      then kept rest seen_urls seen_titles
      else result :: kept rest ({[hit_url result]} ∪ seen_urls)
                      ({[norm_title result]} ∪ seen_titles)
  end.

(** The state after a list of observable steps. *)
Definition advance (s : State) (events : list Event) : State :=
  {| clock := length events + clock s; files := files s; trace := trace s ++ events |}.

Definition bad_status (r : Response) : bool :=
  ((400 <=? status_code r) && (status_code r <? 600))%Z.

Section Answers.

Variable urljoin : str -> str -> str.
Variable quote_plus : str -> str.
Variable set_order : list str -> list str.
Variable w : World.

Definition search_url (base_url query : str) : str :=
  base_url ++ "/?s=" ++ quote_plus query.

(** What a direct search started at clock [t] returns: the request is
    the second step of the call. *)
Definition direct_answer (t : nat) (query base_url : str) : list SearchHit :=
  match session_get w (S t) (search_url base_url query) with
  | Ok response =>
      if bad_status response then [] else direct_hits urljoin base_url (soup response)
  | Raise _ => []
  end.

(** What the Selenium search started at clock [t] returns, and the steps
    it takes. *)
Definition selenium_answer (t : nat) (query : str) : list SearchHit * list Event :=
  let url := search_url base_masstamilan query in
  if chrome_available w t then
    match driver_get w (S t) url with
    | Ok find_elements =>
        (match find_elements selenium_search_css with
         | Ok links => flat_map selenium_hit links
         | Raise _ => []
         end, [EvDriver; EvDriverGet url; EvSleep 3])
    | Raise _ => ([], [EvDriver; EvDriverGet url])
    end
  else ([], [EvDriver]).

(** The cascade as the specification words it: an ordered list of
    strategies, each yielding hits or nothing, tried until one yields
    something. *)
Inductive Stage :=
| PrimaryDirect
| BackupDirect
| DynamicRendering
| PrimaryVariation (variation : str).

Definition run_stage (query : str) (stage : Stage) : M (list SearchHit) :=
  match stage with
  | PrimaryDirect =>
      _search_masstamilan_direct urljoin quote_plus w query (Some base_masstamilan)
  | BackupDirect =>
      _search_masstamilan_direct urljoin quote_plus w query (Some base_backup_masstamilan)
  | DynamicRendering => _search_masstamilan_selenium quote_plus w query
  | PrimaryVariation variation =>
      _search_masstamilan_direct urljoin quote_plus w variation (Some base_masstamilan)
  end.

Definition spec_stages (query : str) : list Stage :=
  [PrimaryDirect; BackupDirect; DynamicRendering]
  ++ (PrimaryVariation <$> _generate_query_variations set_order query).

Fixpoint spec_first_nonempty (query : str) (stages : list Stage) : M (list SearchHit) :=
  match stages with
  | [] => ret []
  | stage :: rest =>
      hits <- run_stage query stage ;;
      if nonempty hits then ret hits else spec_first_nonempty query rest
  end.

Definition spec_search (query : str) : M (list SearchHit) :=
  let cleaned_query := clean_search_query query in
  raw <- spec_first_nonempty cleaned_query (spec_stages cleaned_query) ;;
  ret (take 20 (_filter_and_deduplicate_results raw)).

(** The step by which a stage shows in the trace: its page request, or
    the set-up of the browser driver. *)
Definition stage_request (query : str) (stage : Stage) : Event :=
  match stage with
  | PrimaryDirect => EvGet (search_url base_masstamilan query)
  | BackupDirect => EvGet (search_url base_backup_masstamilan query)
  | DynamicRendering => EvDriver
  | PrimaryVariation variation => EvGet (search_url base_masstamilan variation)
  end.

End Answers.

(** A stage's transport fails at clock [t]: the request raises or comes
    back with an error status; for the browser channel, Chrome is not
    available, the page load raises, or the element query raises. *)
Definition direct_transport_fails (quote_plus : str -> str) (w : World) (t : nat)
    (query base_url : str) : Prop :=
  match session_get w (S t) (search_url quote_plus base_url query) with
  | Ok response => bad_status response = true
  | Raise _ => True
  end.

Definition stage_transport_fails (quote_plus : str -> str) (w : World) (t : nat)
    (query : str) (stage : Stage) : Prop :=
  match stage with
  | PrimaryDirect => direct_transport_fails quote_plus w t query base_masstamilan
  | BackupDirect => direct_transport_fails quote_plus w t query base_backup_masstamilan
  | PrimaryVariation variation =>
      direct_transport_fails quote_plus w t variation base_masstamilan
  | DynamicRendering =>
      chrome_available w t = false
      \/ match driver_get w (S t) (search_url quote_plus base_masstamilan query) with
         | Ok find_elements =>
             match find_elements selenium_search_css with
             | Ok _ => False
             | Raise _ => True
             end
         | Raise _ => True
         end
  end.

(** ** Sample surroundings for the examples *)

(** The state in which nothing has happened yet. *)
Definition initial_state : State := {| clock := 0; files := ∅; trace := [] |}.

(** Scheme and host of an http(s) address: everything before the third
    slash. *)
Fixpoint origin_from (slashes : nat) (u : str) : str :=
  match u with
  | [] => []
  | c :: u' =>
      if bool_decide (c = "/"%char)
      then match slashes with
           | O => []
           | S k => c :: origin_from k u'
           end
      else c :: origin_from slashes u'
  end.

(** An instance of [urljoin] for the examples.  It agrees with
    [urllib.parse.urljoin] on an http(s) base when the reference is an
    absolute http(s) address, or a path that starts with one slash and has
    no dot segments. *)
Definition urljoin_sample (base ref : str) : str :=
  if startswith "http://" ref || startswith "https://" ref then ref
  else if startswith "/" ref then origin_from 2 base ++ ref
  else ref.

(** An instance of [quote_plus] for the examples: right on letters,
    digits and blanks. *)
Definition quote_plus_sample (s : str) : str :=
  map (fun c => if bool_decide (c = " "%char) then "+"%char else c) s.

(** An instance of [urlparse(url).path] for the examples: right on an
    http(s) address without query, fragment or parameters. *)
Fixpoint path_from (slashes : nat) (u : str) : str :=
  match u with
  | [] => []
  | c :: u' =>
      if bool_decide (c = "/"%char)
      then match slashes with
           | O => u
           | S k => path_from k u'
           end
      else path_from slashes u'
  end.

Definition url_path_sample (url : str) : str := path_from 2 url.

Definition empty_soup : Soup :=
  {| soup_select := fun _ => []; soup_anchor_hrefs := []; soup_audio_srcs := [];
     soup_scripts := [] |}.

Definition page_response (page : Soup) : Response :=
  {| status_code := 200; content_type := Some ("text/html" : str); content_length := None;
     soup := page; chunks := []; stream_error := None |}.

(** A world in which nothing answers: every request fails to connect,
    Chrome is not installed, the disk accepts everything. *)
Definition offline_world : World :=
  {| session_get := fun _ _ => Raise ConnectionError;
     session_head := fun _ _ => Raise ConnectionError;
     chrome_available := fun _ => false;
     driver_get := fun _ _ => Raise WebDriverException;
     open_wb := fun _ _ => None;
     makedirs := fun _ _ => None |}.

(** A search page whose only link, a heading, is titled "Radio Edit": the
    first selector and the heading selector both find it. *)
Definition radio_page : Soup :=
  {| soup_select := fun selector =>
       if bool_decide (selector = ("a[href*=" : str) ++ quoted "/songs/" ++ "]")
          || bool_decide (selector = ("h2 a" : str))
       then [{| tag_href := Some ("/songs/radio-edit" : str); tag_text := "Radio Edit" |}]
       else [];
     soup_anchor_hrefs := []; soup_audio_srcs := []; soup_scripts := [] |}.

(** A world whose primary site answers every search with [radio_page]. *)
Definition radio_world : World :=
  {| session_get := fun _ url =>
       if startswith base_masstamilan url then Ok (page_response radio_page)
       else Raise ConnectionError;
     session_head := fun _ _ => Raise ConnectionError;
     chrome_available := fun _ => false;
     driver_get := fun _ _ => Raise WebDriverException;
     open_wb := fun _ _ => None;
     makedirs := fun _ _ => None |}.

Definition hit (url title : str) : SearchHit :=
  {| hit_url := url; hit_title := title; hit_source := "masstamilan_direct" |}.

(** One character of a file name, made safe. *)
Definition underscore_unsafe (c : ascii) : ascii :=
  if bool_decide (c ∈ invalid_chars) then "_"%char else c.

(** The file-name policy in the specification's words: every unsafe
    character replaced by an underscore, the result cut to 100
    characters. *)
Definition spec_sanitize (filename : str) : str :=
  take 100 (map underscore_unsafe filename).

(** What is known of the order in which a [set] built from a list is
    iterated: every element of the list comes up, once. *)
Definition set_order_ok (set_order : list str -> list str) : Prop :=
  forall l, NoDup (set_order l) /\ forall x, x ∈ set_order l <-> x ∈ l.

(** Some character of the string is not a blank: what is left of it after
    [strip] is not empty. *)
Definition has_nonblank (s : str) : Prop := exists c, c ∈ s /\ is_space c = false.

(** What [get_download_links] returns when the page request is made at
    clock [t]. *)
Definition links_answer (urljoin : str -> str -> str) (w : World) (t : nat)
    (song_page_url : str) : list str :=
  match session_get w t song_page_url with
  | Ok response =>
      if bad_status response then []
      else extract_links urljoin song_page_url (soup response)
  | Raise _ => []
  end.

(** A song page with two anchors: a download link that does not end in
    [.mp3], and an [.m4a] file. *)
Definition download_page : Soup :=
  {| soup_select := fun _ => [];
     soup_anchor_hrefs :=
       ["https://cdn.example/download?id=7" : str; "https://cdn.example/song.m4a" : str];
     soup_audio_srcs := [];
     soup_scripts := [] |}.

Definition download_page_world : World :=
  {| session_get := fun _ _ => Ok (page_response download_page);
     session_head := fun _ _ => Raise ConnectionError;
     chrome_available := fun _ => false;
     driver_get := fun _ _ => Raise WebDriverException;
     open_wb := fun _ _ => None;
     makedirs := fun _ _ => None |}.

(** The content type of a probe names audio, as [validate_download_link]
    reads it. *)
Definition declares_audio (content_type : str) : bool :=
  contains "audio" content_type || contains "mpeg" content_type
  || contains "mp3" content_type || contains "mp4" content_type.

(** The attempts announced in a stretch of the trace, by their numbers. *)
Definition attempts_of (events : list Event) : list nat :=
  flat_map (fun e => match e with EvAttempt n => [n] | _ => [] end) events.

Definition with_files (s : State) (fs : gmap str (list Byte.byte)) : State :=
  {| clock := clock s; files := fs; trace := trace s |}.

(** A computation that, whatever it returns or raises, only adds steps to
    the trace, none of them the start of an attempt. *)
Definition quietly {A} (m : M A) : Prop :=
  forall s, exists r evs fs,
    m s = (r, with_files (advance s evs) fs) /\ attempts_of evs = [].

(** The URL of the page the downloader is to read for a song. *)
Definition song_page (song_info : SongInfo) : option str :=
  match song_info with
  | SongDict url _ _ => url
  | SongOther text => Some text
  end.

(** The entries of [l] whose flag is [b], in order. *)
Fixpoint pick {A} (b : bool) (flags : list bool) (l : list A) : list A :=
  match flags, l with
  | f :: flags', x :: l' =>
      if Bool.eqb f b then x :: pick b flags' l' else pick b flags' l'
  | _, _ => []
  end.

(** A download server that answers every request with an audio stream
    which breaks after its first 2048 bytes. *)
Definition broken_stream : Response :=
  {| status_code := 200; content_type := Some ("audio/mpeg" : str);
     content_length := None; soup := empty_soup;
     chunks := [replicate 2048 Byte.x41];
     stream_error := Some ConnectionError |}.

Definition broken_stream_world : World :=
  {| session_get := fun _ _ => Ok broken_stream;
     session_head := fun _ _ => Raise ConnectionError;
     chrome_available := fun _ => false;
     driver_get := fun _ _ => Raise WebDriverException;
     open_wb := fun _ _ => None;
     makedirs := fun _ _ => None |}.

(** No transfer of the world breaks off in mid-stream. *)
Definition streams_complete (w : World) : Prop :=
  forall t url response, session_get w t url = Ok response -> stream_error response = None.

(** What a download may do to the files [before], by its result: a
    success leaves a file of more than 1024 bytes; a failure leaves no file
    that was not there before, as it was; an exception leaves the files
    alone, unless it is one of [broken]. *)
Definition files_after (broken : Exn -> Prop) (before : gmap str (list Byte.byte))
    (r : Outcome bool) (s' : State) : Prop :=
  match r with
  | Ok true =>
      exists path content,
        files s' !! path = Some content /\ (1024 < Z.of_nat (length content))%Z
  | Ok false =>
      forall path content, files s' !! path = Some content -> before !! path = Some content
  | Raise e => files s' = before \/ broken e
  end.

(** A step that leaves the files alone and whose value, when it returns
    one, satisfies [P]. *)
Definition frames {A} (m : M A) (P : A -> Prop) : Prop :=
  forall s r s1, m s = (r, s1) ->
    files s1 = files s /\ match r with Ok a => P a | Raise _ => True end.

(** ** Further notions, for the properties beyond the claims *)

(** A word as [str.split] yields it: not empty, no blank in it. *)
Definition plain_word (word : str) : Prop :=
  word <> [] /\ forall c, c ∈ word -> is_space c = false.

(** The address a search is sent to: the base given, or the primary site
    when none is. *)
Definition search_base (base_url : option str) : str :=
  if truthy base_url then default [] base_url else base_masstamilan.

(** A link of a result page as the direct search reads it. *)
Definition page_link (page : Soup) (link : Tag) (href : str) : Prop :=
  (exists selector, selector ∈ selectors /\ link ∈ soup_select page selector)
  /\ tag_href link = Some href
  /\ exists keyword, keyword ∈ page_keywords /\ contains keyword (lower href) = true.

(** The page requests in a stretch of the trace, by their addresses. *)
Definition requests_of (events : list Event) : list str :=
  flat_map (fun e => match e with EvGet url => [url] | _ => [] end) events.

(** The number of times the browser driver is set up. *)
Definition driver_setups (events : list Event) : nat :=
  length (List.filter (fun e => match e with EvDriver => true | _ => false end) events).

(** Every page request of the trace comes straight after a jitter;
    [waited] tells whether the step before the trace was one. *)
Fixpoint spaced_after (waited : bool) (events : list Event) : bool :=
  match events with
  | [] => true
  | EvGet _ :: rest => waited && spaced_after false rest
  | EvJitter :: rest => spaced_after true rest
  | _ :: rest => spaced_after false rest
  end.

(** The stages that send a page request of their own. *)
Definition direct_stage (stage : Stage) : bool :=
  match stage with
  | DynamicRendering => false
  | _ => true
  end.

(** What one download of [url] can have done to the files [before]:
    nothing, without success; or, for a response the server gave to the
    request, one of three things at the path the response is stored at.
    On success the path holds the body, whole.  On failure the path is
    gone.  On an exception, that of a broken stream, the path holds what
    had come. *)
Definition download_effect (url_path : str -> str) (w : World)
    (url download_folder filename : str)
    (before : gmap str (list Byte.byte)) (r : Outcome bool) (s' : State) : Prop :=
  (files s' = before /\ r <> Ok true)
  \/ exists t response,
       session_get w t url = Ok response /\ bad_status response = false
       /\ let file_path := destination_path url_path url download_folder filename response in
          let body := concat (chunks response) in
          match r with
          | Ok true =>
              stream_error response = None
              /\ files s' = <[file_path := body]> before
              /\ (1024 < Z.of_nat (length body) <= max_file_size)%Z
          | Ok false => files s' = delete file_path before
          | Raise e =>
              stream_error response = Some e /\ files s' = <[file_path := body]> before
          end.

(** A computation that, whatever it returns or raises, only adds steps to
    the trace, all of them [allowed]. *)
Definition emits {A} (allowed : Event -> bool) (m : M A) : Prop :=
  forall s, exists r evs fs,
    m s = (r, with_files (advance s evs) fs) /\ forallb allowed evs = true.

(** The calls of the progress callback in a stretch of the trace, by the
    index they are given. *)
Definition progress_of (events : list Event) : list nat :=
  flat_map (fun e => match e with EvProgress i => [i] | _ => [] end) events.

(** The one-second pauses, those between the songs of a batch. *)
Definition song_pauses (events : list Event) : nat :=
  length (List.filter (fun e => match e with EvSleep 1 => true | _ => false end) events).

(** The steps of the download of one song: no call of the progress
    callback and no pause between songs among them. *)
Definition song_step (e : Event) : bool :=
  match e with
  | EvProgress _ | EvSleep 1 => false
  | _ => true
  end.

(** The pause before a new attempt: [time.sleep(2)] or [time.sleep(3)]. *)
Definition retry_pause (e : Event) : bool :=
  match e with
  | EvSleep 2 | EvSleep 3 => true
  | _ => false
  end.

(** Every attempt announced in the trace comes straight after a retry
    pause; [paused] tells whether the step before the trace was one. *)
Fixpoint paced_after (paused : bool) (events : list Event) : bool :=
  match events with
  | [] => true
  | EvAttempt n :: rest => paused && paced_after false rest
  | e :: rest => paced_after (retry_pause e) rest
  end.

(** The title [download_song] reads off a song. *)
Definition title_of (song_info : SongInfo) : str :=
  match song_info with
  | SongDict _ title _ => default ("Unknown Song" : str) title
  | SongOther _ => "Unknown Song"
  end.

(** The name a song is stored under, before it is made safe:
    [preferred_name or song_title]. *)
Definition transfer_name (song_info : SongInfo) (preferred_name : option str) : str :=
  if truthy preferred_name then default [] preferred_name else title_of song_info.

(** A server whose song pages hold one link, to an audio file of 2048
    bytes that it delivers whole. *)
Definition audio_stream : Response :=
  {| status_code := 200; content_type := Some ("audio/mpeg" : str);
     content_length := None; soup := empty_soup;
     chunks := [replicate 2048 Byte.x41];
     stream_error := None |}.

Definition linked_page : Soup :=
  {| soup_select := fun _ => [];
     soup_anchor_hrefs := ["https://cdn.example/song.mp3" : str];
     soup_audio_srcs := [];
     soup_scripts := [] |}.

Definition audio_world : World :=
  {| session_get := fun _ url =>
       if endswith ".mp3" url then Ok audio_stream else Ok (page_response linked_page);
     session_head := fun _ _ => Raise ConnectionError;
     chrome_available := fun _ => false;
     driver_get := fun _ _ => Raise WebDriverException;
     open_wb := fun _ _ => None;
     makedirs := fun _ _ => None |}.

(** The steps inside an attempt: neither the start of an attempt nor a
    retry pause. *)
Definition quiet_step (e : Event) : bool :=
  match e with
  | EvAttempt _ => false
  | _ => negb (retry_pause e)
  end.

(** Every retry pause of the trace is followed, straight away, by the
    start of an attempt. *)
Fixpoint resumed (events : list Event) : bool :=
  match events with
  | [] => true
  | e :: rest =>
      (negb (retry_pause e)
       || match rest with
          | EvAttempt _ :: _ => true
          | _ => false
          end)
      && resumed rest
  end.

(** ** services/scraper_service.py: the link check of the scraper *)

Module ScraperService.

(** [ScraperService.validate_download_link]: one HEAD request; the bare
    [except] turns every failure into [False]. *)
Definition validate_download_link (w : World) (url : str) : M bool :=
  try_except
    (response <- http_head w url ;;
     let content_type := lower (default [] (content_type response)) in
     ret ((status_code response =? 200)%Z
          && (contains "audio" content_type || contains "mpeg" content_type)))
    (fun _ => ret false).

End ScraperService.

(** ** app.py: the search endpoint *)

(** What [/api/search] answers: status 400, the page of results, or
    status 500. *)
Inductive SearchReply :=
| BadRequest
| SearchPage (query enhanced_query : str) (results : list SearchHit) (total_results : nat)
| ServerError (e : Exn).

Section App.

Variable urljoin : str -> str -> str.
Variable quote_plus : str -> str.
Variable set_order : list str -> list str.
Variable w : World.
(** [ai_service.enhance_search_query], which catches whatever it
    raises and returns a string. *)
Variable enhance_search_query : str -> str.

(** [search_single_track], for a request whose body is a JSON object;
    [query] is its ['query'] entry. *)
Definition search_single_track (query : option str) : M SearchReply :=
  try_except
    (if negb (truthy query) then ret BadRequest
     else
       let query := default [] query in
       let enhanced_query := enhance_search_query query in
       search_results <-
         search_masstamilan urljoin quote_plus set_order w enhanced_query ;;
       search_results <-
         (if negb (nonempty search_results)
             && negb (bool_decide (enhanced_query = query))
          then search_masstamilan urljoin quote_plus set_order w query
          else ret search_results) ;;
       ret (SearchPage query enhanced_query (take 10 search_results)
              (length search_results)))
    (fun e => ret (ServerError e)).

End App.

(** ** Notions for the retry cycles and the turns of a batch *)

(** The steps of one browser extraction of [url]: the driver is set up;
    the page is loaded when Chrome is there; the wait follows when the page
    has loaded. *)
Definition browser_steps (url : str) (events : list Event) : Prop :=
  events = [EvDriver]
  \/ events = [EvDriver; EvDriverGet url]
  \/ events = [EvDriver; EvDriverGet url; EvSleep 5].

(** A world whose song pages are served and hold no link, and in which
    Chrome is not installed. *)
Definition linkless_world : World :=
  {| session_get := fun _ _ => Ok (page_response empty_soup);
     session_head := fun _ _ => Raise ConnectionError;
     chrome_available := fun _ => false;
     driver_get := fun _ _ => Raise WebDriverException;
     open_wb := fun _ _ => None;
     makedirs := fun _ _ => None |}.

(** Every attempt announced in the trace goes on, straight away, with
    the request for the page [page]: the extraction of the links. *)
Fixpoint extraction_first (page : str) (events : list Event) : bool :=
  match events with
  | [] => true
  | EvAttempt _ :: rest =>
      match rest with
      | EvGet url :: _ => bool_decide (url = page)
      | _ => false
      end
      && extraction_first page rest
  | _ :: rest => extraction_first page rest
  end.

(** The first attempts announced in a stretch of the trace: one for every
    download that got under way. *)
Definition first_attempts (events : list Event) : nat :=
  length (List.filter (Nat.eqb 1) (attempts_of events)).

(** A song whose download can get under way: a dict with a page URL. *)
Definition startable (song_info : SongInfo) : bool :=
  match song_info with
  | SongDict url _ _ => truthy url
  | SongOther _ => false
  end.

Section Turns.

Variable urljoin : str -> str -> str.
Variable url_path : str -> str.
Variable w : World.
Variable download_folder : str.
Variable progress_callback : option (nat -> nat -> SongInfo -> Outcome unit).
Variable total_songs : nat.

(** The turn of the song at index [i], in the words of the claim: the
    song is dealt with on its own and ends in a verdict.  The callback,
    when there is one, is called, and the song has failed when it
    raises.  The pause comes before every song but the first.  A song
    that is not a dict has failed; a dict is handed to [download_song]
    under its numbered name, and its verdict is what [download_song]
    returns. *)
Definition song_turn (i : nat) (song_info : SongInfo) : M bool :=
  fun s =>
    let called :=
      match progress_callback with Some _ => [EvProgress i] | None => [] end in
    let answer :=
      match progress_callback with
      | Some callback => callback i total_songs song_info
      | None => Ok tt
      end in
    match answer with
    | Raise _ => (Ok false, advance s called)
    | Ok _ =>
        let paused := if 0 <? i then [EvSleep 1] else [] in
        match song_info with
        | SongDict _ _ name =>
            download_song urljoin url_path w song_info download_folder
              (Some (format_02d (i + 1) ++ "_" ++ default ("song" : str) name))
              (advance s (called ++ paused))
        | SongOther _ => (Ok false, advance s (called ++ paused))
        end
    end.

(** Every song of the list has its turn, in order, whatever the
    verdicts of the songs before it. *)
Fixpoint turns (i : nat) (songs : list SongInfo) : M (list bool) :=
  match songs with
  | [] => ret []
  | song_info :: rest =>
      flag <- song_turn i song_info ;;
      flags <- turns (S i) rest ;;
      ret (flag :: flags)
  end.

End Turns.


(** * Properties *)

(** ** Strings *)

Lemma startswith_prefix (p s : str) : startswith p s = true <-> p `prefix_of` s.
Proof.
  revert s; induction p as [|a p IH]; intros s; simpl.
  - split; [intros _; apply prefix_nil | done].
  - destruct s as [|b s].
    + split; [done | intros H; by apply prefix_nil_not in H].
    + rewrite andb_true_iff, bool_decide_eq_true, IH. split.
      * intros [-> H]. by apply prefix_cons.
      * intros H. split; [by apply prefix_cons_inv_1 in H | by apply prefix_cons_inv_2 in H].
Qed.

Lemma contains_infix (sub s : str) :
  contains sub s = true <-> exists pre post, s = pre ++ sub ++ post.
Proof.
  induction s as [|c s IH]; simpl.
  - rewrite orb_false_r, startswith_prefix. split.
    + intros [t Ht]. exists [], t. done.
    + intros (pre & post & H). symmetry in H.
      apply app_eq_nil in H as [-> H]. apply app_eq_nil in H as [-> ->].
      done.
  - rewrite orb_true_iff, startswith_prefix, IH. split.
    + intros [[t Ht] | (pre & post & ->)].
      * exists [], t. done.
      * exists (c :: pre), post. done.
    + intros (pre & post & H). destruct pre as [|a pre].
      * left. exists post. done.
      * right. injection H as -> ->. eauto.
Qed.

(** ** The deduplication filter *)

Lemma filter_loop_kept results seen_urls seen_titles acc :
  filter_loop results seen_urls seen_titles acc
  = acc ++ kept results seen_urls seen_titles.
Proof.
  revert seen_urls seen_titles acc.
  induction results as [|r rest IH]; intros su st acc; simpl.
  - by rewrite app_nil_r.
  - fold (norm_title r). unfold junk_title.
    destruct (bool_decide (hit_url r ∈ su) || bool_decide (norm_title r ∈ st)); simpl.
    + apply IH.
    + destruct (_ || _); simpl; [apply IH|].
      rewrite IH, <- app_assoc. done.
Qed.

Lemma filter_is_kept results :
  _filter_and_deduplicate_results results = kept results ∅ ∅.
Proof. unfold _filter_and_deduplicate_results. by rewrite filter_loop_kept. Qed.

Lemma kept_sublist results su st : kept results su st `sublist_of` results.
Proof.
  revert su st. induction results as [|r rest IH]; intros su st; simpl; [done|].
  destruct (_ || _).
  - by apply sublist_cons.
  - by apply sublist_skip.
Qed.

Lemma kept_fresh results su st h :
  h ∈ kept results su st ->
  (hit_url h ∉ su) /\ (norm_title h ∉ st) /\ junk_title (norm_title h) = false.
Proof.
  revert su st. induction results as [|r rest IH]; intros su st; simpl.
  - by intros ?%elem_of_nil.
  - destruct (bool_decide (hit_url r ∈ su)) eqn:Eu; simpl; [apply IH|].
    destruct (bool_decide (norm_title r ∈ st)) eqn:Et; simpl; [apply IH|].
    destruct (junk_title (norm_title r)) eqn:Ej; simpl; [apply IH|].
    apply bool_decide_eq_false in Eu, Et.
    intros [-> | Hin]%elem_of_cons; [done|].
    apply IH in Hin as (Hu & Ht & Hj).
    split; [|split; [|done]].
    + intros ?. apply Hu, elem_of_union. by right.
    + intros ?. apply Ht, elem_of_union. by right.
Qed.

Lemma kept_NoDup_urls results su st : NoDup (hit_url <$> kept results su st).
Proof.
  revert su st. induction results as [|r rest IH]; intros su st; simpl.
  - constructor.
  - destruct (_ || _); [apply IH|].
    rewrite fmap_cons. constructor; [|apply IH].
    intros (h & Heq & Hin)%list_elem_of_fmap.
    apply kept_fresh in Hin as (Hu & _). set_solver.
Qed.

Lemma kept_NoDup_titles results su st : NoDup (norm_title <$> kept results su st).
Proof.
  revert su st. induction results as [|r rest IH]; intros su st; simpl.
  - constructor.
  - destruct (_ || _); [apply IH|].
    rewrite fmap_cons. constructor; [|apply IH].
    intros (h & Heq & Hin)%list_elem_of_fmap.
    apply kept_fresh in Hin as (_ & Ht & _). set_solver.
Qed.

Lemma kept_idempotent results su st :
  kept (kept results su st) su st = kept results su st.
Proof.
  revert su st. induction results as [|r rest IH]; intros su st; simpl; [done|].
  destruct (_ || _) eqn:E; [apply IH|].
  simpl. rewrite E. f_equal. apply IH.
Qed.

Lemma lower_length s : length (lower s) = length s.
Proof. apply length_map. Qed.

Lemma lstrip_suffix s : lstrip s `suffix_of` s.
Proof.
  induction s as [|c s IH]; simpl; [done|].
  destruct (is_space c); [by apply suffix_cons_r | done].
Qed.

Lemma lstrip_length s : length (lstrip s) <= length s.
Proof. apply suffix_length, lstrip_suffix. Qed.

Lemma strip_length s : length (strip s) <= length s.
Proof.
  unfold strip, rstrip. rewrite length_rev.
  etrans; [apply lstrip_length|]. rewrite length_rev. apply lstrip_length.
Qed.

(** An occurrence of a word that starts with a non-blank character
    survives [lstrip]. *)
Lemma lstrip_infix c word pre post :
  is_space c = false ->
  exists pre', lstrip (pre ++ (c :: word) ++ post) = pre' ++ (c :: word) ++ post.
Proof.
  intros Hc. induction pre as [|a pre IH]; simpl.
  - rewrite Hc. by exists [].
  - destruct (is_space a); [apply IH|]. by exists (a :: pre).
Qed.

Lemma contains_strip word s :
  (exists c rest, word = c :: rest /\ is_space c = false) ->
  (exists c rest, rev word = c :: rest /\ is_space c = false) ->
  contains word s = true -> contains word (strip s) = true.
Proof.
  intros (c & w' & -> & Hc) (d & r' & Hrev & Hd).
  rewrite !contains_infix. intros (pre & post & ->).
  unfold strip, rstrip.
  destruct (lstrip_infix c w' pre post Hc) as [pre' ->].
  assert (rev (pre' ++ (c :: w') ++ post) = rev post ++ (d :: r') ++ rev pre') as ->.
  { rewrite !rev_app_distr, Hrev, <- app_assoc. done. }
  destruct (lstrip_infix d r' (rev post) (rev pre') Hd) as [post' ->].
  exists pre', (rev post').
  rewrite !rev_app_distr, <- Hrev, !rev_involutive, <- !app_assoc. done.
Qed.

Lemma contains_lower word s :
  contains word s = true -> contains (lower word) (lower s) = true.
Proof.
  rewrite !contains_infix. intros (pre & post & ->).
  exists (lower pre), (lower post). unfold lower. by rewrite !map_app.
Qed.

Lemma lower_char_idemp c : lower_char (lower_char c) = lower_char c.
Proof.
  unfold lower_char. destruct (is_upper c) eqn:E; [|by rewrite E].
  destruct c as [[] [] [] [] [] [] [] []]; vm_compute in E |- *; congruence.
Qed.

Lemma lower_idemp s : lower (lower s) = lower s.
Proof.
  unfold lower. rewrite map_map. apply map_ext. intros; apply lower_char_idemp.
Qed.

(** A marker that occurs in the title as given also occurs in the title
    as the filter tests it. *)
Lemma unwanted_in_raw_title word title :
  word ∈ unwanted_words ->
  contains word title = true ->
  contains word (lower (strip (lower title))) = true.
Proof.
  intros Hw Hc.
  assert (Hlow : lower word = word).
  { unfold unwanted_words in Hw. set_unfold in Hw.
    destruct Hw as [-> | [-> | [-> | []]]]; reflexivity. }
  rewrite <- Hlow. apply contains_lower.
  apply contains_strip.
  - unfold unwanted_words in Hw. set_unfold in Hw.
    destruct Hw as [-> | [-> | [-> | []]]]; eexists _, _; split; reflexivity.
  - unfold unwanted_words in Hw. set_unfold in Hw.
    destruct Hw as [-> | [-> | [-> | []]]]; eexists _, _; split; reflexivity.
  - rewrite <- Hlow. by apply contains_lower.
Qed.

Lemma junk_title_false title :
  junk_title title = false ->
  5 <= length title /\
  forall word, word ∈ unwanted_words -> contains word (lower title) = false.
Proof.
  unfold junk_title. intros [Hlen Hex]%orb_false_elim. split.
  - apply Nat.ltb_ge in Hlen. done.
  - intros word Hin. destruct (contains word (lower title)) eqn:E; [|done].
    assert (existsb (fun word => contains word (lower title)) unwanted_words = true) as Habs.
    { apply existsb_exists. exists word. split; [by apply list_elem_of_In | done]. }
    congruence.
Qed.

(** ** The effect monad *)

Lemma advance_app s a b : advance (advance s a) b = advance s (a ++ b).
Proof.
  unfold advance; simpl. f_equal.
  - rewrite length_app. lia.
  - by rewrite app_assoc.
Qed.

Lemma advance_nil s : advance s [] = s.
Proof. destruct s. unfold advance; simpl. by rewrite app_nil_r. Qed.

Lemma emit_run e s : emit e s = (Ok tt, advance s [e]).
Proof. reflexivity. Qed.

Lemma trace_advance s evs : trace (advance s evs) = trace s ++ evs.
Proof. reflexivity. Qed.

Lemma files_advance s evs : files (advance s evs) = files s.
Proof. reflexivity. Qed.

(** Closes an equation between two runs once every effect is unfolded. *)
Ltac same_run :=
  unfold advance, ret, raise; simpl; rewrite <- ?app_assoc; simpl; reflexivity.

(** ** The search stages never raise *)

Section StageRuns.

Variable urljoin : str -> str -> str.
Variable quote_plus : str -> str.
Variable set_order : list str -> list str.
Variable w : World.

Lemma direct_run query base_url s :
  nonempty base_url = true ->
  _search_masstamilan_direct urljoin quote_plus w query (Some base_url) s
  = (Ok (direct_answer urljoin quote_plus w (clock s) query base_url),
     advance s [EvJitter; EvGet (search_url quote_plus base_url query)]).
Proof.
  intros Hb.
  unfold _search_masstamilan_direct, direct_answer, try_except, bind, http_get,
    now, lift, raise_for_status, bad_status, search_url.
  assert (truthy (Some base_url) = true) as -> by (by destruct base_url).
  simpl.
  destruct (session_get w (S (clock s)) _) as [r|e]; simpl.
  - destruct (_ && _); same_run.
  - same_run.
Qed.

Lemma selenium_run query s :
  _search_masstamilan_selenium quote_plus w query s
  = (Ok (fst (selenium_answer quote_plus w (clock s) query)),
     advance s (snd (selenium_answer quote_plus w (clock s) query))).
Proof.
  unfold _search_masstamilan_selenium, selenium_answer, try_except, bind, get_driver,
    driver_load, now, lift, sleep, search_url.
  simpl.
  destruct (chrome_available w (clock s)); simpl; [|same_run].
  destruct (driver_get w (S (clock s)) _) as [find|e]; simpl; [|same_run].
  destruct (find selenium_search_css); same_run.
Qed.

(** Every stage returns: a list of hits and a state whose trace extends
    the old one by steps that include the stage's own request. *)
Lemma run_stage_total query stage s :
  exists hits evs,
    run_stage urljoin quote_plus w query stage s = (Ok hits, advance s evs)
    /\ stage_request quote_plus query stage ∈ evs.
Proof.
  destruct stage; simpl.
  - rewrite direct_run by done. eexists _, _. split; [done|]. set_solver.
  - rewrite direct_run by done. eexists _, _. split; [done|]. set_solver.
  - rewrite selenium_run. eexists _, _. split; [done|].
    unfold selenium_answer. destruct (chrome_available _ _); simpl; [|set_solver].
    destruct (driver_get _ _ _); simpl; set_solver.
  - rewrite direct_run by done. eexists _, _. split; [done|]. set_solver.
Qed.

End StageRuns.

(** ** The search cascade *)

Section Cascade.

Variable urljoin : str -> str -> str.
Variable quote_plus : str -> str.
Variable set_order : list str -> list str.
Variable w : World.

Local Abbreviation run_stage := (run_stage urljoin quote_plus w).
Local Abbreviation spec_first_nonempty := (spec_first_nonempty urljoin quote_plus w).
Local Abbreviation stage_request := (stage_request quote_plus).

Lemma variations_loop_spec query variations s :
  variations_loop urljoin quote_plus w variations [] s
  = spec_first_nonempty query (PrimaryVariation <$> variations) s.
Proof.
  revert s. induction variations as [|v rest IH]; intros s; simpl; [done|].
  unfold bind. rewrite direct_run by done.
  destruct (direct_answer _ _ _ _ _ _) as [|h hits]; simpl; [apply IH | done].
Qed.

Lemma search_cascade_spec query s :
  search_cascade urljoin quote_plus set_order w query s
  = spec_first_nonempty query (spec_stages set_order query) s.
Proof.
  unfold search_cascade, spec_stages. simpl. unfold bind.
  rewrite direct_run by done.
  destruct (direct_answer _ _ _ _ _ _) as [|h1 hits1]; simpl; [|done].
  rewrite direct_run by done.
  destruct (direct_answer _ _ _ _ _ _) as [|h2 hits2]; simpl; [|done].
  rewrite selenium_run.
  destruct (selenium_answer _ _ _ _) as [[|h3 hits3] evs]; simpl; [|done].
  apply variations_loop_spec.
Qed.

(** The cascade returns, and returns nothing only when every stage it
    was given has made its request. *)
Lemma spec_first_nonempty_total query stages s :
  exists raw evs,
    spec_first_nonempty query stages s = (Ok raw, advance s evs)
    /\ (raw = [] -> forall stage, stage ∈ stages -> stage_request query stage ∈ evs).
Proof.
  revert s. induction stages as [|stage rest IH]; intros s; simpl.
  - exists [], []. rewrite advance_nil. split; [done|].
    intros _ stage Hin. by apply elem_of_nil in Hin.
  - destruct (run_stage_total urljoin quote_plus w query stage s)
      as (hits & evs & Hrun & Hreq).
    unfold bind. rewrite Hrun.
    destruct hits as [|h hits]; simpl.
    + destruct (IH (advance s evs)) as (raw & evs' & Hrest & Hall).
      exists raw, (evs ++ evs'). rewrite Hrest, advance_app. split; [done|].
      intros Hraw st [-> | Hin]%elem_of_cons.
      * apply elem_of_app. by left.
      * apply elem_of_app. right. by apply Hall.
    + exists (h :: hits), evs. done.
Qed.

Lemma search_masstamilan_spec query s :
  search_masstamilan urljoin quote_plus set_order w query s
  = spec_search urljoin quote_plus set_order w query s.
Proof.
  unfold search_masstamilan, spec_search, try_except, bind.
  rewrite search_cascade_spec.
  destruct (spec_first_nonempty_total (clean_search_query query)
              (spec_stages set_order (clean_search_query query)) s)
    as (raw & evs & -> & _).
  done.
Qed.

(** A stage whose transport fails yields no hit, and does not raise. *)
Lemma failed_stage_yields_nothing query stage s :
  stage_transport_fails quote_plus w (clock s) query stage ->
  exists evs, run_stage query stage s = (Ok [], advance s evs).
Proof.
  destruct stage; simpl.
  - unfold direct_transport_fails. intros H. rewrite direct_run by done.
    unfold direct_answer. destruct (session_get _ _ _) as [r|e]; [rewrite H|]; eauto.
  - unfold direct_transport_fails. intros H. rewrite direct_run by done.
    unfold direct_answer. destruct (session_get _ _ _) as [r|e]; [rewrite H|]; eauto.
  - intros H. rewrite selenium_run. unfold selenium_answer.
    destruct H as [-> | H]; simpl; [eauto|].
    destruct (chrome_available _ _); simpl; [|eauto].
    destruct (driver_get _ _ _) as [find|e]; simpl; [|eauto].
    destruct (find selenium_search_css); [done | eauto].
  - unfold direct_transport_fails. intros H. rewrite direct_run by done.
    unfold direct_answer. destruct (session_get _ _ _) as [r|e]; [rewrite H|]; eauto.
Qed.

Lemma variations_at_most_5 query :
  length (_generate_query_variations set_order query) <= 5.
Proof. unfold _generate_query_variations. rewrite length_take. lia. Qed.

End Cascade.

(** ** Claims about the search side *)

Lemma unwanted_lower word : word ∈ unwanted_words -> lower word = word.
Proof.
  unfold unwanted_words. set_unfold.
  intros [-> | [-> | [-> | []]]]; reflexivity.
Qed.

(** C4.  Whatever list of raw hits the filter is given, in its output no
    two entries have the same URL and no two the same normalised title;
    every entry's title, as given and as normalised, has at least 5
    characters and contains none of "advertisement", "ad", "promo"; the
    entries are in the order of the input; and what [search_masstamilan]
    returns is the first 20 entries at most of such a list. *)
Theorem filter_and_deduplicate_invariants :
  (forall results : list SearchHit,
      let out := _filter_and_deduplicate_results results in
      NoDup (hit_url <$> out)
      /\ NoDup (norm_title <$> out)
      /\ Forall (fun h =>
                   5 <= length (norm_title h) /\ 5 <= length (hit_title h)
                   /\ forall word, word ∈ unwanted_words ->
                        contains word (norm_title h) = false
                        /\ contains word (hit_title h) = false) out
      /\ out `sublist_of` results)
  /\ (forall urljoin quote_plus set_order w query s,
        exists raw s',
          search_masstamilan urljoin quote_plus set_order w query s
          = (Ok (take 20 (_filter_and_deduplicate_results raw)), s')
          /\ length (take 20 (_filter_and_deduplicate_results raw)) <= 20
          /\ NoDup (hit_url <$> take 20 (_filter_and_deduplicate_results raw))
          /\ NoDup (norm_title <$> take 20 (_filter_and_deduplicate_results raw))
          /\ take 20 (_filter_and_deduplicate_results raw) `sublist_of` raw).
Proof.
  split.
  - intros results out. subst out. rewrite filter_is_kept.
    split; [apply kept_NoDup_urls|]. split; [apply kept_NoDup_titles|].
    split; [|apply kept_sublist].
    apply Forall_forall. intros h Hin.
    apply kept_fresh in Hin as (_ & _ & Hj).
    apply junk_title_false in Hj as [Hlen Hwords].
    split; [done|]. split.
    { etrans; [exact Hlen|]. unfold norm_title.
      etrans; [apply strip_length|]. by rewrite lower_length. }
    intros word Hw. pose proof (Hwords word Hw) as Hnone.
    pose proof (unwanted_lower word Hw) as Hlow.
    split.
    + destruct (contains word (norm_title h)) eqn:E; [|done].
      apply contains_lower in E. rewrite Hlow in E. unfold norm_title in *.
      congruence.
    + destruct (contains word (hit_title h)) eqn:E; [|done].
      apply (unwanted_in_raw_title word _ Hw) in E. unfold norm_title in *.
      congruence.
  - intros urljoin quote_plus set_order w query s.
    rewrite search_masstamilan_spec. unfold spec_search, bind.
    destruct (spec_first_nonempty_total urljoin quote_plus w (clean_search_query query)
                (spec_stages set_order (clean_search_query query)) s)
      as (raw & evs & -> & _).
    exists raw, (advance s evs). split; [done|].
    split; [rewrite length_take; lia|].
    rewrite filter_is_kept.
    split; [|split].
    + rewrite fmap_take.
      eapply sublist_NoDup; [apply kept_NoDup_urls | apply sublist_take].
    + rewrite fmap_take.
      eapply sublist_NoDup; [apply kept_NoDup_titles | apply sublist_take].
    + etrans; [apply sublist_take | apply kept_sublist].
Qed.

Lemma NoDup_fmap_agree {A B} (f : A -> B) (l : list A) x y :
  NoDup (f <$> l) -> x ∈ l -> y ∈ l -> f x = f y -> x = y.
Proof.
  induction l as [|a l IH].
  - by intros _ ?%elem_of_nil.
  - rewrite fmap_cons. intros [Hnot Hnd]%NoDup_cons.
    intros [-> | Hx]%elem_of_cons [-> | Hy]%elem_of_cons Heq; [done| | |by apply IH].
    + exfalso. apply Hnot. rewrite Heq. apply list_elem_of_fmap. eauto.
    + exfalso. apply Hnot. rewrite <- Heq. apply list_elem_of_fmap. eauto.
Qed.

Lemma kept_app l1 l2 su st :
  kept (l1 ++ l2) su st
  = kept l1 su st
    ++ kept l2 (list_to_set (hit_url <$> kept l1 su st) ∪ su)
         (list_to_set (norm_title <$> kept l1 su st) ∪ st).
Proof.
  revert su st. induction l1 as [|r rest IH]; intros su st; cbn [kept app].
  - rewrite !fmap_nil, !list_to_set_nil, !(left_id_L ∅ (∪)). done.
  - destruct (_ || _); [apply IH|].
    rewrite IH, !fmap_cons, !list_to_set_cons, <- app_comm_cons.
    do 3 f_equal.
    + generalize (list_to_set (hit_url <$> kept rest ({[hit_url r]} ∪ su)
                                 ({[norm_title r]} ∪ st)) : gset str).
      intros X. by rewrite (assoc_L (∪)), (comm_L (∪) X).
    + generalize (list_to_set (norm_title <$> kept rest ({[hit_url r]} ∪ su)
                                 ({[norm_title r]} ∪ st)) : gset str).
      intros X. by rewrite (assoc_L (∪)), (comm_L (∪) X).
Qed.

(** C9, as it is stated, fails: of two entries with the same URL it is the
    second that is kept when the first is dropped for its title. *)
Lemma filter_keeps_second_of_same_url :
  _filter_and_deduplicate_results
    [hit "https://masstamilan.dev/songs/1" "Promo Clip";
     hit "https://masstamilan.dev/songs/1" "Vaathi Coming"]
  = [hit "https://masstamilan.dev/songs/1" "Vaathi Coming"].
Proof. vm_compute. reflexivity. Qed.

(** C9, amended.  The filter is idempotent.  Of the entries that share a
    URL at most one is kept; it is the first of them when that one passes
    the title checks (the title, normalised, has not been kept before, has
    at least 5 characters and no marker). *)
Theorem filter_idempotent_and_collapses :
  (forall results,
      _filter_and_deduplicate_results (_filter_and_deduplicate_results results)
      = _filter_and_deduplicate_results results)
  /\ (forall results h1 h2,
        h1 ∈ _filter_and_deduplicate_results results ->
        h2 ∈ _filter_and_deduplicate_results results ->
        hit_url h1 = hit_url h2 -> h1 = h2)
  /\ (forall before first after,
        (hit_url first ∉ (hit_url <$> before)) ->
        (norm_title first ∉ (norm_title <$> _filter_and_deduplicate_results before)) ->
        junk_title (norm_title first) = false ->
        exists rest,
          _filter_and_deduplicate_results (before ++ first :: after)
          = _filter_and_deduplicate_results before ++ first :: rest
          /\ forall h, h ∈ rest -> hit_url h <> hit_url first).
Proof.
  split; [|split].
  - intros results. rewrite !filter_is_kept. apply kept_idempotent.
  - intros results h1 h2 H1 H2 Hurl.
    eapply NoDup_fmap_agree; eauto. rewrite filter_is_kept. apply kept_NoDup_urls.
  - intros before first after Hurl Htitle Hjunk.
    rewrite !filter_is_kept in *. rewrite kept_app. simpl.
    assert (hit_url first ∉
              (list_to_set (hit_url <$> kept before ∅ ∅) ∪ ∅ : gset str)) as Hu.
    { rewrite elem_of_union, elem_of_list_to_set. intros [Hin | Hin]; [|set_solver].
      apply Hurl. apply list_elem_of_fmap in Hin as (h & -> & Hin).
      apply list_elem_of_fmap. exists h. split; [done|].
      eapply elem_of_sublist; [exact Hin | apply kept_sublist]. }
    assert (norm_title first ∉
              (list_to_set (norm_title <$> kept before ∅ ∅) ∪ ∅ : gset str)) as Ht.
    { rewrite elem_of_union, elem_of_list_to_set. intros [Hin | Hin]; [done|set_solver]. }
    rewrite (bool_decide_eq_false_2 _ Hu), (bool_decide_eq_false_2 _ Ht), Hjunk. simpl.
    eexists. split; [reflexivity|].
    intros h Hin. apply kept_fresh in Hin as (Hfresh & _).
    intros Heq. apply Hfresh. rewrite Heq. set_solver.
Qed.

Lemma take_nil_inv {A} n (l : list A) : 0 < n -> take n l = [] -> l = [].
Proof. destruct n, l; simpl; intros; (lia || congruence). Qed.

(** C5, as it is stated, fails: the primary site answers with one link,
    titled "Radio Edit", which two selectors find; the cascade stops there,
    the filter drops the hits for the "ad" in their title, and the search
    returns nothing after a single request. *)
Lemma search_empty_after_one_stage :
  direct_answer urljoin_sample quote_plus_sample radio_world 0 "radio edit" base_masstamilan
  = [hit "https://masstamilan.dev/songs/radio-edit" "Radio Edit";
     hit "https://masstamilan.dev/songs/radio-edit" "Radio Edit"]
  /\ search_masstamilan urljoin_sample quote_plus_sample fromkeys radio_world
       "Radio Edit" initial_state
     = (Ok [], advance initial_state
                 [EvJitter; EvGet "https://masstamilan.dev/?s=radio+edit"]).
Proof. split; vm_compute; reflexivity. Qed.

(** C5, amended.  [search_masstamilan] is the ordered list of strategies
    (primary, backup, browser, then the variations, at most 5, against the
    primary site) tried until one yields a hit; a stage whose transport
    fails yields no hit and nothing is raised; and the search returns the
    empty list only when every stage has made its request and none yielded
    a hit, or when the filter removed every hit of the stage that
    answered. *)
Theorem search_cascade_fallback_order urljoin quote_plus set_order w query s :
  let q := clean_search_query query in
  search_masstamilan urljoin quote_plus set_order w query s
  = spec_search urljoin quote_plus set_order w query s
  /\ length (_generate_query_variations set_order q) <= 5
  /\ (forall stage s0,
        stage_transport_fails quote_plus w (clock s0) q stage ->
        exists evs, run_stage urljoin quote_plus w q stage s0 = (Ok [], advance s0 evs))
  /\ exists raw evs,
       search_masstamilan urljoin quote_plus set_order w query s
       = (Ok (take 20 (_filter_and_deduplicate_results raw)), advance s evs)
       /\ (take 20 (_filter_and_deduplicate_results raw) = [] ->
           (raw = []
            /\ forall stage, stage ∈ spec_stages set_order q ->
                 stage_request quote_plus q stage ∈ evs)
           \/ (raw <> [] /\ _filter_and_deduplicate_results raw = [])).
Proof.
  intros q. split; [apply search_masstamilan_spec|].
  split; [apply variations_at_most_5|].
  split; [intros stage s0; apply failed_stage_yields_nothing|].
  rewrite search_masstamilan_spec. unfold spec_search, bind. fold q.
  destruct (spec_first_nonempty_total urljoin quote_plus w q (spec_stages set_order q) s)
    as (raw & evs & -> & Hall).
  exists raw, evs. split; [done|].
  intros Hempty. apply take_nil_inv in Hempty; [|lia].
  destruct raw as [|h raw]; [left; split; [done | by apply Hall] | right; done].
Qed.

(** ** File names *)

Lemma replace_char c d s :
  replace [c] [d] s = map (fun a => if bool_decide (c = a) then d else a) s.
Proof.
  unfold replace. induction s as [|a s IH]; simpl; [done|].
  rewrite andb_true_r. destruct (bool_decide (c = a)); simpl; by rewrite IH.
Qed.

Lemma fold_map_chars (f : ascii -> ascii -> ascii) (chars : list ascii) (s : str) :
  fold_left (fun name char => map (f char) name) chars s
  = map (fun a => fold_left (fun b char => f char b) chars a) s.
Proof.
  revert s. induction chars as [|c chars IH]; intros s; simpl.
  - by rewrite map_id.
  - rewrite IH, map_map. done.
Qed.

Lemma underscore_unsafe_fold a :
  fold_left (fun b char => if bool_decide (char = b) then "_"%char else b) invalid_chars a
  = underscore_unsafe a.
Proof.
  destruct a as [[] [] [] [] [] [] [] []]; vm_compute; reflexivity.
Qed.

Lemma sanitize_filename_unfold filename :
  sanitize_filename filename
  = take 100 (join " " (split (map underscore_unsafe filename))).
Proof.
  unfold sanitize_filename. do 2 f_equal. f_equal.
  transitivity (fold_left
                  (fun name char =>
                     map (fun a => if bool_decide (char = a) then "_"%char else a) name)
                  invalid_chars filename).
  - generalize invalid_chars. intros chars. revert filename.
    induction chars as [|c chars IH]; intros filename; simpl; [done|].
    rewrite <- IH. f_equal. apply (replace_char c "_"%char).
  - rewrite (fold_map_chars (fun char a => if bool_decide (char = a) then "_"%char else a)).
    apply map_ext. apply underscore_unsafe_fold.
Qed.

Lemma underscore_unsafe_safe a : underscore_unsafe a ∉ invalid_chars.
Proof.
  destruct a as [[] [] [] [] [] [] [] []]; vm_compute;
    intros H; repeat (apply elem_of_cons in H as [H|H]; [discriminate H|]);
    by apply elem_of_nil in H.
Qed.

Lemma split_chars s word c : word ∈ split s -> c ∈ word -> c ∈ s /\ is_space c = false.
Proof.
  revert word. induction s as [|a s IH]; intros word; simpl.
  - by intros ?%elem_of_nil.
  - destruct (is_space a) eqn:Ea.
    + intros Hw Hc. destruct (IH word Hw Hc). split; [by right | done].
    + destruct s as [|b s'].
      * intros ->%list_elem_of_singleton ->%list_elem_of_singleton.
        split; [by left | done].
      * destruct (is_space b) eqn:Eb.
        -- intros [-> | Hw]%elem_of_cons Hc.
           ++ apply list_elem_of_singleton in Hc as ->. split; [by left | done].
           ++ destruct (IH word Hw Hc). split; [by right | done].
        -- destruct (split (b :: s')) as [|w0 ws] eqn:Es.
           ++ intros ->%list_elem_of_singleton ->%list_elem_of_singleton.
              split; [by left | done].
           ++ intros [-> | Hw]%elem_of_cons Hc.
              ** apply elem_of_cons in Hc as [-> | Hc]; [split; [by left | done]|].
                 destruct (IH w0 ltac:(by left) Hc). split; [by right | done].
              ** destruct (IH word ltac:(by right) Hc). split; [by right | done].
Qed.

Lemma join_chars sep parts c :
  c ∈ join sep parts -> c ∈ sep \/ exists word, word ∈ parts /\ c ∈ word.
Proof.
  induction parts as [|p ps IH]; simpl.
  - by intros ?%elem_of_nil.
  - destruct ps as [|p' ps'].
    + intros Hc. right. exists p. split; [by left | done].
    + rewrite !elem_of_app. intros [Hc | [Hc | Hc]].
      * right. exists p. split; [by left | done].
      * by left.
      * destruct (IH Hc) as [? | (word & Hw & Hcw)]; [by left|].
        right. exists word. split; [by right | done].
Qed.

(** C8, as it is stated, fails: the name is not only made safe and cut,
    its blanks are collapsed too. *)
Lemma sanitize_collapses_blanks :
  sanitize_filename "My  Song" = "My Song"
  /\ spec_sanitize "My  Song" = "My  Song".
Proof. split; vm_compute; reflexivity. Qed.

(** C8, amended.  The destination file name is the preferred name with
    every unsafe character replaced by an underscore, every run of blanks
    collapsed to one space (none left at either end), and the result cut to
    100 characters: it has at most 100 characters, none of them unsafe, and
    [A/B:C*D] becomes [A_B_C_D].  The extension, appended unless the name
    already ends in a supported format, is [.mp3] or [.m4a] when the content
    type names one of them, otherwise the suffix of the URL's path when that
    is a supported format, otherwise [.mp3]. *)
Theorem sanitize_filename_and_extension :
  (forall filename,
      sanitize_filename filename
      = take 100 (join " " (split (map underscore_unsafe filename)))
      /\ length (sanitize_filename filename) <= 100
      /\ forall c, c ∈ sanitize_filename filename -> c ∉ invalid_chars)
  /\ sanitize_filename "A/B:C*D" = "A_B_C_D"
  /\ (forall (url_path : str -> str) (content_type url : str),
        let by_type_mp3 :=
          contains "audio/mpeg" content_type || contains "audio/mp3" content_type in
        let by_type_m4a :=
          contains "audio/mp4" content_type || contains "audio/m4a" content_type in
        let suffix := lower (splitext_ext (url_path url)) in
        choose_ext url_path content_type url ∈ supported_formats
        /\ (by_type_mp3 = true -> choose_ext url_path content_type url = ".mp3")
        /\ (by_type_mp3 = false -> by_type_m4a = true ->
            choose_ext url_path content_type url = ".m4a")
        /\ (by_type_mp3 = false -> by_type_m4a = false -> suffix ∈ supported_formats ->
            choose_ext url_path content_type url = suffix)
        /\ (by_type_mp3 = false -> by_type_m4a = false -> suffix ∉ supported_formats ->
            choose_ext url_path content_type url = ".mp3"))
  /\ (forall filename ext,
        if existsb (fun fmt => endswith fmt (lower (sanitize_filename filename)))
             supported_formats
        then destination_name filename ext = sanitize_filename filename
        else destination_name filename ext = sanitize_filename filename ++ ext).
Proof.
  split; [|split; [|split]].
  - intros filename. split; [apply sanitize_filename_unfold|].
    split.
    + unfold sanitize_filename. rewrite length_take. lia.
    + intros c Hc. rewrite sanitize_filename_unfold in Hc.
      apply elem_of_take in Hc as (i & Hc%list_elem_of_lookup_2 & _).
      apply join_chars in Hc as [Hc | (word & Hw & Hc)].
      * apply list_elem_of_singleton in Hc as ->. vm_compute.
        intros H; repeat (apply elem_of_cons in H as [H|H]; [discriminate H|]);
          by apply elem_of_nil in H.
      * destruct (split_chars _ _ _ Hw Hc) as [Hin _].
        apply list_elem_of_In, in_map_iff in Hin as (a & <- & _).
        apply underscore_unsafe_safe.
  - vm_compute. reflexivity.
  - intros url_path content_type url by_type_mp3 by_type_m4a suffix.
    unfold choose_ext. fold by_type_mp3 by_type_m4a suffix.
    destruct by_type_mp3, by_type_m4a; simpl;
      try (split; [set_solver | repeat split; intros; congruence]).
    destruct (decide (suffix ∈ supported_formats)) as [Hin | Hnot].
    + rewrite (bool_decide_eq_true_2 _ Hin).
      split; [done|]. repeat split; intros; (congruence || done).
    + rewrite (bool_decide_eq_false_2 _ Hnot).
      split; [set_solver|]. repeat split; intros; (congruence || done).
  - intros filename ext. unfold destination_name. by destruct (existsb _ _).
Qed.

(** ** First occurrences *)

Lemma fromkeys_from_elem seen l x :
  x ∈ fromkeys_from seen l <-> x ∈ l /\ x ∉ seen.
Proof.
  revert seen. induction l as [|a l IH]; intros seen; simpl.
  - split; [by intros ?%elem_of_nil | by intros [?%elem_of_nil _]].
  - destruct (bool_decide (a ∈ seen)) eqn:E.
    + apply bool_decide_eq_true in E. rewrite IH, elem_of_cons.
      split; [intros [? ?]; tauto|]. intros [[-> | ?] ?]; tauto.
    + apply bool_decide_eq_false in E. rewrite !elem_of_cons, IH, elem_of_cons.
      split.
      * intros [-> | [? ?]]; [tauto|]. split; [tauto|]. tauto.
      * intros [[-> | ?] ?]; [tauto|].
        destruct (decide (x = a)) as [-> | Hne]; [tauto|]. right. tauto.
Qed.

Lemma fromkeys_from_NoDup seen l : NoDup (fromkeys_from seen l).
Proof.
  revert seen. induction l as [|a l IH]; intros seen; simpl; [constructor|].
  destruct (bool_decide (a ∈ seen)); [apply IH|].
  constructor; [|apply IH].
  rewrite fromkeys_from_elem. intros [_ Hn]. apply Hn. by left.
Qed.

Lemma fromkeys_from_sublist seen l : fromkeys_from seen l `sublist_of` l.
Proof.
  revert seen. induction l as [|a l IH]; intros seen; simpl; [done|].
  destruct (bool_decide (a ∈ seen)); [by apply sublist_cons | by apply sublist_skip].
Qed.

Lemma fromkeys_elem l x : x ∈ fromkeys l <-> x ∈ l.
Proof.
  unfold fromkeys. rewrite fromkeys_from_elem. split; [tauto|].
  intros H. split; [done|]. by intros ?%elem_of_nil.
Qed.

Lemma fromkeys_NoDup l : NoDup (fromkeys l).
Proof. apply fromkeys_from_NoDup. Qed.

Lemma fromkeys_sublist l : fromkeys l `sublist_of` l.
Proof. apply fromkeys_from_sublist. Qed.

(** Keeping first occurrences is one of the orders a set may have. *)
Lemma fromkeys_set_order : set_order_ok fromkeys.
Proof. intros l. split; [apply fromkeys_NoDup | intros x; apply fromkeys_elem]. Qed.

(** ** Blanks *)

Lemma has_nonblank_rev s : has_nonblank (rev s) <-> has_nonblank s.
Proof.
  unfold has_nonblank. split; intros (c & Hc & Hs); exists c; (split; [|done]).
  - apply list_elem_of_In, in_rev, list_elem_of_In. done.
  - apply list_elem_of_In. rewrite <- in_rev. by apply list_elem_of_In.
Qed.

Lemma lstrip_has_nonblank s : has_nonblank (lstrip s) <-> has_nonblank s.
Proof.
  induction s as [|a s IH]; simpl; [done|].
  destruct (is_space a) eqn:Ea; [|done].
  rewrite IH. unfold has_nonblank. split.
  - intros (c & Hc & Hs). exists c. split; [by right | done].
  - intros (c & [-> | Hc]%elem_of_cons & Hs); [congruence|]. eauto.
Qed.

Lemma lstrip_nonempty s : lstrip s <> [] <-> has_nonblank s.
Proof.
  induction s as [|a s IH]; simpl.
  - split; [done|]. by intros (c & ?%elem_of_nil & _).
  - destruct (is_space a) eqn:Ea.
    + rewrite IH. unfold has_nonblank. split.
      * intros (c & Hc & Hs). exists c. split; [by right | done].
      * intros (c & [-> | Hc]%elem_of_cons & Hs); [congruence|]. eauto.
    + split; [|done]. intros _. exists a. split; [by left | done].
Qed.

Lemma strip_nonempty s : strip s <> [] <-> has_nonblank s.
Proof.
  unfold strip, rstrip.
  rewrite <- lstrip_has_nonblank, <- has_nonblank_rev, <- lstrip_nonempty.
  split; intros H Hnil; apply H.
  - by rewrite Hnil.
  - apply (f_equal (@rev ascii)) in Hnil. by rewrite rev_involutive in Hnil.
Qed.

Lemma strip_has_nonblank s : has_nonblank (strip s) <-> has_nonblank s.
Proof.
  unfold strip, rstrip.
  by rewrite has_nonblank_rev, lstrip_has_nonblank, has_nonblank_rev, lstrip_has_nonblank.
Qed.

Lemma has_nonblank_app_l s t : has_nonblank s -> has_nonblank (s ++ t).
Proof. intros (c & Hc & Hs). exists c. split; [apply elem_of_app; by left | done]. Qed.

Lemma has_nonblank_app_r s t : has_nonblank t -> has_nonblank (s ++ t).
Proof. intros (c & Hc & Hs). exists c. split; [apply elem_of_app; by right | done]. Qed.

Lemma has_nonblank_cons c s : has_nonblank s -> has_nonblank (c :: s).
Proof. apply (has_nonblank_app_r [c]). Qed.

(** A replacement text with a visible character leaves no string blank
    that was not blank already. *)
Lemma replace_from_has_nonblank old new skip s :
  has_nonblank new -> has_nonblank (drop skip s) ->
  has_nonblank (replace_from old new skip s).
Proof.
  intros Hnew. revert skip. induction s as [|a s IH]; intros skip; simpl.
  - by rewrite drop_nil.
  - destruct skip as [|k]; simpl.
    + intros Hs. destruct (startswith old (a :: s)).
      * by apply has_nonblank_app_l.
      * destruct Hs as (c & Hin & Hsp).
        apply elem_of_cons in Hin as [Heq | Hc].
        -- exists a. split; [by left | by rewrite <- Heq].
        -- apply has_nonblank_cons, IH. exists c. done.
    + apply IH.
Qed.

Lemma replace_has_nonblank old new s :
  has_nonblank new -> has_nonblank s -> has_nonblank (replace old new s).
Proof. intros. by apply replace_from_has_nonblank. Qed.

Lemma split_words_nonblank s word : word ∈ split s -> has_nonblank word.
Proof.
  intros Hw. destruct word as [|c word].
  - exfalso. revert Hw. induction s as [|a s IH]; simpl.
    + by intros ?%elem_of_nil.
    + destruct (is_space a); [done|].
      destruct s as [|b s']; [by intros ?%list_elem_of_singleton|].
      destruct (is_space b).
      * intros [? | ?]%elem_of_cons; [done | by apply IH].
      * destruct (split (b :: s')) as [|w0 ws]; [by intros ?%list_elem_of_singleton|].
        intros [? | ?]%elem_of_cons; [done|]. apply IH. by right.
  - exists c. split; [by left|].
    by destruct (split_chars s (c :: word) c Hw ltac:(by left)).
Qed.

Lemma join_has_nonblank sep word parts :
  has_nonblank word -> has_nonblank (join sep (word :: parts)).
Proof.
  intros H. destruct parts; simpl; [done | by apply has_nonblank_app_l].
Qed.

(** ** Query variations *)

Lemma in_flat_map_elem {A B} (f : A -> list B) (l : list A) (y : B) :
  y ∈ flat_map f l <-> exists x, x ∈ l /\ y ∈ f x.
Proof.
  rewrite list_elem_of_In, in_flat_map. split; intros (x & Hx & Hy); exists x.
  - by rewrite !list_elem_of_In.
  - by rewrite <- !list_elem_of_In.
Qed.

Lemma prefix_words_nonblank query n :
  2 < length (split query) -> has_nonblank (join " " (take (S n) (split query))).
Proof.
  intros Hlen. destruct (split query) as [|word words] eqn:E; simpl in Hlen; [lia|].
  rewrite firstn_cons. apply join_has_nonblank, (split_words_nonblank query).
  rewrite E. by left.
Qed.

Lemma candidates_nonblank query v :
  has_nonblank query -> v ∈ variation_candidates query -> has_nonblank v.
Proof.
  intros Hq. unfold variation_candidates. rewrite !elem_of_app.
  intros [Hdrop | [Hpre | Hrep]].
  - destruct (2 <? length (split query)); [|by apply elem_of_nil in Hdrop].
    apply in_flat_map_elem in Hdrop as (i & _ & Hv).
    destruct (3 <? length (strip _)) eqn:Hlen; [|by apply elem_of_nil in Hv].
    apply list_elem_of_singleton in Hv as ->.
    apply strip_has_nonblank, strip_nonempty.
    apply Nat.ltb_lt in Hlen. intros Hnil. rewrite Hnil in Hlen. simpl in Hlen. lia.
  - destruct (2 <? length (split query)) eqn:Hlen; [|by apply elem_of_nil in Hpre].
    apply Nat.ltb_lt in Hlen.
    apply elem_of_cons in Hpre as [-> | Hpre]; [by apply prefix_words_nonblank|].
    apply list_elem_of_singleton in Hpre as ->. by apply prefix_words_nonblank.
  - assert (forall new : str, has_nonblank new ->
              forall old, has_nonblank (replace old new query)) as Hrepl
      by (intros; by apply replace_has_nonblank).
    apply elem_of_cons in Hrep as [-> | Hrep];
      [apply Hrepl; exists "+"%char; split; [by left | done]|].
    apply elem_of_cons in Hrep as [-> | Hrep];
      [apply Hrepl; exists "a"%char; split; [by left | done]|].
    apply list_elem_of_singleton in Hrep as ->.
    apply Hrepl. exists "&"%char. split; [by left | done].
Qed.

(** For the empty query the three replacements are all empty, and every
    order a set may have gives the same answer. *)
Lemma variations_of_empty_query set_order :
  set_order_ok set_order -> _generate_query_variations set_order [] = [[]].
Proof.
  intros Hok. unfold _generate_query_variations.
  change (variation_candidates []) with [[] : str; [] : str; [] : str].
  destruct (Hok [[] : str; [] : str; [] : str]) as [Hnd Hel].
  destruct (set_order _) as [|x [|y l]].
  - exfalso. apply (elem_of_nil ([] : str)), Hel. by left.
  - simpl. f_equal. assert (x ∈ [[] : str; [] : str; [] : str]) as Hx
      by (apply Hel; by left).
    set_unfold in Hx. tauto.
  - exfalso. assert (x = []) as ->.
    { assert (x ∈ [[] : str; [] : str; [] : str]) as Hx by (apply Hel; by left).
      set_unfold in Hx. tauto. }
    assert (y = []) as ->.
    { assert (y ∈ [[] : str; [] : str; [] : str]) as Hy
        by (apply Hel; right; by left).
      set_unfold in Hy. tauto. }
    apply NoDup_cons in Hnd as [Hnot _]. apply Hnot. by left.
Qed.

(** C6, as it is stated, fails: the query that [clean_search_query] makes
    of "remix" is empty, and its one variation is the empty string. *)
Lemma variation_of_empty_query_is_empty :
  clean_search_query "remix" = []
  /\ _generate_query_variations fromkeys [] = [[]]
  /\ strip [] = [].
Proof. repeat split; vm_compute; reflexivity. Qed.

(** C6, amended.  Whatever the order in which the set of candidates is
    iterated, the variations are at most 5, without duplicates, each one
    of the candidates the code generates (a word dropped, the first two or
    three words, one of the three replacements); and when the query has a
    character that is not a blank, so has every variation.  Which
    candidates are returned, and in what order, is the set's order, not the
    order of generation. *)
Theorem query_variations_bound (set_order : list str -> list str) (query : str) :
  set_order_ok set_order ->
  let out := _generate_query_variations set_order query in
  length out <= 5
  /\ NoDup out
  /\ (forall v, v ∈ out -> v ∈ variation_candidates query)
  /\ (strip query <> [] -> forall v, v ∈ out -> strip v <> []).
Proof.
  intros Hok out. subst out. unfold _generate_query_variations.
  destruct (Hok (variation_candidates query)) as [Hnd Hel].
  split; [rewrite length_take; lia|].
  split; [eapply sublist_NoDup; [exact Hnd | apply sublist_take]|].
  assert (forall v, v ∈ take 5 (set_order (variation_candidates query)) ->
                    v ∈ variation_candidates query) as Hin.
  { intros v Hv. apply Hel. eapply elem_of_sublist; [exact Hv | apply sublist_take]. }
  split; [exact Hin|].
  intros Hq v Hv. apply strip_nonempty. apply strip_nonempty in Hq.
  eapply candidates_nonblank; [exact Hq | by apply Hin].
Qed.

(** C6, witness: keeping first occurrences is an order a set may have,
    and under it the variations of "rock and roll music" are as the theorem
    says. *)
Lemma query_variations_bound_witness :
  set_order_ok fromkeys
  /\ let out := _generate_query_variations fromkeys "rock and roll music" in
     length out <= 5
     /\ NoDup out
     /\ (forall v, v ∈ out -> v ∈ variation_candidates "rock and roll music")
     /\ (strip "rock and roll music" <> [] -> forall v, v ∈ out -> strip v <> []).
Proof.
  split; [exact fromkeys_set_order|].
  exact (query_variations_bound fromkeys "rock and roll music" fromkeys_set_order).
Defined.

(** ** Link extraction *)

Lemma rev_is_reverse {A} (l : list A) : rev l = reverse l.
Proof. apply rev_alt. Qed.

Lemma endswith_suffix (p s : str) : endswith p s = true <-> p `suffix_of` s.
Proof.
  unfold endswith. rewrite startswith_prefix, !rev_is_reverse.
  symmetry. apply suffix_prefix_reverse.
Qed.

Lemma take_while_prefix p s : exists rest, s = take_while p s ++ rest.
Proof.
  induction s as [|c s [rest IH]]; simpl; [by exists []|].
  destruct (p c); [|by eexists]. exists rest. simpl. by f_equal.
Qed.

(** Where [mp3_end] finds an end, there is a [.mp3] just before it, and a
    character before that. *)
Lemma mp3_end_found r pos best e :
  mp3_end r pos best = Some e ->
  best = Some e
  \/ exists k, 1 <= pos + k /\ k + 4 <= length r
               /\ take 4 (drop k r) = ".mp3" /\ e = pos + k + 4.
Proof.
  revert pos best. induction r as [|c r IH]; intros pos best; cbn [mp3_end];
    [intros; by left|].
  intros H. apply IH in H as [H | (k & Hk & Hlen & Hmp3 & ->)].
  - destruct ((1 <=? pos) && startswith ".mp3" (c :: r)) eqn:E; [|by left].
    injection H as <-. right. exists 0.
    apply andb_true_iff in E as [Hpos Hstart].
    apply Nat.leb_le in Hpos. apply startswith_prefix in Hstart as [rest Hrest].
    rewrite Hrest. simpl. repeat split; try lia. 
  - right. exists (S k). simpl. repeat split; try lia. done.
Qed.

Lemma match_mp3_url_shape s n :
  match_mp3_url s = Some n ->
  startswith "http" (take n s) = true /\ endswith ".mp3" (take n s) = true.
Proof.
  unfold match_mp3_url.
  assert (forall pre : nat, 4 <= pre -> startswith "http" s = true ->
            forall e, mp3_end (take_while url_char (drop pre s)) 0 None = Some e ->
            startswith "http" (take (pre + e) s) = true
            /\ endswith ".mp3" (take (pre + e) s) = true) as Hcore.
  { intros pre Hpre Hhttp e He.
    apply mp3_end_found in He as [? | (k & Hk & Hlen & Hmp3 & ->)]; [done|].
    destruct (take_while_prefix url_char (drop pre s)) as [rest Hrest].
    set (R := take_while url_char (drop pre s)) in *.
    split.
    - apply startswith_prefix in Hhttp as [t ->].
      apply startswith_prefix. exists (take (pre + (0 + k + 4) - 4) t).
      rewrite take_app. simpl length.
      rewrite (take_ge ("http" : str)) by (simpl; lia). done.
    - apply endswith_suffix.
      rewrite <- (take_take_drop s pre), Hrest.
      rewrite take_app_le by lia.
      replace (0 + k + 4) with (k + 4) by lia.
      rewrite <- (take_take_drop R k 4), Hmp3.
      rewrite app_assoc. by eexists. }
  destruct (startswith "https://" s) eqn:E8.
  - destruct (mp3_end _ 0 None) as [e|] eqn:He; intros Hn; [|discriminate Hn].
    injection Hn as <-. apply (Hcore 8); [lia | | done].
    apply startswith_prefix in E8 as [t ->]. done.
  - destruct (startswith "http://" s) eqn:E7; [|done].
    destruct (mp3_end _ 0 None) as [e|] eqn:He; intros Hn; [|discriminate Hn].
    injection Hn as <-. apply (Hcore 7); [lia | | done].
    apply startswith_prefix in E7 as [t ->]. done.
Qed.

(** Every URL the script scan finds starts with [http] and ends in
    [.mp3]. *)
Lemma findall_shape s x :
  x ∈ findall_mp3_urls s ->
  startswith "http" x = true /\ endswith ".mp3" x = true.
Proof.
  unfold findall_mp3_urls. generalize 0 as skip. intros skip. revert skip.
  induction s as [|c s IH]; intros skip; simpl.
  - by intros ?%elem_of_nil.
  - destruct skip as [|k]; [|apply IH].
    destruct (match_mp3_url (c :: s)) as [n|] eqn:E; [|apply IH].
    intros [-> | Hin]%elem_of_cons; [by apply match_mp3_url_shape | by eapply IH].
Qed.

Lemma collect_links_elem page c :
  c ∈ collect_links page <->
  (c ∈ soup_anchor_hrefs page
   /\ (endswith ".mp3" c = true \/ contains "download" (lower c) = true))
  \/ (Some c ∈ soup_audio_srcs page /\ c <> [] /\ endswith ".mp3" c = true)
  \/ (exists script, Some script ∈ soup_scripts page /\ c ∈ findall_mp3_urls script).
Proof.
  unfold collect_links. rewrite !elem_of_app, !in_flat_map_elem.
  rewrite list_elem_of_In, filter_In, <- list_elem_of_In, orb_true_iff.
  split.
  - intros [H | [(src & Hsrc & Hc) | (script & Hs & Hc)]]; [by left | |].
    + destruct src as [a|]; [|by apply elem_of_nil in Hc].
      destruct (nonempty a && endswith ".mp3" a) eqn:E; [|by apply elem_of_nil in Hc].
      apply andb_true_iff in E as [Ea Ee].
      apply list_elem_of_singleton in Hc as ->.
      right. left. split; [done|]. split; [by destruct a | done].
    + destruct script as [a|]; [|by apply elem_of_nil in Hc].
      destruct (nonempty a); [|by apply elem_of_nil in Hc].
      right. right. eauto.
  - intros [H | [(Hsrc & Hne & He) | (script & Hs & Hc)]]; [by left | |].
    + right. left. exists (Some c). split; [done|].
      destruct c; [done|]. cbn [nonempty andb]. rewrite He. by left.
    + right. right. exists (Some script). split; [done|].
      destruct script; [by apply elem_of_nil in Hc | done].
Qed.

Lemma clean_links_elem urljoin page_url found x :
  x ∈ clean_links urljoin page_url found <->
  exists c, c ∈ found
    /\ ((startswith "http" c = true /\ endswith ".mp3" c = true /\ x = c)
        \/ (startswith "http" c && endswith ".mp3" c = false
            /\ startswith "/" c = true /\ x = urljoin page_url c)).
Proof.
  unfold clean_links. rewrite in_flat_map_elem. split.
  - intros (c & Hc & Hx). exists c. split; [done|].
    destruct (startswith "http" c && endswith ".mp3" c) eqn:E.
    + apply list_elem_of_singleton in Hx as ->.
      apply andb_true_iff in E as [? ?]. by left.
    + destruct (startswith "/" c) eqn:E'; [|by apply elem_of_nil in Hx].
      apply list_elem_of_singleton in Hx as ->. by right.
  - intros (c & Hc & [(H1 & H2 & ->) | (H1 & H2 & ->)]); exists c; (split; [done|]).
    + rewrite H1, H2. simpl. by left.
    + rewrite H1, H2. by left.
Qed.

Lemma get_download_links_run urljoin w song_page_url s :
  get_download_links urljoin w song_page_url s
  = (Ok (links_answer urljoin w (clock s) song_page_url), advance s [EvGet song_page_url]).
Proof.
  unfold get_download_links, links_answer, try_except, bind, http_get, now, lift,
    raise_for_status, bad_status.
  simpl. destruct (session_get w (clock s) song_page_url) as [r|e]; simpl.
  - destruct (_ && _); same_run.
  - same_run.
Qed.

(** C7, as it is stated, fails: of two anchors, one whose target contains
    "download" and one whose target ends in the audio extension [.m4a],
    the first is collected and then dropped for not ending in [.mp3], the
    second is not collected; the page yields no link. *)
Lemma download_anchors_not_extracted :
  collect_links download_page = ["https://cdn.example/download?id=7" : str]
  /\ get_download_links urljoin_sample download_page_world
       "https://masstamilan.dev/songs/x" initial_state
     = (Ok [], advance initial_state [EvGet "https://masstamilan.dev/songs/x"]).
Proof. split; vm_compute; reflexivity. Qed.

(** C7, amended.  [get_download_links] makes one page request and returns,
    without duplicates and in the order of first occurrence, the links it
    keeps of those it finds.  It finds the anchor targets that end in
    [.mp3] or contain "download" (in any case), the audio sources that end
    in [.mp3], and the http(s) URLs ending in [.mp3] of the inline scripts.
    It keeps a found link as it is when it starts with [http] and ends in
    [.mp3], which every script URL does; it keeps a found link that starts
    with a slash resolved against the page's URL; it keeps no other.  A
    failed request or an error status yields the empty list. *)
Theorem get_download_links_contract urljoin w song_page_url s :
  exists links,
    get_download_links urljoin w song_page_url s
    = (Ok links, advance s [EvGet song_page_url])
    /\ NoDup links
    /\ match session_get w (clock s) song_page_url with
       | Ok response =>
           if bad_status response then links = []
           else
             let page := soup response in
             let found := collect_links page in
             let kept_links := clean_links urljoin song_page_url found in
             links = fromkeys kept_links
             /\ links `sublist_of` kept_links
             /\ (forall c, c ∈ found <->
                   (c ∈ soup_anchor_hrefs page
                    /\ (endswith ".mp3" c = true \/ contains "download" (lower c) = true))
                   \/ (Some c ∈ soup_audio_srcs page /\ c <> [] /\ endswith ".mp3" c = true)
                   \/ (exists script,
                          Some script ∈ soup_scripts page /\ c ∈ findall_mp3_urls script))
             /\ (forall c, c ∈ found ->
                   startswith "http" c = true -> endswith ".mp3" c = true -> c ∈ links)
             /\ (forall c, c ∈ found ->
                   startswith "/" c = true -> urljoin song_page_url c ∈ links)
             /\ (forall script c,
                   Some script ∈ soup_scripts page -> c ∈ findall_mp3_urls script ->
                   c ∈ links)
             /\ (forall x, x ∈ links ->
                   exists c, c ∈ found
                     /\ ((startswith "http" c = true /\ endswith ".mp3" c = true /\ x = c)
                         \/ (startswith "/" c = true /\ x = urljoin song_page_url c)))
       | Raise _ => links = []
       end.
Proof.
  rewrite get_download_links_run. eexists. split; [reflexivity|].
  unfold links_answer.
  destruct (session_get w (clock s) song_page_url) as [response|e];
    [|split; [constructor | done]].
  destruct (bad_status response); [split; [constructor | done]|].
  unfold extract_links. split; [apply fromkeys_NoDup|].
  cbv zeta. split; [done|]. split; [apply fromkeys_sublist|].
  split; [apply collect_links_elem|].
  assert (forall c, c ∈ collect_links (soup response) ->
            startswith "http" c = true -> endswith ".mp3" c = true ->
            c ∈ fromkeys (clean_links urljoin song_page_url (collect_links (soup response))))
    as Hhttp.
  { intros c Hc H1 H2. apply fromkeys_elem, clean_links_elem.
    exists c. split; [done|]. by left. }
  split; [exact Hhttp|]. split; [|split].
  - intros c Hc Hslash. apply fromkeys_elem, clean_links_elem.
    exists c. split; [done|]. right. split; [|done].
    destruct c as [|a c]; [done|]. simpl in Hslash.
    apply andb_true_iff in Hslash as [<-%bool_decide_eq_true _]. done.
  - intros script c Hs Hc. destruct (findall_shape script c Hc).
    apply Hhttp; [|done|done].
    apply collect_links_elem. right. right. eauto.
  - intros x Hx. apply fromkeys_elem, clean_links_elem in Hx as (c & Hc & Hcase).
    exists c. split; [done|]. destruct Hcase as [? | (_ & ? & ?)]; [by left | by right].
Qed.

(** ** Link validation *)

Lemma endswith_contains p s : endswith p s = true -> contains p s = true.
Proof.
  rewrite endswith_suffix, contains_infix. intros [pre ->].
  exists pre, []. by rewrite app_nil_r.
Qed.

Lemma ends_in_format_looks_like_audio url ext :
  ext ∈ supported_formats -> endswith ext (lower url) = true ->
  looks_like_audio url = true.
Proof.
  intros Hext Hend. unfold looks_like_audio. apply existsb_exists.
  exists ext. split; [by apply list_elem_of_In | by apply endswith_contains].
Qed.

(** C3, as it is stated, fails: the address does not end in an audio
    extension, no probe is made (none could succeed in this world), and the
    link is accepted. *)
Lemma validate_accepts_without_probe :
  existsb (fun ext => endswith ext (lower "https://cdn.example/song.mp3?token=1"))
    supported_formats = false
  /\ validate_download_link offline_world "https://cdn.example/song.mp3?token=1"
       initial_state
     = (Ok true, initial_state).
Proof. split; vm_compute; reflexivity. Qed.

(** C3, amended.  [validate_download_link] never raises.  When the
    lower-cased URL contains a supported extension anywhere (as it does when
    it ends in one) the link is accepted at once, without a probe and
    whatever its size.  Otherwise one HEAD request is made, and the link is
    accepted exactly when the request returns, with status 200, a content
    type that contains "audio", "mpeg", "mp3" or "mp4", and, when a
    content length is given, one that reads as an integer between 1 MiB and
    100 MiB. *)
Theorem validate_download_link_contract w url s :
  exists verdict s',
    validate_download_link w url s = (Ok verdict, s')
    /\ (looks_like_audio url = true -> verdict = true /\ s' = s)
    /\ (forall ext, ext ∈ supported_formats -> endswith ext (lower url) = true ->
        looks_like_audio url = true)
    /\ (looks_like_audio url = false ->
        s' = advance s [EvHead url]
        /\ (verdict = true <->
            exists response,
              session_head w (clock s) url = Ok response
              /\ status_code response = 200%Z
              /\ declares_audio (lower (default [] (content_type response))) = true
              /\ (truthy (content_length response) = true ->
                  exists size,
                    int (default [] (content_length response)) = Some size
                    /\ (1024 * 1024 <= size <= max_file_size)%Z))).
Proof.
  unfold validate_download_link, try_except, bind, http_head, now, lift.
  destruct (looks_like_audio url) eqn:Hfast.
  - exists true, s. split; [done|]. split; [done|].
    split; [intros; done | done].
  - simpl. 
    assert (forall ext, ext ∈ supported_formats -> endswith ext (lower url) = true ->
              false = true) as Hext.
    { intros ext H1 H2. rewrite <- Hfast. by eapply ends_in_format_looks_like_audio. }
    destruct (session_head w (clock s) url) as [response|e] eqn:Hhead; simpl.
    2:{ exists false, (advance s [EvHead url]). split; [same_run|].
        split; [done|]. split; [exact Hext|]. intros _. split; [done|].
        split; [done|]. intros (r & Hr & _). done. }
    destruct (status_code response =? 200)%Z eqn:Hstatus; simpl.
    2:{ exists false, (advance s [EvHead url]). split; [same_run|].
        split; [done|]. split; [exact Hext|]. intros _. split; [done|].
        split; [done|]. intros (r & [= <-] & Hr & _).
        apply Z.eqb_neq in Hstatus. done. }
    apply Z.eqb_eq in Hstatus.
    fold (declares_audio (lower (default [] (content_type response)))).
    destruct (truthy (content_length response)) eqn:Hlen.
    2:{ exists (declares_audio (lower (default [] (content_type response)))),
          (advance s [EvHead url]).
        split; [same_run|]. split; [done|]. split; [exact Hext|]. intros _.
        split; [done|]. split.
        - intros Ha. exists response.
          split; [done|]. split; [done|]. split; [done|]. intros Ht. congruence.
        - intros (r & [= <-] & _ & Ha & _). done. }
    destruct (int (default [] (content_length response))) as [size|] eqn:Hint.
    2:{ exists false, (advance s [EvHead url]). split; [same_run|].
        split; [done|]. split; [exact Hext|]. intros _. split; [done|].
        split; [done|]. intros (r & [= <-] & _ & _ & Hsz).
        destruct (Hsz Hlen) as (size & Hsize & _). congruence. }
    destruct ((size <? 1024 * 1024)%Z || (max_file_size <? size)%Z) eqn:Hrange.
    + exists false, (advance s [EvHead url]). split; [same_run|].
      split; [done|]. split; [exact Hext|]. intros _. split; [done|].
      split; [done|]. intros (r & [= <-] & _ & _ & Hsz).
      destruct (Hsz Hlen) as (size' & Hsize & Hlo & Hhi).
      assert (size' = size) as -> by congruence.
      apply orb_true_iff in Hrange as [H | H]; apply Z.ltb_lt in H; lia.
    + exists (declares_audio (lower (default [] (content_type response)))),
        (advance s [EvHead url]).
      split; [same_run|]. split; [done|]. split; [exact Hext|]. intros _.
      split; [done|]. split.
      * intros Ha. exists response.
        split; [done|]. split; [done|]. split; [done|].
        intros _. exists size. split; [done|].
        apply orb_false_iff in Hrange as [H1 H2].
        apply Z.ltb_ge in H1, H2. lia.
      * intros (r & [= <-] & _ & Ha & _). done.
Qed.

(** ** Footprints *)

Lemma with_files_advance s e1 f1 e2 f2 :
  with_files (advance (with_files (advance s e1) f1) e2) f2
  = with_files (advance s (e1 ++ e2)) f2.
Proof.
  unfold with_files, advance; simpl. f_equal.
  - rewrite length_app. lia.
  - by rewrite app_assoc.
Qed.

Lemma with_files_same s : with_files (advance s []) (files s) = s.
Proof. destruct s. unfold with_files, advance; simpl. by rewrite app_nil_r. Qed.

Lemma attempts_of_app e1 e2 : attempts_of (e1 ++ e2) = attempts_of e1 ++ attempts_of e2.
Proof. unfold attempts_of. apply flat_map_app. Qed.

Section Quietly.

Context {A B : Type}.

Lemma quietly_ret (a : A) : quietly (ret a).
Proof. intros s. exists (Ok a), [], (files s). by rewrite with_files_same. Qed.

Lemma quietly_raise e : quietly (@raise A e).
Proof. intros s. exists (Raise e), [], (files s). by rewrite with_files_same. Qed.

Lemma quietly_lift (o : Outcome A) : quietly (lift o).
Proof. intros s. exists o, [], (files s). by rewrite with_files_same. Qed.

Lemma quietly_bind (m : M A) (k : A -> M B) :
  quietly m -> (forall a, quietly (k a)) -> quietly (bind m k).
Proof.
  intros Hm Hk s. destruct (Hm s) as (r & e1 & f1 & Hrun & Hq). unfold bind.
  rewrite Hrun. destruct r as [a|e].
  - destruct (Hk a (with_files (advance s e1) f1)) as (r & e2 & f2 & Hrun2 & Hq2).
    exists r, (e1 ++ e2), f2. rewrite Hrun2, with_files_advance, attempts_of_app, Hq, Hq2.
    done.
  - exists (Raise e), e1, f1. done.
Qed.

Lemma quietly_try (m : M A) (h : Exn -> M A) :
  quietly m -> (forall e, quietly (h e)) -> quietly (try_except m h).
Proof.
  intros Hm Hh s. destruct (Hm s) as (r & e1 & f1 & Hrun & Hq). unfold try_except.
  rewrite Hrun. destruct r as [a|e].
  - exists (Ok a), e1, f1. done.
  - destruct (Hh e (with_files (advance s e1) f1)) as (r & e2 & f2 & Hrun2 & Hq2).
    exists r, (e1 ++ e2), f2. rewrite Hrun2, with_files_advance, attempts_of_app, Hq, Hq2.
    done.
Qed.

End Quietly.

Lemma quietly_emit e : attempts_of [e] = [] -> quietly (emit e).
Proof. intros He s. exists (Ok tt), [e], (files s). done. Qed.

Lemma quietly_now : quietly now.
Proof. intros s. exists (Ok (clock s)), [], (files s). by rewrite with_files_same. Qed.

Lemma quietly_fs_open_wb w path : quietly (fs_open_wb w path).
Proof.
  intros s. unfold fs_open_wb. destruct (open_wb w (clock s) path) as [e|].
  - exists (Raise e), [], (files s). by rewrite with_files_same.
  - exists (Ok tt), [], (<[path := []]> (files s)).
    unfold with_files, advance; simpl. by rewrite app_nil_r.
Qed.

Lemma quietly_fs_write path chunk : quietly (fs_write path chunk).
Proof.
  intros s. eexists (Ok tt), [], _. unfold fs_write, with_files, advance; simpl.
  by rewrite app_nil_r.
Qed.

Lemma quietly_fs_remove path : quietly (fs_remove path).
Proof.
  intros s. unfold fs_remove. destruct (files s !! path).
  - eexists (Ok tt), [], _. unfold with_files, advance; simpl. by rewrite app_nil_r.
  - exists (Raise OSError), [], (files s). by rewrite with_files_same.
Qed.

Lemma quietly_fs_exists path : quietly (fs_exists path).
Proof. intros s. eexists (Ok _), [], (files s). by rewrite with_files_same. Qed.

Lemma quietly_fs_getsize path : quietly (fs_getsize path).
Proof.
  intros s. unfold fs_getsize. destruct (files s !! path).
  - eexists (Ok _), [], (files s). by rewrite with_files_same.
  - exists (Raise OSError), [], (files s). by rewrite with_files_same.
Qed.

Lemma quietly_fs_makedirs w path : quietly (fs_makedirs w path).
Proof.
  intros s. unfold fs_makedirs. destruct (makedirs w (clock s) path) as [e|].
  - exists (Raise e), [], (files s). by rewrite with_files_same.
  - exists (Ok tt), [], (files s). by rewrite with_files_same.
Qed.

(** Breaks a computation down to its steps. *)
Ltac footprint :=
  repeat first
    [ progress intros
    | solve [eauto 2]
    | apply quietly_ret | apply quietly_raise | apply quietly_lift | apply quietly_now
    | apply quietly_emit; reflexivity
    | apply quietly_fs_open_wb | apply quietly_fs_write | apply quietly_fs_remove
    | apply quietly_fs_exists | apply quietly_fs_getsize | apply quietly_fs_makedirs
    | apply quietly_bind | apply quietly_try
    | match goal with
      | |- quietly (if ?b then _ else _) => destruct b
      | |- quietly (match ?x with _ => _ end) => destruct x
      end ].

Lemma quietly_http_get w url : quietly (http_get w url).
Proof. unfold http_get. footprint. Qed.

Lemma quietly_http_head w url : quietly (http_head w url).
Proof. unfold http_head. footprint. Qed.

Lemma quietly_raise_for_status r : quietly (raise_for_status r).
Proof. unfold raise_for_status. footprint. Qed.

Lemma quietly_get_download_links urljoin w url : quietly (get_download_links urljoin w url).
Proof.
  unfold get_download_links.
  pose proof (quietly_http_get w). pose proof quietly_raise_for_status. footprint.
Qed.

Lemma quietly_get_download_links_selenium w url :
  quietly (get_download_links_selenium w url).
Proof. unfold get_download_links_selenium, get_driver, driver_load, sleep. footprint. Qed.

Lemma quietly_validate_download_link w url : quietly (validate_download_link w url).
Proof.
  unfold validate_download_link. pose proof (quietly_http_head w). footprint.
Qed.

Lemma quietly_write_loop path stream size : quietly (write_loop path stream size).
Proof.
  revert size. induction stream as [|chunk rest IH]; intros size; simpl; footprint.
Qed.

Lemma quietly_download_file url_path w url folder filename :
  quietly (_download_file url_path w url folder filename).
Proof.
  unfold _download_file, store_stream.
  pose proof (quietly_http_head w). pose proof (quietly_http_get w).
  pose proof quietly_raise_for_status. pose proof quietly_write_loop.
  footprint.
Qed.

Lemma quietly_links_loop url_path w links folder filename :
  quietly (links_loop url_path w links folder filename).
Proof.
  induction links as [|link rest IH]; simpl.
  - footprint.
  - pose proof (quietly_validate_download_link w).
    pose proof (quietly_download_file url_path w).
    footprint.
Qed.

(** ** The retry loop *)

Lemma quietly_run {A} (m : M A) s :
  quietly m ->
  exists r evs fs, m s = (r, with_files (advance s evs) fs) /\ attempts_of evs = [].
Proof. intros H. apply H. Qed.

Lemma with_files_advance_l s e1 e2 f2 :
  with_files (advance (advance s e1) e2) f2 = with_files (advance s (e1 ++ e2)) f2.
Proof. by rewrite advance_app. Qed.

Section Retry.

Variable urljoin : str -> str -> str.
Variable url_path : str -> str.
Variable w : World.
Variable download_folder : str.
Variable preferred_name : option str.

Local Abbreviation run_attempt :=
  (attempt_body urljoin url_path w).
Local Abbreviation run_attempts :=
  (attempts_loop urljoin url_path w).

(** The handler of the retry loop waits, or not, and goes on. *)
Lemma retry_handler_run attempt s :
  exists evs,
    ((if attempt <? max_retries - 1 then sleep 2 else ret tt) ;; ret (@None bool)) s
    = (Ok None, advance s evs)
    /\ attempts_of evs = [].
Proof.
  unfold bind, sleep. destruct (attempt <? max_retries - 1).
  - exists [EvSleep 2]. done.
  - exists []. by rewrite advance_nil.
Qed.

Lemma quietly_attempt_links song_url song_title attempt :
  quietly (attempt_links urljoin url_path w song_url song_title download_folder
             preferred_name attempt).
Proof.
  unfold attempt_links, sleep.
  pose proof (quietly_get_download_links urljoin w).
  pose proof (quietly_get_download_links_selenium w).
  pose proof (quietly_links_loop url_path w).
  footprint.
Qed.

(** A computation in a [try] whose handler is that of the retry loop
    does not raise. *)
Lemma try_retry_handler (m : M (option bool)) attempt s :
  quietly m ->
  exists r evs fs,
    try_except m
      (fun _ => (if attempt <? max_retries - 1 then sleep 2 else ret tt) ;; ret None) s
    = (Ok r, with_files (advance s evs) fs)
    /\ attempts_of evs = [].
Proof.
  intros Hm. destruct (Hm s) as (r & evs & fs & Hrun & Hq).
  unfold try_except. rewrite Hrun. destruct r as [r|e].
  - exists r, evs, fs. done.
  - destruct (retry_handler_run attempt (with_files (advance s evs) fs))
      as (evs' & -> & Hq').
    exists None, (evs ++ evs'), fs. split.
    + unfold with_files, advance; simpl. f_equal. f_equal.
      * rewrite length_app. lia.
      * by rewrite app_assoc.
    + by rewrite attempts_of_app, Hq, Hq'.
Qed.

(** One attempt never raises.  Without a page URL it returns at once;
    with one it announces itself, once, and nothing else does. *)
Lemma attempt_body_steps song_info attempt s :
  exists r evs fs,
    run_attempt song_info download_folder preferred_name attempt s
    = (Ok r, with_files (advance s evs) fs)
    /\ ((truthy (song_page song_info) = false /\ r = Some false /\ attempts_of evs = [])
        \/ (truthy (song_page song_info) = true /\ attempts_of evs = [attempt + 1])).
Proof.
  unfold attempt_body.
  set (handler := fun _ : Exn => _).
  assert (forall song_url song_title,
            truthy song_url = true ->
            exists r evs fs,
              try_except
                (emit (EvAttempt (attempt + 1)) ;;
                 attempt_links urljoin url_path w (default [] song_url) song_title
                   download_folder preferred_name attempt) handler s
              = (Ok r, with_files (advance s evs) fs)
              /\ attempts_of evs = [attempt + 1]) as Hgo.
  { intros song_url song_title _.
    destruct (try_retry_handler
                (attempt_links urljoin url_path w (default [] song_url) song_title
                   download_folder preferred_name attempt)
                attempt (advance s [EvAttempt (attempt + 1)])
                (quietly_attempt_links _ _ _)) as (r & evs & fs & Hrun & Hq).
    exists r, ([EvAttempt (attempt + 1)] ++ evs), fs. split.
    - rewrite <- with_files_advance_l, <- Hrun. reflexivity.
    - by rewrite attempts_of_app, Hq. }
  assert (exists fs, (Ok (Some false), s)
                     = (Ok (Some false), with_files (advance s []) fs)) as [fs0 Hstay]
    by (exists (files s); by rewrite with_files_same).
  destruct song_info as [url title name | text]; simpl.
  - destruct (truthy url) eqn:Hurl; simpl.
    + destruct (Hgo url (default ("Unknown Song" : str) title) Hurl)
        as (r & evs & fs & Hrun & Hq).
      exists r, evs, fs. split; [exact Hrun | by right].
    + exists (Some false), [], fs0. split; [exact Hstay | by left].
  - destruct text as [|c text]; simpl.
    + exists (Some false), [], fs0. split; [exact Hstay | by left].
    + destruct (Hgo (Some (c :: text)) ("Unknown Song" : str) eq_refl)
        as (r & evs & fs & Hrun & Hq).
      exists r, evs, fs. split; [exact Hrun | by right].
Qed.

Lemma attempts_loop_steps song_info attempts s :
  exists result evs fs,
    run_attempts song_info download_folder preferred_name attempts s
    = (Ok result, with_files (advance s evs) fs)
    /\ exists k, attempts_of evs = (fun a => a + 1) <$> take k attempts.
Proof.
  revert s. induction attempts as [|attempt rest IH]; intros s; simpl.
  - exists false, [], (files s). rewrite with_files_same. split; [done|]. by exists 0.
  - destruct (attempt_body_steps song_info attempt s) as (r & evs & fs & Hrun & Hcase).
    unfold bind. rewrite Hrun. destruct r as [result|].
    + exists result, evs, fs. split; [done|].
      destruct Hcase as [(_ & _ & ->) | (_ & ->)]; [by exists 0 | by exists 1].
    + destruct Hcase as [(_ & ? & _) | (_ & Hq)]; [done|].
      destruct (IH (with_files (advance s evs) fs)) as (result & evs' & fs' & -> & k & Hk).
      exists result, (evs ++ evs'), fs'. rewrite with_files_advance. split; [done|].
      exists (S k). rewrite attempts_of_app, Hq, Hk. done.
Qed.

(** With a page URL, an attempt is its announcement followed by
    [attempt_links] inside the [try]. *)
Lemma attempt_body_run song_info page attempt s :
  song_page song_info = Some page -> page <> [] ->
  exists song_title,
    run_attempt song_info download_folder preferred_name attempt s
    = try_except
        (attempt_links urljoin url_path w page song_title download_folder
           preferred_name attempt)
        (fun _ => (if attempt <? max_retries - 1 then sleep 2 else ret tt) ;; ret None)
        (advance s [EvAttempt (attempt + 1)]).
Proof.
  intros Hpage Hne. destruct page as [|c page]; [done|].
  destruct song_info as [url title name | text]; simpl in Hpage; subst.
  - by exists (default ("Unknown Song" : str) title).
  - injection Hpage as ->. by exists ("Unknown Song" : str).
Qed.

(** When neither extraction finds a link, the attempt waits and goes on,
    or, if it is the last, gives up. *)
Lemma attempt_links_nothing page song_title attempt s :
  (forall st, (get_download_links urljoin w page st).1 = Ok []) ->
  (forall st, (get_download_links_selenium w page st).1 = Ok []) ->
  exists evs fs,
    attempt_links urljoin url_path w page song_title download_folder
      preferred_name attempt s
    = (Ok (if attempt <? max_retries - 1 then None else Some false),
       with_files (advance s evs) fs)
    /\ attempts_of evs = [].
Proof.
  intros H1 H2. unfold attempt_links, bind.
  destruct (quietly_get_download_links urljoin w page s) as (r1 & e1 & f1 & Hrun1 & Hq1).
  specialize (H1 s). rewrite Hrun1 in H1 |- *. simpl in H1. subst r1. simpl.
  destruct (quietly_get_download_links_selenium w page (with_files (advance s e1) f1))
    as (r2 & e2 & f2 & Hrun2 & Hq2).
  specialize (H2 (with_files (advance s e1) f1)). rewrite Hrun2 in H2 |- *.
  simpl in H2. subst r2. simpl. rewrite with_files_advance.
  change (max_retries - 1) with 2. destruct (attempt <? 2).
  - exists ((e1 ++ e2) ++ [EvSleep 2]), f2. split.
    + unfold sleep, emit, ret, with_files, advance; simpl. do 2 f_equal.
      * rewrite !length_app. simpl. lia.
      * by rewrite <- !app_assoc.
    + rewrite !attempts_of_app, Hq1, Hq2. done.
  - exists (e1 ++ e2), f2. split; [done|]. by rewrite attempts_of_app, Hq1, Hq2.
Qed.

Lemma attempt_body_nothing song_info page attempt s :
  song_page song_info = Some page -> page <> [] ->
  (forall st, (get_download_links urljoin w page st).1 = Ok []) ->
  (forall st, (get_download_links_selenium w page st).1 = Ok []) ->
  exists evs fs,
    run_attempt song_info download_folder preferred_name attempt s
    = (Ok (if attempt <? max_retries - 1 then None else Some false),
       with_files (advance s evs) fs)
    /\ attempts_of evs = [attempt + 1].
Proof.
  intros Hpage Hne H1 H2.
  destruct (attempt_body_run song_info page attempt s Hpage Hne) as [song_title ->].
  destruct (attempt_links_nothing page song_title attempt
              (advance s [EvAttempt (attempt + 1)]) H1 H2) as (evs & fs & Hrun & Hq).
  unfold try_except. rewrite Hrun.
  exists ([EvAttempt (attempt + 1)] ++ evs), fs. rewrite with_files_advance_l.
  split; [done|]. by rewrite attempts_of_app, Hq.
Qed.

End Retry.

(** ** The batch downloader *)

Lemma pick_partition {A} (flags : list bool) (l : list A) :
  length flags = length l -> pick true flags l ++ pick false flags l ≡ₚ l.
Proof.
  revert l. induction flags as [|f flags IH]; intros [|x l]; simpl; try done.
  intros [= Hlen]. destruct f; simpl.
  - by rewrite IH.
  - rewrite <- Permutation_middle. by rewrite IH.
Qed.

Lemma pick_app {A} b (flags1 flags2 : list bool) (l1 l2 : list A) :
  length flags1 = length l1 ->
  pick b (flags1 ++ flags2) (l1 ++ l2) = pick b flags1 l1 ++ pick b flags2 l2.
Proof.
  revert l1. induction flags1 as [|f flags1 IH]; intros [|x l1]; simpl; try done.
  intros [= Hlen]. destruct (Bool.eqb f b); simpl; by rewrite IH.
Qed.

Lemma pick_all_false {A} (l : list A) :
  pick true (replicate (length l) false) l = []
  /\ pick false (replicate (length l) false) l = l.
Proof. induction l as [|x l [IH1 IH2]]; simpl; [done|]. by rewrite IH1, IH2. Qed.

(** ** The streamed transfer *)

(** C1: the claim holds of the code except for its last clause.  A link
    whose stream breaks after 2048 bytes fails, and the 2048 bytes stay on
    disk under the destination name. *)
Theorem broken_stream_leaves_partial_file :
  exists s',
    _download_file url_path_sample broken_stream_world
      "https://cdn.example/song.mp3" "downloads" "Song" initial_state
    = (Ok false, s')
    /\ length <$> (files s' !! ("downloads/Song.mp3" : str)) = Some 2048.
Proof. eexists. split; vm_compute; reflexivity. Qed.

(** What the claim says of the files does hold when no stream breaks.  *)

Lemma write_loop_files path stream size s :
  is_Some (files s !! path) ->
  exists r s',
    write_loop path stream size s = (Ok r, s')
    /\ (forall q, q <> path -> files s' !! q = files s !! q)
    /\ match r with
       | Some result => result = false /\ files s' !! path = None
       | None => is_Some (files s' !! path)
       end.
Proof.
  revert size s. induction stream as [|chunk rest IH]; intros size s Hsome; simpl.
  - exists None, s. done.
  - destruct (nonempty chunk); [|by apply IH].
    unfold bind at 1. unfold fs_write at 1.
    set (s1 := {| clock := clock s;
                  files := <[path := default [] (files s !! path) ++ chunk]> (files s);
                  trace := trace s |}).
    assert (is_Some (files s1 !! path)) as Hsome1
      by (subst s1; simpl; rewrite lookup_insert_eq; eauto).
    assert (forall q, q <> path -> files s1 !! q = files s !! q) as Hother1
      by (intros q Hq; subst s1; simpl; by rewrite lookup_insert_ne).
    destruct (max_file_size <? size + Z.of_nat (length chunk))%Z.
    + unfold bind, fs_remove. destruct Hsome1 as [c Hc]. rewrite Hc.
      eexists (Some false), _. split; [reflexivity|]. simpl. split.
      * intros q Hq. rewrite lookup_delete_ne by done. by apply Hother1.
      * split; [done|]. apply lookup_delete_eq.
    + destruct (IH (size + Z.of_nat (length chunk))%Z s1 Hsome1)
        as (r & s' & Hrun & Hother & Hr).
      exists r, s'. split; [exact Hrun|]. split; [|exact Hr].
      intros q Hq. rewrite Hother by done. by apply Hother1.
Qed.

Lemma store_stream_files w path response s r s' :
  store_stream w path response s = (r, s') ->
  files_after (fun e => stream_error response = Some e) (files s) r s'.
Proof.
  unfold store_stream, bind. unfold fs_open_wb at 1.
  destruct (open_wb w (clock s) path) as [e|].
  { intros [= <- <-]. by left. }
  set (s1 := {| clock := clock s; files := <[path := []]> (files s); trace := trace s |}).
  assert (is_Some (files s1 !! path)) as Hsome1
    by (subst s1; simpl; rewrite lookup_insert_eq; eauto).
  assert (forall q, q <> path -> files s1 !! q = files s !! q) as Hother1
    by (intros q Hq; subst s1; simpl; by rewrite lookup_insert_ne).
  destruct (write_loop_files path (chunks response) 0%Z s1 Hsome1)
    as (stopped & s2 & -> & Hother & Hstopped).
  assert (forall q content,
            q <> path -> files s2 !! q = Some content -> files s !! q = Some content)
    as Hkeep.
  { intros q content Hq Hlook. by rewrite <- Hother1, <- Hother. }
  destruct stopped as [result|].
  - destruct Hstopped as [-> Hgone]. intros [= <- <-]. simpl.
    intros q content Hlook. destruct (decide (q = path)) as [-> | Hq]; [congruence|].
    by apply Hkeep.
  - destruct (stream_error response) as [e|] eqn:Herr.
    { intros [= <- <-]. by right. }
    destruct Hstopped as [content Hcontent].
    unfold fs_exists, fs_getsize. rewrite Hcontent.
    rewrite bool_decide_eq_true_2 by eauto. simpl. rewrite Hcontent. simpl.
    destruct (1024 <? Z.of_nat (length content))%Z eqn:Hsize.
    + intros [= <- <-]. simpl. exists path, content. split; [done|].
      by apply Z.ltb_lt.
    + unfold fs_exists, fs_remove. rewrite bool_decide_eq_true_2 by eauto.
      simpl. rewrite Hcontent. intros [= <- <-]. simpl.
      intros q c Hlook. destruct (decide (q = path)) as [-> | Hq].
      * by rewrite lookup_delete_eq in Hlook.
      * rewrite lookup_delete_ne in Hlook by done. by apply Hkeep.
Qed.

Lemma frames_ret {A} (a : A) (P : A -> Prop) : P a -> frames (ret a) P.
Proof. intros HP s r s1 [= <- <-]. done. Qed.

Lemma frames_raise {A} e (P : A -> Prop) : frames (raise e) P.
Proof. intros s r s1 [= <- <-]. done. Qed.

Lemma frames_bind {A B} (m : M A) (k : A -> M B) (P : A -> Prop) (Q : B -> Prop) :
  frames m P -> (forall a, P a -> frames (k a) Q) -> frames (bind m k) Q.
Proof.
  intros Hm Hk s r s'. unfold bind. destruct (m s) as [[a|e] s1] eqn:Hrun.
  - destruct (Hm _ _ _ Hrun) as [Hfiles HP]. intros Hk'.
    destruct (Hk a HP _ _ _ Hk') as [Hfiles' HQ]. split; [congruence | done].
  - destruct (Hm _ _ _ Hrun) as [Hfiles _]. intros [= <- <-]. done.
Qed.

Lemma frames_try {A} (m : M A) (h : Exn -> M A) (P : A -> Prop) :
  frames m P -> (forall e, frames (h e) P) -> frames (try_except m h) P.
Proof.
  intros Hm Hh s r s'. unfold try_except. destruct (m s) as [[a|e] s1] eqn:Hrun.
  - destruct (Hm _ _ _ Hrun) as [Hfiles HP]. intros [= <- <-]. done.
  - destruct (Hm _ _ _ Hrun) as [Hfiles _]. intros Hh'.
    destruct (Hh e _ _ _ Hh') as [Hfiles' HP]. split; [congruence | done].
Qed.

Lemma frames_weaken {A} (m : M A) (P Q : A -> Prop) :
  (forall a, P a -> Q a) -> frames m P -> frames m Q.
Proof.
  intros HPQ Hm s r s1 Hrun. destruct (Hm _ _ _ Hrun) as [Hfiles HP].
  split; [done|]. destruct r; [by apply HPQ | done].
Qed.

Lemma frames_http_get w url :
  frames (http_get w url) (fun response => exists t, session_get w t url = Ok response).
Proof.
  intros s r s1. unfold http_get, bind, now, emit, lift. simpl.
  intros [= <- <-]. split; [done|]. destruct (session_get w (clock s) url) eqn:E; eauto.
Qed.

Lemma frames_http_head w url : frames (http_head w url) (fun _ => True).
Proof.
  intros s r s1. unfold http_head, bind, now, emit, lift. simpl.
  intros [= <- <-]. split; [done|]. by destruct (session_head w (clock s) url).
Qed.

Lemma frames_raise_for_status response : frames (raise_for_status response) (fun _ => True).
Proof.
  unfold raise_for_status. destruct (_ && _); [apply frames_raise | by apply frames_ret].
Qed.

(** After steps that leave the files alone, the files are what the rest
    makes of them. *)
Lemma files_after_bind {A} (m : M A) (k : A -> M bool) (P : A -> Prop) broken :
  frames m P ->
  (forall a s1 r s', P a -> k a s1 = (r, s') -> files_after broken (files s1) r s') ->
  forall s r s', bind m k s = (r, s') -> files_after broken (files s) r s'.
Proof.
  intros Hm Hk s r s'. unfold bind. destruct (m s) as [[a|e] s1] eqn:Hrun.
  - destruct (Hm _ _ _ Hrun) as [Hfiles HP]. intros Hk'.
    rewrite <- Hfiles. by eapply Hk.
  - destruct (Hm _ _ _ Hrun) as [Hfiles _]. intros [= <- <-]. by left.
Qed.

Lemma files_after_ret_false broken s :
  files_after broken (files s) (Ok false) s.
Proof. intros path content H. exact H. Qed.

Section DownloadFile.

Variable url_path : str -> str.
Variable w : World.
Variable broken : Exn -> Prop.
Variable url download_folder filename : str.

Hypothesis broken_streams :
  forall t response e,
    session_get w t url = Ok response -> stream_error response = Some e -> broken e.

(** [_download_file] never raises.  When it succeeds a file of more than
    1024 bytes is on disk; when it fails, either no file is left that was
    not there before, or the failure is that of a broken stream. *)
Lemma download_file_files s r s' :
  _download_file url_path w url download_folder filename s = (r, s') ->
  match r with
  | Ok true =>
      exists path content,
        files s' !! path = Some content /\ (1024 < Z.of_nat (length content))%Z
  | Ok false =>
      (forall path content,
          files s' !! path = Some content -> files s !! path = Some content)
      \/ exists e, broken e
  | Raise _ => False
  end.
Proof.
  unfold _download_file, try_except.
  match goal with
  | |- context [match ?body s with _ => _ end] =>
      assert (forall s0 r0 s0', body s0 = (r0, s0') ->
                                files_after broken (files s0) r0 s0') as Hbody;
      [|destruct (body s) as [[[]|] s1] eqn:Hrun]
  end.
  { intros s0 r0 s0'. destruct (negb (nonempty url) || negb (startswith "http" url)).
    { intros [= <- <-]. apply files_after_ret_false. }
    eapply (files_after_bind _ _ (fun _ => True)).
    { destruct (negb (looks_like_audio url)); [|by apply frames_ret].
      apply frames_try; [|intros; by apply frames_ret].
      eapply frames_bind; [apply frames_http_head|].
      intros; by apply frames_ret. }
    intros proceed s1 r1 s1' _. destruct (negb proceed).
    { intros [= <- <-]. apply files_after_ret_false. }
    eapply files_after_bind; [apply frames_http_get|].
    intros response s2 r2 s2' [t Hget].
    eapply files_after_bind; [apply frames_raise_for_status|].
    intros _ s3 r3 s3' _.
    eapply (files_after_bind _ _ (fun _ => True)).
    { destruct (truthy (content_length response)); [|by apply frames_ret].
      destruct (int _); [by apply frames_ret | apply frames_raise]. }
    intros too_large s4 r4 s4' _. destruct too_large.
    { intros [= <- <-]. apply files_after_ret_false. }
    intros Hstore. apply store_stream_files in Hstore.
    destruct r4 as [[]|e]; simpl in *; [done | done|].
    destruct Hstore as [? | Herr]; [by left | right]. by eapply broken_streams. }
  - intros [= <- <-]. apply (Hbody _ _ _ Hrun).
  - intros [= <- <-]. left. apply (Hbody _ _ _ Hrun).
  - intros [= <- <-]. destruct (Hbody _ _ _ Hrun) as [Hsame | Hbroken].
    + left. intros path content. by rewrite Hsame.
    + right. eauto.
Qed.

End DownloadFile.

(** A download reported successful has left a file of more than 1 KiB. *)
Lemma download_success_is_verified url_path w url download_folder filename s s' :
  _download_file url_path w url download_folder filename s = (Ok true, s') ->
  exists path content,
    files s' !! path = Some content /\ (1024 < Z.of_nat (length content))%Z.
Proof.
  intros Hrun.
  by apply (download_file_files url_path w (fun _ => True) url download_folder filename
              ltac:(done) s (Ok true) s').
Qed.

(** When no stream breaks, a failed download leaves no file that was not
    there before: what was written is removed. *)
Lemma complete_streams_leave_no_partial_file url_path w url download_folder filename
    s s' :
  streams_complete w ->
  _download_file url_path w url download_folder filename s = (Ok false, s') ->
  forall path content, files s' !! path = Some content -> files s !! path = Some content.
Proof.
  intros Hcomplete Hrun.
  destruct (download_file_files url_path w (fun _ => False) url download_folder filename
              ltac:(intros t response e Hget Herr;
                    rewrite (Hcomplete _ _ _ Hget) in Herr; discriminate)
              s (Ok false) s' Hrun) as [Hclean | [e []]].
  exact Hclean.
Qed.

(** A link whose download fails is a link failure: the loop goes on with
    the next link, from the state the failure left. *)
Lemma failed_link_goes_on url_path w link rest download_folder filename s s1 s2 :
  validate_download_link w link s = (Ok true, s1) ->
  _download_file url_path w link download_folder filename s1 = (Ok false, s2) ->
  links_loop url_path w (link :: rest) download_folder filename s
  = links_loop url_path w rest download_folder filename s2.
Proof.
  intros Hvalid Hdown. simpl. unfold bind at 1. unfold try_except at 1.
  unfold bind at 1. rewrite Hvalid. simpl. rewrite Hdown. reflexivity.
Qed.

(** * Further properties *)

(** ** Splitting and joining *)


(** A word at the head of a string, followed by nothing or by a blank, is
    the first thing [split] yields. *)
Lemma split_word_first word rest :
  plain_word word ->
  (rest = [] \/ exists b rest', rest = b :: rest' /\ is_space b = true) ->
  split (word ++ rest) = word :: split rest.
Proof.
  intros [Hne Hchars] Hrest. induction word as [|c word IH]; [done|].
  assert (is_space c = false) as Hc by (apply Hchars; by left).
  destruct word as [|c' word].
  - simpl. rewrite Hc. destruct Hrest as [-> | (b & rest' & -> & Hb)]; [done|].
    by rewrite Hb.
  - assert (is_space c' = false) as Hc' by (apply Hchars; right; by left).
    change ((c :: c' :: word) ++ rest) with (c :: (c' :: word) ++ rest).
    cbn [split]. rewrite Hc. cbn [app]. rewrite Hc'.
    change (c' :: word ++ rest) with ((c' :: word) ++ rest).
    rewrite IH; [done | done |]. intros a Ha. apply Hchars. by right.
Qed.



(** ** Query cleaning *)







(** ** The search stages, one by one *)

Lemma direct_hits_elem urljoin base_url page h :
  h ∈ direct_hits urljoin base_url page <->
  exists link href,
    page_link page link href
    /\ 5 < length (tag_text link)
    /\ h = {| hit_url := urljoin base_url href; hit_title := tag_text link;
              hit_source := "masstamilan_direct" |}.
Proof.
  unfold direct_hits, page_link. rewrite in_flat_map_elem. split.
  - intros (selector & Hsel & Hin). apply in_flat_map_elem in Hin as (link & Hlink & Hin).
    destruct (tag_href link) as [href|] eqn:Hhref; [|by apply elem_of_nil in Hin].
    destruct (nonempty href && existsb _ page_keywords) eqn:E;
      [|by apply elem_of_nil in Hin].
    apply andb_true_iff in E as [_ (keyword & Hk%list_elem_of_In & Hc)%existsb_exists].
    destruct (nonempty (tag_text link) && (5 <? length (tag_text link))) eqn:E';
      [|by apply elem_of_nil in Hin].
    apply andb_true_iff in E' as [_ Hlen%Nat.ltb_lt].
    apply list_elem_of_singleton in Hin as ->.
    exists link, href. eauto 10.
  - intros (link & href & ((selector & Hsel & Hlink) & Hhref & keyword & Hk & Hc) & Hlen & ->).
    exists selector. split; [done|]. apply in_flat_map_elem. exists link. split; [done|].
    rewrite Hhref.
    assert (nonempty href = true) as ->.
    { destruct href as [|a href]; [|done]. exfalso.
      revert Hc. unfold page_keywords in Hk. set_unfold.
      destruct Hk as [-> | [-> | [-> | []]]]; discriminate. }
    assert (existsb (fun keyword => contains keyword (lower href)) page_keywords = true)
      as ->.
    { apply existsb_exists. exists keyword. split; [by apply list_elem_of_In | done]. }
    assert (nonempty (tag_text link) = true) as ->
      by (destruct (tag_text link); [simpl in Hlen; lia | done]).
    apply Nat.ltb_lt in Hlen as ->. simpl. by left.
Qed.

Lemma direct_run_base urljoin quote_plus w query base_url s :
  _search_masstamilan_direct urljoin quote_plus w query base_url s
  = (Ok (direct_answer urljoin quote_plus w (clock s) query (search_base base_url)),
     advance s [EvJitter; EvGet (search_url quote_plus (search_base base_url) query)]).
Proof.
  unfold _search_masstamilan_direct, direct_answer, try_except, bind, http_get,
    now, lift, raise_for_status, bad_status, search_url, search_base.
  destruct (truthy base_url); simpl.
  - destruct (session_get w (S (clock s)) _) as [r|e]; simpl.
    + destruct (_ && _); same_run.
    + same_run.
  - destruct (session_get w (S (clock s)) _) as [r|e]; simpl.
    + destruct (_ && _); same_run.
    + same_run.
Qed.

(** X2.  [_search_masstamilan_direct] never raises.  It waits once, makes
    one request, to the search address of the base it is given (the
    primary site when it is given none, or an empty one), and returns: when
    the request fails or is answered with an error status, nothing;
    otherwise the hits, marked [masstamilan_direct], of the links that one
    of the seven selectors finds, whose target contains [/songs/],
    [/movie/] or [/album/] in any case and whose text has more than 5
    characters, with the target resolved against the base as its URL and
    the text as its title: a record is among the hits exactly when it is
    the hit of such a link (a link that several selectors find is listed
    once for each). *)
Theorem search_direct_contract urljoin quote_plus w query base_url s :
  let base := search_base base_url in
  let address := base ++ "/?s=" ++ quote_plus query in
  exists hits,
    _search_masstamilan_direct urljoin quote_plus w query base_url s
    = (Ok hits, advance s [EvJitter; EvGet address])
    /\ (base_url = None \/ base_url = Some [] -> base = base_masstamilan)
    /\ (forall b, base_url = Some b -> b <> [] -> base = b)
    /\ match session_get w (S (clock s)) address with
       | Ok response =>
           if bad_status response then hits = []
           else
             forall h, h ∈ hits <->
               exists link href,
                 page_link (soup response) link href
                 /\ 5 < length (tag_text link)
                 /\ h = {| hit_url := urljoin base href; hit_title := tag_text link;
                           hit_source := "masstamilan_direct" |}
       | Raise _ => hits = []
       end.
Proof.
  intros base address. rewrite direct_run_base. eexists. split; [reflexivity|].
  split; [intros [-> | ->]; reflexivity|].
  split; [intros b -> Hb; destruct b; done|].
  unfold direct_answer. fold base. change (search_url quote_plus base query) with address.
  destruct (session_get w (S (clock s)) address) as [response|e]; [|done].
  destruct (bad_status response); [done|].
  intros h. apply direct_hits_elem.
Qed.

Lemma lstrip_idemp s : lstrip (lstrip s) = lstrip s.
Proof.
  induction s as [|c s IH]; simpl; [done|].
  destruct (is_space c) eqn:E; [done|]. simpl. by rewrite E.
Qed.

Lemma lstrip_app_nonblank l c r :
  is_space c = false -> lstrip (l ++ c :: r) = lstrip l ++ c :: r.
Proof.
  intros Hc. induction l as [|a l IH]; simpl; [by rewrite Hc|].
  by destruct (is_space a).
Qed.

Lemma rstrip_cons_nonblank c t : is_space c = false -> rstrip (c :: t) = c :: rstrip t.
Proof.
  intros Hc. unfold rstrip. simpl.
  rewrite lstrip_app_nonblank by done. rewrite rev_app_distr. done.
Qed.

Lemma rstrip_idemp s : rstrip (rstrip s) = rstrip s.
Proof. unfold rstrip. by rewrite rev_involutive, lstrip_idemp. Qed.

Lemma lstrip_head s c t : lstrip s = c :: t -> is_space c = false.
Proof.
  induction s as [|a s IH]; simpl; [done|].
  destruct (is_space a) eqn:E; [done|]. by intros [= <- _].
Qed.

(** What [strip] returns has no blank left at either end: stripping it
    again changes nothing. *)
Lemma strip_idemp s : strip (strip s) = strip s.
Proof.
  unfold strip. destruct (lstrip s) as [|c t] eqn:E; [done|].
  pose proof (lstrip_head _ _ _ E) as Hc.
  rewrite (rstrip_cons_nonblank c t Hc). simpl. rewrite Hc.
  by rewrite (rstrip_cons_nonblank c _ Hc), rstrip_idemp.
Qed.

Lemma selenium_hit_shape link h :
  h ∈ selenium_hit link ->
  hit_source h = "masstamilan"
  /\ el_href link = Ok (Some (hit_url h)) /\ hit_url h <> []
  /\ (exists text, el_text link = Ok text /\ hit_title h = strip text)
  /\ 5 < length (hit_title h).
Proof.
  unfold selenium_hit.
  destruct (el_href link) as [href|e]; [|by intros ?%elem_of_nil].
  destruct (el_text link) as [text|e]; [|by intros ?%elem_of_nil].
  destruct (truthy href && nonempty (strip text) && (5 <? length (strip text))) eqn:E;
    [|by intros ?%elem_of_nil].
  apply andb_true_iff in E as [[Hhref _]%andb_true_iff Hlen%Nat.ltb_lt].
  intros ->%list_elem_of_singleton. simpl.
  destruct href as [[|a href]|]; try done. simpl. eauto 10.
Qed.

(** X3.  [_search_masstamilan_selenium] never raises and makes no HTTP
    request of its own: it sets the browser driver up, and only when that
    succeeds loads the search page of the primary site, and only when that
    succeeds waits 3 seconds and asks for the links.  Without Chrome, and
    when the page load or the element query raises, it returns nothing.
    Every hit it returns is marked [masstamilan], has the element's own
    [href], not empty, as its URL, and as its title the element's text with
    the blanks at both ends removed, more than 5 characters long; an
    element whose attributes cannot be read is passed over. *)
Theorem search_selenium_contract quote_plus w query s :
  let address := base_masstamilan ++ "/?s=" ++ quote_plus query in
  exists hits evs,
    _search_masstamilan_selenium quote_plus w query s = (Ok hits, advance s evs)
    /\ (if chrome_available w (clock s) then
          match driver_get w (S (clock s)) address with
          | Ok find_elements =>
              evs = [EvDriver; EvDriverGet address; EvSleep 3]
              /\ match find_elements selenium_search_css with
                 | Ok links =>
                     hits = flat_map selenium_hit links
                     /\ forall link e,
                          el_href link = Raise e \/ el_text link = Raise e ->
                          selenium_hit link = []
                 | Raise _ => hits = []
                 end
          | Raise _ => hits = [] /\ evs = [EvDriver; EvDriverGet address]
          end
        else hits = [] /\ evs = [EvDriver])
    /\ Forall (fun h =>
                 hit_source h = "masstamilan" /\ hit_url h <> []
                 /\ strip (hit_title h) = hit_title h /\ 5 < length (hit_title h)) hits.
Proof.
  intros address. rewrite selenium_run. eexists _, _. split; [reflexivity|].
  unfold selenium_answer. change (search_url quote_plus base_masstamilan query) with address.
  destruct (chrome_available w (clock s)); [|by split; [|constructor]].
  destruct (driver_get w (S (clock s)) address) as [find|e]; [|by split; [|constructor]].
  cbn [fst snd].
  destruct (find selenium_search_css) as [links|e]; [|by split; [|constructor]].
  split.
  - split; [done|]. split; [done|].
    intros link e [H | H]; unfold selenium_hit; rewrite H; [done|].
    by destruct (el_href link).
  - apply Forall_forall. intros h (link & _ & Hh)%in_flat_map_elem.
    apply selenium_hit_shape in Hh as (Hsrc & _ & Hurl & (text & _ & Htitle) & Hlen).
    split; [done|]. split; [done|]. split; [|done]. rewrite Htitle. apply strip_idemp.
Qed.

(** ** Links through the browser *)

Lemma selenium_links_elem element link :
  link ∈ selenium_links element <->
  exists href onclick,
    el_href element = Ok href /\ el_onclick element = Ok onclick
    /\ ((href = Some link /\ link <> [] /\ endswith ".mp3" link = true)
        \/ (truthy href && endswith ".mp3" (default [] href) = false
            /\ exists script, onclick = Some script /\ link ∈ findall_mp3_urls script)).
Proof.
  unfold selenium_links. split.
  - destruct (el_href element) as [href|e]; [|by intros ?%elem_of_nil].
    destruct (el_onclick element) as [onclick|e]; [|by intros ?%elem_of_nil].
    destruct (truthy href && endswith ".mp3" (default [] href)) eqn:E.
    + intros ->%list_elem_of_singleton. exists href, onclick.
      split; [done|]. split; [done|]. left.
      apply andb_true_iff in E as [Hh He].
      destruct href as [[|a href]|]; try done.
    + destruct (truthy onclick) eqn:Eo; [|by intros ?%elem_of_nil].
      intros Hin. exists href, onclick. split; [done|]. split; [done|]. right.
      split; [done|]. destruct onclick as [script|]; [|done]. eauto.
  - intros (href & onclick & -> & -> & [(-> & Hne & He) | (E & script & -> & Hin)]).
    + destruct link as [|a link]; [done|].
      replace (truthy (Some (a :: link)) && endswith ".mp3" (default [] (Some (a :: link))))
        with true by (symmetry; exact He).
      by left.
    + rewrite E. destruct script as [|a script]; [by apply elem_of_nil in Hin | done].
Qed.

(** What the browser extraction returns when it is started at clock [t],
    and the steps it takes. *)
Lemma get_download_links_selenium_run w url s :
  get_download_links_selenium w url s
  = if chrome_available w (clock s) then
      match driver_get w (S (clock s)) url with
      | Ok find_elements =>
          (Ok match find_elements selenium_download_css with
              | Ok elements => fromkeys (flat_map selenium_links elements)
              | Raise _ => []
              end, advance s [EvDriver; EvDriverGet url; EvSleep 5])
      | Raise _ => (Ok [], advance s [EvDriver; EvDriverGet url])
      end
    else (Ok [], advance s [EvDriver]).
Proof.
  unfold get_download_links_selenium, try_except, bind, get_driver, driver_load, now,
    lift, sleep.
  simpl.
  destruct (chrome_available w (clock s)); simpl; [|same_run].
  destruct (driver_get w (S (clock s)) _) as [find|e]; simpl; [|same_run].
  destruct (find selenium_download_css); same_run.
Qed.

(** X4.  [get_download_links_selenium] never raises and makes no HTTP
    request: it sets the browser driver up, and only when that succeeds
    loads the song page, and only when that succeeds waits 5 seconds and
    asks for the download elements.  Without Chrome, and when the page load
    or the element query raises, it returns nothing.  What it returns has
    no duplicates, and every link of it ends in [.mp3]: it is the [href] of
    an element when that ends in [.mp3], or else an http(s) URL ending in
    [.mp3] found in the element's [onclick]; the links come in the order of
    their first occurrence: they are [dict.fromkeys] of the links of the
    elements, element after element. *)
Theorem selenium_links_contract w song_page_url s :
  exists links evs,
    get_download_links_selenium w song_page_url s = (Ok links, advance s evs)
    /\ (if chrome_available w (clock s) then
          match driver_get w (S (clock s)) song_page_url with
          | Ok find_elements =>
              evs = [EvDriver; EvDriverGet song_page_url; EvSleep 5]
              /\ match find_elements selenium_download_css with
                 | Ok elements =>
                     links = fromkeys (flat_map selenium_links elements)
                     /\ links `sublist_of` flat_map selenium_links elements
                     /\ forall link, link ∈ links <->
                          exists element href onclick,
                            element ∈ elements
                            /\ el_href element = Ok href
                            /\ el_onclick element = Ok onclick
                            /\ ((href = Some link /\ link <> []
                                 /\ endswith ".mp3" link = true)
                                \/ (truthy href && endswith ".mp3" (default [] href)
                                    = false
                                    /\ exists script,
                                         onclick = Some script
                                         /\ link ∈ findall_mp3_urls script))
                 | Raise _ => links = []
                 end
          | Raise _ => links = [] /\ evs = [EvDriver; EvDriverGet song_page_url]
          end
        else links = [] /\ evs = [EvDriver])
    /\ NoDup links
    /\ Forall (fun link => endswith ".mp3" link = true) links.
Proof.
  rewrite get_download_links_selenium_run.
  destruct (chrome_available w (clock s)).
  2:{ exists [], [EvDriver]. repeat split; try done; constructor. }
  destruct (driver_get w (S (clock s)) song_page_url) as [find|e].
  2:{ exists [], [EvDriver; EvDriverGet song_page_url].
      repeat split; try done; constructor. }
  eexists _, _. split; [reflexivity|].
  destruct (find selenium_download_css) as [elements|e].
  2:{ repeat split; try done; constructor. }
  split; [|split].
  - split; [done|]. split; [reflexivity|]. split; [apply fromkeys_sublist|].
    intros link. rewrite fromkeys_elem, in_flat_map_elem. split.
    + intros (element & Hel & Hin). apply selenium_links_elem in Hin
        as (href & onclick & H1 & H2 & Hcase).
      exists element, href, onclick. done.
    + intros (element & href & onclick & Hel & H1 & H2 & Hcase).
      exists element. split; [done|]. apply selenium_links_elem. eauto.
  - apply fromkeys_NoDup.
  - apply Forall_forall. intros link Hin.
    apply (proj1 (fromkeys_elem _ _)) in Hin.
    apply in_flat_map_elem in Hin as (element & _ & Hin).
    apply selenium_links_elem in Hin
      as (href & onclick & _ & _ & [(_ & _ & He) | (_ & script & _ & Hin)]); [done|].
    by destruct (findall_shape script link Hin).
Qed.
(** ** What a search costs *)

Lemma requests_of_app e1 e2 : requests_of (e1 ++ e2) = requests_of e1 ++ requests_of e2.
Proof. unfold requests_of. apply flat_map_app. Qed.

Lemma driver_setups_app e1 e2 : driver_setups (e1 ++ e2) = driver_setups e1 + driver_setups e2.
Proof. unfold driver_setups. by rewrite List.filter_app, length_app. Qed.

Lemma spaced_after_waited waited events :
  spaced_after false events = true -> spaced_after waited events = true.
Proof. destruct events as [|[] events]; simpl; try done. Qed.

Lemma spaced_after_app waited e1 e2 :
  spaced_after waited e1 = true -> spaced_after false e2 = true ->
  spaced_after waited (e1 ++ e2) = true.
Proof.
  revert waited. induction e1 as [|e e1 IH]; intros waited; simpl.
  - intros _. apply spaced_after_waited.
  - destruct e; try apply IH.
    intros [-> H1]%andb_true_iff H2. simpl. by apply IH.
Qed.

(** What [spaced_after] computes. *)
Lemma spaced_after_sound waited events pre url post :
  spaced_after waited events = true ->
  events = pre ++ EvGet url :: post ->
  (pre = [] /\ waited = true) \/ exists pre', pre = pre' ++ [EvJitter].
Proof.
  revert waited pre. induction events as [|e events IH]; intros waited pre Hsp Heq.
  - by destruct pre.
  - destruct pre as [|e' pre]; simpl in Heq; injection Heq as -> Heq.
    + left. simpl in Hsp. apply andb_true_iff in Hsp as [-> _]. done.
    + right.
      assert (exists waited', spaced_after waited' events = true
                              /\ (waited' = true -> e' = EvJitter)) as (w' & Hsp' & Hw').
      { destruct e'; simpl in Hsp; try (exists false; split; [done | discriminate]).
        - apply andb_true_iff in Hsp as [_ Hsp]. exists false. split; [done | discriminate].
        - exists true. done. }
      destruct (IH w' pre Hsp' Heq) as [[-> Hw] | [pre' ->]].
      * exists []. by rewrite (Hw' Hw).
      * exists (e' :: pre'). done.
Qed.

Lemma startswith_app (p s : str) : startswith p (p ++ s) = true.
Proof. apply startswith_prefix. by exists s. Qed.

Section Budget.

Variable urljoin : str -> str -> str.
Variable quote_plus : str -> str.
Variable set_order : list str -> list str.
Variable w : World.

(** The sites a search may turn to. *)
Local Abbreviation known_site url :=
  (startswith (base_masstamilan ++ "/?s=") url = true
   \/ startswith (base_backup_masstamilan ++ "/?s=") url = true).

Lemma run_stage_cost query stage s :
  exists hits evs,
    run_stage urljoin quote_plus w query stage s = (Ok hits, advance s evs)
    /\ length (requests_of evs) = (if direct_stage stage then 1 else 0)
    /\ driver_setups evs = (if direct_stage stage then 0 else 1)
    /\ spaced_after false evs = true
    /\ (forall url, url ∈ requests_of evs -> known_site url).
Proof.
  assert (forall q base url,
            url ∈ requests_of [EvJitter; EvGet (search_url quote_plus base q)] ->
            startswith (base ++ "/?s=") url = true) as Hsite.
  { intros q base url ->%list_elem_of_singleton. unfold search_url.
    rewrite (app_assoc base). apply startswith_app. }
  destruct stage; cbn [run_stage direct_stage].
  - rewrite direct_run by done. eexists _, _. split; [done|]. repeat split.
    intros url Hurl. left. by eapply Hsite.
  - rewrite direct_run by done. eexists _, _. split; [done|]. repeat split.
    intros url Hurl. right. by eapply Hsite.
  - rewrite selenium_run. eexists _, _. split; [done|].
    unfold selenium_answer. destruct (chrome_available _ _); simpl.
    + destruct (driver_get _ _ _); simpl; repeat split; by intros ? ?%elem_of_nil.
    + repeat split; by intros ? ?%elem_of_nil.
  - rewrite direct_run by done. eexists _, _. split; [done|]. repeat split.
    intros url Hurl. left. by eapply Hsite.
Qed.

Lemma spec_first_nonempty_cost query stages s :
  exists raw evs,
    spec_first_nonempty urljoin quote_plus w query stages s = (Ok raw, advance s evs)
    /\ length (requests_of evs) <= length (List.filter direct_stage stages)
    /\ driver_setups evs
       <= length (List.filter (fun stage => negb (direct_stage stage)) stages)
    /\ spaced_after false evs = true
    /\ (forall url, url ∈ requests_of evs -> known_site url).
Proof.
  revert s. induction stages as [|stage rest IH]; intros s; simpl.
  - exists [], []. rewrite advance_nil. repeat split; try done.
    by intros ? ?%elem_of_nil.
  - destruct (run_stage_cost query stage s) as (hits & evs & Hrun & Hreq & Hdrv & Hsp & Hsite).
    unfold bind. rewrite Hrun.
    destruct hits as [|h hits]; simpl.
    + destruct (IH (advance s evs)) as (raw & evs' & -> & Hreq' & Hdrv' & Hsp' & Hsite').
      exists raw, (evs ++ evs'). rewrite advance_app. split; [done|].
      rewrite requests_of_app, length_app, driver_setups_app, Hreq, Hdrv.
      split; [destruct (direct_stage stage); simpl; lia|].
      split; [destruct (direct_stage stage); simpl; lia|].
      split; [by apply spaced_after_app|].
      intros url [H | H]%elem_of_app; [by apply Hsite | by apply Hsite'].
    + exists (h :: hits), evs. split; [done|]. rewrite Hreq, Hdrv.
      split; [destruct (direct_stage stage); simpl; lia|].
      split; [destruct (direct_stage stage); simpl; lia|]. done.
Qed.

Lemma variation_stages_counts (variations : list str) :
  length (List.filter direct_stage (PrimaryVariation <$> variations)) = length variations
  /\ length (List.filter (fun stage => negb (direct_stage stage))
               (PrimaryVariation <$> variations)) = 0.
Proof.
  induction variations as [|v l [IH1 IH2]]; [done|]. rewrite fmap_cons.
  cbn [List.filter direct_stage negb length]. by rewrite IH1, IH2.
Qed.

End Budget.

(** X5.  One call of [search_masstamilan] sends at most 7 page requests
    (the primary site, the backup site, and at most 5 variations) and sets
    the browser driver up at most once; every request goes to the search
    page of the primary or of the backup site, and comes straight after a
    randomised pause; the first of them is the search for the cleaned query
    on the primary site. *)
Theorem search_request_budget urljoin quote_plus set_order w query s :
  exists hits evs,
    search_masstamilan urljoin quote_plus set_order w query s = (Ok hits, advance s evs)
    /\ length (requests_of evs) <= 7
    /\ driver_setups evs <= 1
    /\ (forall url, url ∈ requests_of evs ->
          startswith (base_masstamilan ++ "/?s=") url = true
          \/ startswith (base_backup_masstamilan ++ "/?s=") url = true)
    /\ (forall pre url post,
          evs = pre ++ EvGet url :: post -> exists pre', pre = pre' ++ [EvJitter])
    /\ exists rest,
         evs = [EvJitter;
                EvGet (base_masstamilan ++ "/?s=" ++ quote_plus (clean_search_query query))]
               ++ rest.
Proof.
  rewrite search_masstamilan_spec. unfold spec_search, spec_stages, bind.
  set (q := clean_search_query query).
  set (later := [BackupDirect; DynamicRendering]
                ++ (PrimaryVariation <$> _generate_query_variations set_order q)).
  change ([PrimaryDirect; BackupDirect; DynamicRendering]
          ++ (PrimaryVariation <$> _generate_query_variations set_order q))
    with (PrimaryDirect :: later).
  cbn [spec_first_nonempty run_stage]. unfold bind. rewrite direct_run by done.
  set (first := [EvJitter; EvGet (search_url quote_plus base_masstamilan q)]).
  assert (forall url, url ∈ requests_of first ->
            startswith (base_masstamilan ++ "/?s=") url = true) as Hfirst.
  { intros url ->%list_elem_of_singleton. unfold search_url.
    rewrite (app_assoc base_masstamilan). apply startswith_app. }
  destruct (direct_answer _ _ _ _ _ _) as [|h hits]; cbn [nonempty].
  - destruct (spec_first_nonempty_cost urljoin quote_plus w q later (advance s first))
      as (raw & evs & -> & Hreq & Hdrv & Hsp & Hsite).
    assert (length (List.filter direct_stage later) <= 6
            /\ length (List.filter (fun stage => negb (direct_stage stage)) later) <= 1)
      as [Hsix Hone].
    { subst later. rewrite !List.filter_app, !length_app.
      destruct (variation_stages_counts (_generate_query_variations set_order q))
        as [-> ->].
      pose proof (variations_at_most_5 set_order q). simpl. lia. }
    eexists _, (first ++ evs). rewrite advance_app. split; [reflexivity|].
    rewrite requests_of_app, length_app, driver_setups_app.
    change (length (requests_of first)) with 1. change (driver_setups first) with 0.
    split; [lia|]. split; [lia|]. split; [|split].
    + intros url [H | H]%elem_of_app; [left; by apply Hfirst | by apply Hsite].
    + intros pre url post Heq.
      assert (spaced_after false (first ++ evs) = true) as Hall
        by (by apply spaced_after_app).
      destruct (spaced_after_sound _ _ _ _ _ Hall Heq) as [[_ ?] | ?]; done.
    + by exists evs.
  - eexists _, first. split; [reflexivity|].
    change (length (requests_of first)) with 1. change (driver_setups first) with 0.
    split; [lia|]. split; [lia|]. split; [|split].
    + intros url H. left. by apply Hfirst.
    + intros pre url post Heq.
      destruct (spaced_after_sound false first _ _ _ eq_refl Heq) as [[_ ?] | ?]; done.
    + by exists [].
Qed.

(** One search, for a caller: what it returns and what it costs. *)
Lemma search_masstamilan_cost urljoin quote_plus set_order w query s :
  exists hits evs,
    search_masstamilan urljoin quote_plus set_order w query s = (Ok hits, advance s evs)
    /\ length hits <= 20
    /\ NoDup (hit_url <$> hits)
    /\ length (requests_of evs) <= 7
    /\ driver_setups evs <= 1.
Proof.
  rewrite search_masstamilan_spec. unfold spec_search, bind.
  destruct (spec_first_nonempty_cost urljoin quote_plus w (clean_search_query query)
              (spec_stages set_order (clean_search_query query)) s)
    as (raw & evs & -> & Hreq & Hdrv & _).
  eexists _, evs. split; [reflexivity|].
  split; [rewrite length_take; lia|].
  split.
  { rewrite filter_is_kept, fmap_take.
    eapply sublist_NoDup; [apply kept_NoDup_urls | apply sublist_take]. }
  unfold spec_stages in Hreq, Hdrv.
  rewrite !List.filter_app, !length_app in Hreq, Hdrv.
  destruct (variation_stages_counts
              (_generate_query_variations set_order (clean_search_query query)))
    as [Hdirect Hother].
  rewrite Hdirect in Hreq. rewrite Hother in Hdrv.
  pose proof (variations_at_most_5 set_order (clean_search_query query)).
  simpl in Hreq, Hdrv. lia.
Qed.
(** ** What a transfer leaves on disk *)

Lemma with_files_files s : with_files s (files s) = s.
Proof. by destruct s. Qed.

(** The loop over the chunks, as a whole: it stops, and removes the file,
    exactly when the chunks together exceed the limit; otherwise it has
    appended them all. *)
Lemma write_loop_run path stream size s content :
  files s !! path = Some content ->
  (size <= max_file_size)%Z ->
  write_loop path stream size s
  = if (max_file_size <? size + Z.of_nat (length (concat stream)))%Z
    then (Ok (Some false), with_files s (delete path (files s)))
    else (Ok None, with_files s (<[path := content ++ concat stream]> (files s))).
Proof.
  revert size s content. induction stream as [|chunk rest IH]; intros size s content Hc Hsize.
  - cbn [write_loop concat length]. rewrite app_nil_r, Z.add_0_r.
    rewrite (proj2 (Z.ltb_ge _ _)) by done.
    by rewrite insert_id, with_files_files.
  - cbn [write_loop concat]. rewrite length_app, Nat2Z.inj_add.
    destruct chunk as [|b chunk]; cbn [nonempty].
    { cbn [length app]. rewrite Z.add_0_l. by apply IH. }
    set (piece := b :: chunk).
    unfold bind at 1. unfold fs_write at 1.
    set (s1 := {| clock := clock s;
                  files := <[path := default [] (files s !! path) ++ piece]> (files s);
                  trace := trace s |}).
    assert (files s1 !! path = Some (content ++ piece)) as Hc1
      by (subst s1; simpl; by rewrite lookup_insert_eq, Hc).
    destruct (max_file_size <? size + Z.of_nat (length piece))%Z eqn:Hover.
    + apply Z.ltb_lt in Hover.
      rewrite (proj2 (Z.ltb_lt _ _)) by lia.
      unfold bind, fs_remove. rewrite Hc1. unfold ret, with_files. subst s1. simpl.
      by rewrite delete_insert_eq.
    + apply Z.ltb_ge in Hover.
      rewrite (IH _ s1 _ Hc1 Hover), Z.add_assoc.
      unfold with_files. subst s1. simpl.
      by rewrite delete_insert_eq, insert_insert_eq, <- app_assoc.
Qed.

(** The transfer, as a whole. *)
Lemma store_stream_run w file_path response s :
  store_stream w file_path response s
  = match open_wb w (clock s) file_path with
    | Some e => (Raise e, s)
    | None =>
        let body := concat (chunks response) in
        if (max_file_size <? Z.of_nat (length body))%Z
        then (Ok false, with_files s (delete file_path (files s)))
        else
          match stream_error response with
          | Some e => (Raise e, with_files s (<[file_path := body]> (files s)))
          | None =>
              if (1024 <? Z.of_nat (length body))%Z
              then (Ok true, with_files s (<[file_path := body]> (files s)))
              else (Ok false, with_files s (delete file_path (files s)))
          end
    end.
Proof.
  unfold store_stream. unfold bind at 1. unfold fs_open_wb at 1.
  destruct (open_wb w (clock s) file_path) as [e|]; [done|].
  set (s1 := {| clock := clock s; files := <[file_path := []]> (files s);
                trace := trace s |}).
  unfold bind at 1.
  rewrite (write_loop_run file_path (chunks response) 0 s1 [])
    by (subst s1; simpl; first [by rewrite lookup_insert_eq | by vm_compute]).
  rewrite Z.add_0_l. cbv zeta.
  set (body := concat (chunks response)).
  assert (with_files s1 (delete file_path (files s1))
          = with_files s (delete file_path (files s))) as ->
    by (subst s1; unfold with_files; simpl; by rewrite delete_insert_eq).
  assert (with_files s1 (<[file_path := [] ++ body]> (files s1))
          = with_files s (<[file_path := body]> (files s))) as ->
    by (subst s1; unfold with_files; simpl; by rewrite insert_insert_eq).
  destruct (max_file_size <? Z.of_nat (length body))%Z; [done|].
  destruct (stream_error response) as [e|]; [done|].
  unfold bind, fs_exists, fs_getsize, fs_remove, ret. simpl.
  rewrite lookup_insert_eq.
  rewrite bool_decide_eq_true_2 by eauto. simpl.
  rewrite lookup_insert_eq.
  destruct (1024 <? Z.of_nat (length body))%Z; [done|].
  simpl. rewrite lookup_insert_eq.
  rewrite bool_decide_eq_true_2 by eauto.
  unfold with_files. simpl. by rewrite lookup_insert_eq, delete_insert_eq.
Qed.

Lemma frames_status_checked response :
  frames (raise_for_status response) (fun _ => bad_status response = false).
Proof.
  unfold raise_for_status, bad_status.
  destruct (_ && _); [apply frames_raise | by apply frames_ret].
Qed.

(** After steps that leave the files alone, the files are what the rest
    makes of them. *)
Lemma effect_bind {A B} (m : M A) (k : A -> M B) (P : A -> Prop)
    (Q : gmap str (list Byte.byte) -> Outcome B -> State -> Prop) :
  frames m P ->
  (forall before e s', files s' = before -> Q before (Raise e) s') ->
  (forall a s1 r s', P a -> k a s1 = (r, s') -> Q (files s1) r s') ->
  forall s r s', bind m k s = (r, s') -> Q (files s) r s'.
Proof.
  intros Hm Hraise Hk s r s'. unfold bind. destruct (m s) as [[a|e] s1] eqn:Hrun.
  - destruct (Hm _ _ _ Hrun) as [Hfiles HP]. intros Hk'.
    rewrite <- Hfiles. by eapply Hk.
  - destruct (Hm _ _ _ Hrun) as [Hfiles _]. intros [= <- <-]. by apply Hraise.
Qed.

Section Transfer.

Variable url_path : str -> str.
Variable w : World.
Variable url download_folder filename : str.

Local Abbreviation effect := (download_effect url_path w url download_folder filename).

Lemma effect_nothing before (r : Outcome bool) s' :
  files s' = before -> r <> Ok true -> effect before r s'.
Proof. intros. by left. Qed.

Lemma store_stream_effect t response s r s' :
  session_get w t url = Ok response -> bad_status response = false ->
  store_stream w (destination_path url_path url download_folder filename response)
    response s = (r, s') ->
  effect (files s) r s'.
Proof.
  intros Hget Hstatus. rewrite store_stream_run.
  destruct (open_wb w (clock s) _) as [e|].
  { intros [= <- <-]. by apply effect_nothing. }
  cbv zeta.
  destruct (max_file_size <? _)%Z eqn:Hover.
  { intros [= <- <-]. right. exists t, response. done. }
  apply Z.ltb_ge in Hover.
  destruct (stream_error response) as [e|] eqn:Herr.
  { intros [= <- <-]. right. exists t, response. done. }
  destruct (1024 <? _)%Z eqn:Hsize.
  - apply Z.ltb_lt in Hsize. intros [= <- <-]. right. exists t, response. done.
  - intros [= <- <-]. right. exists t, response. done.
Qed.

(** The body of [_download_file], inside its [try]. *)
Lemma download_file_effect_run s :
  exists result s',
    _download_file url_path w url download_folder filename s = (Ok result, s')
    /\ (result = true -> startswith "http" url = true)
    /\ match result with
       | true => effect (files s) (Ok true) s'
       | false => effect (files s) (Ok false) s' \/ exists e, effect (files s) (Raise e) s'
       end.
Proof.
  unfold _download_file, try_except.
  match goal with
  | |- context [match ?body s with _ => _ end] =>
      assert (forall s0 r0 s0', body s0 = (r0, s0') ->
                effect (files s0) r0 s0'
                /\ (r0 = Ok true -> startswith "http" url = true)) as Hbody;
      [|destruct (body s) as [[[]|] s1] eqn:Hrun]
  end.
  { intros s0 r0 s0'.
    destruct (negb (nonempty url) || negb (startswith "http" url)) eqn:Hguard.
    { intros [= <- <-]. split; [by apply effect_nothing | done]. }
    apply orb_false_iff in Hguard as [_ Hhttp%negb_false_iff].
    intros Hrun. split; [|done]. revert Hrun.
    apply (effect_bind _ _ (fun _ => True)).
    { destruct (negb (looks_like_audio url)); [|by apply frames_ret].
      apply frames_try; [|intros; by apply frames_ret].
      eapply frames_bind; [apply frames_http_head|].
      intros; by apply frames_ret. }
    { intros. by apply effect_nothing. }
    intros proceed s1 r1 s1' _. destruct (negb proceed).
    { intros [= <- <-]. by apply effect_nothing. }
    apply (effect_bind _ _ _ _ (frames_http_get w url)).
    { intros. by apply effect_nothing. }
    intros response s2 r2 s2' [t Hget].
    apply (effect_bind _ _ _ _ (frames_status_checked response)).
    { intros. by apply effect_nothing. }
    intros _ s3 r3 s3' Hstatus.
    apply (effect_bind _ _ (fun _ => True)).
    { destruct (truthy (content_length response)); [|by apply frames_ret].
      destruct (int _); [by apply frames_ret | apply frames_raise]. }
    { intros. by apply effect_nothing. }
    intros too_large s4 r4 s4' _. destruct too_large.
    { intros [= <- <-]. by apply effect_nothing. }
    by apply store_stream_effect with (t := t). }
  - exists true, s1. split; [done|]. destruct (Hbody _ _ _ Hrun) as [Heff Hhttp].
    split; [intros _; by apply Hhttp | done].
  - exists false, s1. split; [done|]. destruct (Hbody _ _ _ Hrun) as [Heff _].
    split; [done | by left].
  - exists false, s1. split; [done|]. destruct (Hbody _ _ _ Hrun) as [Heff _].
    split; [done | right; by exists e].
Qed.

End Transfer.

(** ** What a successful download has done *)

Section Success.

Variable urljoin : str -> str -> str.
Variable url_path : str -> str.
Variable w : World.
Variable download_folder : str.

(** A link, checked and then fetched with success, the state the
    success leaves being [s']. *)
Local Abbreviation fetched filename s' :=
  (exists link s0 s1,
      validate_download_link w link s0 = (Ok true, s1)
      /\ _download_file url_path w link download_folder filename s1 = (Ok true, s')).

Lemma links_loop_success links filename s s' :
  links_loop url_path w links download_folder filename s = (Ok true, s') ->
  fetched filename s'.
Proof.
  revert s. induction links as [|link rest IH]; intros s; simpl; [done|].
  unfold bind at 1. unfold try_except at 1. unfold bind at 1.
  destruct (validate_download_link w link s) as [[[]|e] s1] eqn:Hvalid; simpl.
  - destruct (_download_file url_path w link download_folder filename s1)
      as [[[]|e] s2] eqn:Hdown; simpl.
    + intros [= <-]. eauto.
    + apply IH.
    + apply IH.
  - apply IH.
  - apply IH.
Qed.

Lemma attempt_links_success song_url song_title preferred_name attempt s s' :
  attempt_links urljoin url_path w song_url song_title download_folder
    preferred_name attempt s = (Ok (Some true), s') ->
  fetched (if truthy preferred_name then default [] preferred_name else song_title) s'.
Proof.
  unfold attempt_links. unfold bind at 1.
  destruct (get_download_links urljoin w song_url s) as [[links1|e1] s1]; [|done].
  unfold bind at 1.
  match goal with
  | |- context [match ?m s1 with _ => _ end] => destruct (m s1) as [[links|e] s2]
  end; [|done].
  destruct (negb (nonempty links)).
  { destruct (attempt <? max_retries - 1); unfold bind, sleep, emit, ret; simpl; done. }
  unfold bind at 1.
  destruct (links_loop url_path w links download_folder _ s2) as [[[]|e] s3] eqn:Hloop;
    [|destruct (attempt <? max_retries - 1); unfold bind, sleep, emit, ret; simpl; done
     |done].
  intros [= <-]. by eapply links_loop_success.
Qed.

Lemma attempt_body_success song_info preferred_name attempt s s' :
  attempt_body urljoin url_path w song_info download_folder preferred_name attempt s
  = (Ok (Some true), s') ->
  (exists page, song_page song_info = Some page /\ page <> [])
  /\ fetched (transfer_name song_info preferred_name) s'.
Proof.
  unfold attempt_body, try_except.
  match goal with
  | |- context [match ?body s with _ => _ end] =>
      destruct (body s) as [[r|e] s1] eqn:Hrun
  end.
  2:{ destruct (attempt <? max_retries - 1); unfold bind, sleep, emit, ret; simpl; done. }
  intros [= -> <-]. revert Hrun. unfold transfer_name, title_of.
  destruct song_info as [url title name | text]; simpl.
  - destruct url as [[|c url]|]; simpl; try done.
    unfold bind at 1. unfold emit at 1. intros Hrun.
    split; [by eexists|]. by eapply attempt_links_success.
  - destruct text as [|c text]; simpl; try done.
    unfold bind at 1. unfold emit at 1. intros Hrun.
    split; [by eexists|]. by eapply attempt_links_success.
Qed.

Lemma attempts_loop_success song_info preferred_name attempts s s' :
  attempts_loop urljoin url_path w song_info download_folder preferred_name attempts s
  = (Ok true, s') ->
  (exists page, song_page song_info = Some page /\ page <> [])
  /\ fetched (transfer_name song_info preferred_name) s'.
Proof.
  revert s. induction attempts as [|attempt rest IH]; intros s; simpl; [done|].
  unfold bind at 1.
  destruct (attempt_body urljoin url_path w song_info download_folder preferred_name
              attempt s) as [[[[]|]|e] s1] eqn:Hbody; try done.
  - intros [= <-]. by eapply attempt_body_success.
  - apply IH.
Qed.

End Success.

(** X7.  When [download_song] reports success, the song has a page URL,
    and some link, which starts with [http], has been fetched: the server
    answered the request for it with a stream that did not break, and when
    [download_song] returns the bytes of that stream, more than 1024 of
    them and at most 100 MiB, are on disk, under the name made of the
    preferred name (the song's title when none is given) and the response,
    in the download folder. *)
Theorem download_song_success urljoin url_path w song_info download_folder
    preferred_name s s' :
  download_song urljoin url_path w song_info download_folder preferred_name s
  = (Ok true, s') ->
  exists page link t response,
    song_page song_info = Some page /\ page <> []
    /\ startswith "http" link = true
    /\ session_get w t link = Ok response
    /\ bad_status response = false /\ stream_error response = None
    /\ files s' !! destination_path url_path link download_folder
                     (transfer_name song_info preferred_name) response
       = Some (concat (chunks response))
    /\ (1024 < Z.of_nat (length (concat (chunks response))) <= max_file_size)%Z.
Proof.
  unfold download_song. intros Hrun.
  apply attempts_loop_success in Hrun as [(page & Hpage & Hne) (link & s0 & s1 & _ & Hdown)].
  destruct (download_file_effect_run url_path w link download_folder
              (transfer_name song_info preferred_name) s1)
    as (result & s2 & Hrun & Hhttp & Heff).
  rewrite Hdown in Hrun. injection Hrun as <- <-.
  destruct Heff as [[_ ?] | (t & response & Hget & Hstatus & Herr & Hfiles & Hsize)];
    [done|].
  exists page, link, t, response. repeat (split; [done || by apply Hhttp|]).
  split; [|done]. rewrite Hfiles. apply lookup_insert_eq.
Qed.

(** X7, witness: a song whose page links to an audio file of 2048 bytes,
    which the server delivers. *)
Lemma download_song_success_witness :
  exists page link t response,
    song_page (SongDict (Some ("https://masstamilan.dev/songs/x" : str))
                 (Some ("Song" : str)) None) = Some page
    /\ page <> []
    /\ startswith "http" link = true
    /\ session_get audio_world t link = Ok response
    /\ bad_status response = false /\ stream_error response = None
    /\ files (download_song urljoin_sample url_path_sample audio_world
                (SongDict (Some ("https://masstamilan.dev/songs/x" : str))
                   (Some ("Song" : str)) None)
                "downloads" None initial_state).2
         !! destination_path url_path_sample link "downloads"
              (transfer_name (SongDict (Some ("https://masstamilan.dev/songs/x" : str))
                                (Some ("Song" : str)) None) None) response
       = Some (concat (chunks response))
    /\ (1024 < Z.of_nat (length (concat (chunks response))) <= max_file_size)%Z.
Proof.
  apply (download_song_success urljoin_sample url_path_sample audio_world
           (SongDict (Some ("https://masstamilan.dev/songs/x" : str))
              (Some ("Song" : str)) None)
           "downloads" None initial_state).
  vm_compute. reflexivity.
Defined.
(** ** Where a transfer is stored *)

Lemma sanitize_filename_safe filename c :
  c ∈ sanitize_filename filename -> c ∉ invalid_chars.
Proof.
  rewrite sanitize_filename_unfold. intros Hc.
  apply elem_of_take in Hc as (i & Hc%list_elem_of_lookup_2 & _).
  apply join_chars in Hc as [Hc | (word & Hw & Hc)].
  - apply list_elem_of_singleton in Hc as ->. vm_compute.
    intros H; repeat (apply elem_of_cons in H as [H|H]; [discriminate H|]);
      by apply elem_of_nil in H.
  - destruct (split_chars _ _ _ Hw Hc) as [Hin _].
    apply list_elem_of_In, in_map_iff in Hin as (a & <- & _).
    apply underscore_unsafe_safe.
Qed.

Lemma choose_ext_supported url_path content_type url :
  choose_ext url_path content_type url ∈ supported_formats.
Proof.
  unfold choose_ext. destruct (_ || _); [set_solver|]. destruct (_ || _); [set_solver|].
  destruct (bool_decide _) eqn:E; [by apply bool_decide_eq_true in E | set_solver].
Qed.

Lemma supported_format_shape ext :
  ext ∈ supported_formats ->
  lower ext = ext /\ 4 <= length ext <= 5 /\ forall c, c ∈ ext -> c ∉ invalid_chars.
Proof.
  unfold supported_formats. rewrite !elem_of_cons.
  intros [-> | [-> | [-> | [-> | [-> | []%elem_of_nil]]]]];
    (split; [reflexivity|]; split; [simpl; lia|]);
    intros c Hc; repeat (apply elem_of_cons in Hc as [-> | Hc];
      [vm_compute; intros H;
       repeat (apply elem_of_cons in H as [H|H]; [discriminate H|]);
       by apply elem_of_nil in H|]);
    by apply elem_of_nil in Hc.
Qed.

Lemma lower_app s t : lower (s ++ t) = lower s ++ lower t.
Proof. apply map_app. Qed.

Lemma ends_in_format_length name :
  existsb (fun fmt => endswith fmt (lower name)) supported_formats = true ->
  4 <= length name.
Proof.
  intros (fmt & Hfmt%list_elem_of_In & Hend)%existsb_exists.
  apply endswith_suffix in Hend as [pre Hpre].
  apply (f_equal length) in Hpre. rewrite lower_length, length_app in Hpre.
  destruct (supported_format_shape fmt Hfmt) as (_ & Hlen & _). lia.
Qed.

(** The name a transfer is stored under: no unsafe character in it, a
    supported extension at its end. *)
Lemma destination_name_shape filename ext :
  ext ∈ supported_formats ->
  let name := destination_name filename ext in
  (forall c, c ∈ name -> c ∉ invalid_chars)
  /\ existsb (fun fmt => endswith fmt (lower name)) supported_formats = true
  /\ 4 <= length name <= 105.
Proof.
  intros Hext name. subst name. unfold destination_name.
  destruct (supported_format_shape ext Hext) as (Hlow & Hlen & Hsafe).
  assert (length (sanitize_filename filename) <= 100) as Hcut
    by (unfold sanitize_filename; rewrite length_take; lia).
  destruct (existsb _ supported_formats) eqn:E.
  - split; [apply sanitize_filename_safe|]. split; [done|].
    split; [by apply ends_in_format_length | lia].
  - split; [|split].
    + intros c [Hc | Hc]%elem_of_app; [by eapply sanitize_filename_safe | by apply Hsafe].
    + apply existsb_exists. exists ext. split; [by apply list_elem_of_In|].
      rewrite lower_app, Hlow. apply endswith_suffix. by eexists.
    + rewrite length_app. lia.
Qed.

(** X8.  Whatever name is asked for, whatever the address and the
    response, the file of a transfer is placed directly in the download
    folder: its path is the folder, a slash unless the folder is empty or
    ends in one, and a name that holds no slash, no backslash and no other
    unsafe character, that ends in a supported extension, in any case of
    letters, and that has at least 4 and at most 105 characters. *)
Theorem destination_in_folder url_path url download_folder filename response :
  exists name,
    destination_path url_path url download_folder filename response
    = (if bool_decide (download_folder = []) || endswith "/" download_folder
       then download_folder ++ name
       else download_folder ++ "/" ++ name)
    /\ (forall c, c ∈ name -> c ∉ invalid_chars)
    /\ (("/"%char ∉ name) /\ ("\"%char ∉ name))
    /\ existsb (fun fmt => endswith fmt (lower name)) supported_formats = true
    /\ 4 <= length name <= 105.
Proof.
  unfold destination_path.
  set (ext := choose_ext url_path (default [] (content_type response)) url).
  pose proof (choose_ext_supported url_path (default [] (content_type response)) url)
    as Hext. fold ext in Hext.
  destruct (destination_name_shape filename ext Hext) as (Hsafe & Hend & Hlen).
  exists (destination_name filename ext).
  assert (("/"%char ∉ destination_name filename ext)
          /\ ("\"%char ∉ destination_name filename ext)) as [Hslash Hback].
  { split; intros Hin; apply (Hsafe _ Hin); apply list_elem_of_In; vm_compute;
      repeat (first [left; reflexivity | right]). }
  split; [|done].
  unfold path_join.
  destruct (destination_name filename ext) as [|c name] eqn:Hname; [simpl in Hlen; lia|].
  assert (c <> "/"%char) as Hc by (intros ->; apply Hslash; by left).
  change (startswith "/" (c :: name)) with (bool_decide ("/"%char = c) && true).
  rewrite (bool_decide_eq_false_2 _ (not_eq_sym Hc)). done.
Qed.
(** ** Footprints, by the kind of step *)

Lemma forallb_app_true {A} (p : A -> bool) l1 l2 :
  forallb p l1 = true -> forallb p l2 = true -> forallb p (l1 ++ l2) = true.
Proof. intros H1 H2. by rewrite forallb_app, H1, H2. Qed.

Section Emits.

Variable allowed : Event -> bool.

Lemma emits_ret {A} (a : A) : emits allowed (ret a).
Proof. intros s. exists (Ok a), [], (files s). by rewrite with_files_same. Qed.

Lemma emits_raise {A} e : emits allowed (@raise A e).
Proof. intros s. exists (Raise e), [], (files s). by rewrite with_files_same. Qed.

Lemma emits_lift {A} (o : Outcome A) : emits allowed (lift o).
Proof. intros s. exists o, [], (files s). by rewrite with_files_same. Qed.

Lemma emits_bind {A B} (m : M A) (k : A -> M B) :
  emits allowed m -> (forall a, emits allowed (k a)) -> emits allowed (bind m k).
Proof.
  intros Hm Hk s. destruct (Hm s) as (r & e1 & f1 & Hrun & Hq). unfold bind.
  rewrite Hrun. destruct r as [a|e].
  - destruct (Hk a (with_files (advance s e1) f1)) as (r & e2 & f2 & Hrun2 & Hq2).
    exists r, (e1 ++ e2), f2. rewrite Hrun2, with_files_advance.
    split; [done | by apply forallb_app_true].
  - exists (Raise e), e1, f1. done.
Qed.

Lemma emits_try {A} (m : M A) (h : Exn -> M A) :
  emits allowed m -> (forall e, emits allowed (h e)) -> emits allowed (try_except m h).
Proof.
  intros Hm Hh s. destruct (Hm s) as (r & e1 & f1 & Hrun & Hq). unfold try_except.
  rewrite Hrun. destruct r as [a|e].
  - exists (Ok a), e1, f1. done.
  - destruct (Hh e (with_files (advance s e1) f1)) as (r & e2 & f2 & Hrun2 & Hq2).
    exists r, (e1 ++ e2), f2. rewrite Hrun2, with_files_advance.
    split; [done | by apply forallb_app_true].
Qed.

Lemma emits_emit e : allowed e = true -> emits allowed (emit e).
Proof. intros He s. exists (Ok tt), [e], (files s). simpl. by rewrite He. Qed.

Lemma emits_now : emits allowed now.
Proof. intros s. exists (Ok (clock s)), [], (files s). by rewrite with_files_same. Qed.

(** A computation that adds no step of its own. *)
Lemma emits_silent {A} (m : M A) :
  (forall s, exists r fs, m s = (r, with_files s fs)) -> emits allowed m.
Proof.
  intros Hm s. destruct (Hm s) as (r & fs & ->). exists r, [], fs.
  by rewrite advance_nil.
Qed.

Lemma emits_fs_open_wb w path : emits allowed (fs_open_wb w path).
Proof.
  apply emits_silent. intros s. unfold fs_open_wb.
  destruct (open_wb w (clock s) path) as [e|]; [|by eexists _, _].
  eexists _, (files s). by rewrite with_files_files.
Qed.

Lemma emits_fs_write path chunk : emits allowed (fs_write path chunk).
Proof. apply emits_silent. intros s. by eexists _, _. Qed.

Lemma emits_fs_remove path : emits allowed (fs_remove path).
Proof.
  apply emits_silent. intros s. unfold fs_remove.
  destruct (files s !! path); [by eexists _, _|].
  eexists _, (files s). by rewrite with_files_files.
Qed.

Lemma emits_fs_exists path : emits allowed (fs_exists path).
Proof.
  apply emits_silent. intros s. eexists _, (files s). by rewrite with_files_files.
Qed.

Lemma emits_fs_getsize path : emits allowed (fs_getsize path).
Proof.
  apply emits_silent. intros s. unfold fs_getsize.
  destruct (files s !! path); eexists _, (files s); by rewrite with_files_files.
Qed.

Lemma emits_fs_makedirs w path : emits allowed (fs_makedirs w path).
Proof.
  apply emits_silent. intros s. unfold fs_makedirs.
  destruct (makedirs w (clock s) path); eexists _, (files s);
    by rewrite with_files_files.
Qed.

End Emits.

(** Breaks a computation down to its steps; what is left is that each
    step is of the kind allowed. *)
Ltac emitting :=
  repeat first
    [ progress intros
    | solve [eauto 2]
    | apply emits_ret | apply emits_raise | apply emits_lift | apply emits_now
    | apply emits_emit; solve [reflexivity | eauto 2]
    | apply emits_fs_open_wb | apply emits_fs_write | apply emits_fs_remove
    | apply emits_fs_exists | apply emits_fs_getsize | apply emits_fs_makedirs
    | apply emits_bind | apply emits_try
    | match goal with
      | |- emits _ (if ?b then _ else _) => destruct b
      | |- emits _ (match ?x with _ => _ end) => destruct x
      end ].

Section EmitsLinks.

Variable allowed : Event -> bool.
Hypothesis allowed_get : forall url, allowed (EvGet url) = true.
Hypothesis allowed_head : forall url, allowed (EvHead url) = true.
Hypothesis allowed_driver : allowed EvDriver = true.
Hypothesis allowed_driver_get : forall url, allowed (EvDriverGet url) = true.
Hypothesis allowed_wait : allowed (EvSleep 5) = true.

Lemma emits_http_get w url : emits allowed (http_get w url).
Proof. unfold http_get. emitting. Qed.

Lemma emits_http_head w url : emits allowed (http_head w url).
Proof. unfold http_head. emitting. Qed.

Lemma emits_raise_for_status r : emits allowed (raise_for_status r).
Proof. unfold raise_for_status. emitting. Qed.

Lemma emits_get_download_links urljoin w url :
  emits allowed (get_download_links urljoin w url).
Proof.
  unfold get_download_links.
  pose proof (emits_http_get w). pose proof emits_raise_for_status. emitting.
Qed.

Lemma emits_get_download_links_selenium w url :
  emits allowed (get_download_links_selenium w url).
Proof. unfold get_download_links_selenium, get_driver, driver_load, sleep. emitting. Qed.

Lemma emits_validate_download_link w url : emits allowed (validate_download_link w url).
Proof. unfold validate_download_link. pose proof (emits_http_head w). emitting. Qed.

Lemma emits_write_loop path stream size : emits allowed (write_loop path stream size).
Proof.
  revert size. induction stream as [|chunk rest IH]; intros size; simpl; emitting.
Qed.

Lemma emits_download_file url_path w url folder filename :
  emits allowed (_download_file url_path w url folder filename).
Proof.
  unfold _download_file, store_stream.
  pose proof (emits_http_head w). pose proof (emits_http_get w).
  pose proof emits_raise_for_status. pose proof emits_write_loop.
  emitting.
Qed.

Lemma emits_links_loop url_path w links folder filename :
  emits allowed (links_loop url_path w links folder filename).
Proof.
  induction links as [|link rest IH]; simpl.
  - emitting.
  - pose proof (emits_validate_download_link w).
    pose proof (emits_download_file url_path w).
    emitting.
Qed.

End EmitsLinks.

(** Two accounts of the same run agree on the steps taken. *)
Lemma same_steps s e1 f1 e2 f2 :
  with_files (advance s e1) f1 = with_files (advance s e2) f2 -> e1 = e2 /\ f1 = f2.
Proof.
  unfold with_files, advance. simpl. intros [= _ Hf Ht].
  split; [by apply app_inv_head in Ht | done].
Qed.
(** ** The pauses of the retry loop *)

Lemma retry_pause_sleep e : retry_pause e = true -> e = EvSleep 2 \/ e = EvSleep 3.
Proof.
  destruct e as [| | | |d| | |]; try done.
  destruct d as [|[|[|[|d]]]]; try done; eauto.
Qed.

Lemma quiet_step_no_pause e : quiet_step e = true -> retry_pause e = false.
Proof. destruct e as [| | | |d| | |]; simpl; try done. by intros ?%negb_true_iff. Qed.

Lemma quiet_paced paused events :
  forallb quiet_step events = true -> paced_after paused events = true.
Proof.
  revert paused. induction events as [|e events IH]; intros paused; simpl; [done|].
  intros [He Hq]%andb_true_iff. destruct e; try done; by apply IH.
Qed.

Lemma paced_after_pause paused inner d events :
  forallb quiet_step inner = true ->
  paced_after paused (inner ++ EvSleep d :: events)
  = paced_after (retry_pause (EvSleep d)) events.
Proof.
  revert paused. induction inner as [|e inner IH]; intros paused; simpl; [done|].
  intros [He Hq]%andb_true_iff. destruct e; try done; by apply IH.
Qed.

Lemma quiet_resumed inner events :
  forallb quiet_step inner = true -> resumed (inner ++ events) = resumed events.
Proof.
  induction inner as [|e inner IH]; simpl; [done|].
  intros [He Hq]%andb_true_iff. rewrite (quiet_step_no_pause e He). simpl. by apply IH.
Qed.

(** What [paced_after] computes. *)
Lemma paced_after_sound paused events pre n post :
  paced_after paused events = true ->
  events = pre ++ EvAttempt n :: post ->
  (pre = [] /\ paused = true)
  \/ exists pre' d, pre = pre' ++ [EvSleep d] /\ (d = 2 \/ d = 3).
Proof.
  revert paused pre. induction events as [|e events IH]; intros paused pre Hp Heq.
  - by destruct pre.
  - destruct pre as [|e' pre]; simpl in Heq; injection Heq as -> Heq.
    + left. simpl in Hp. apply andb_true_iff in Hp as [-> _]. done.
    + right.
      assert (exists paused', paced_after paused' events = true
                              /\ (paused' = true -> retry_pause e' = true))
        as (p' & Hp' & Hpause).
      { destruct e'; simpl in Hp; try (exists false; split; [done | discriminate]).
        - eexists. split; [exact Hp | done].
        - apply andb_true_iff in Hp as [_ Hp]. exists false. split; [done | discriminate]. }
      destruct (IH p' pre Hp' Heq) as [[-> Hw] | (pre' & d & -> & Hd)].
      * destruct (retry_pause_sleep e' (Hpause Hw)) as [-> | ->];
          [exists [], 2 | exists [], 3]; eauto.
      * exists (e' :: pre'), d. done.
Qed.

(** What [resumed] computes. *)
Lemma resumed_sound events pre e post :
  resumed events = true ->
  events = pre ++ e :: post -> retry_pause e = true ->
  exists n post', post = EvAttempt n :: post'.
Proof.
  revert pre. induction events as [|e0 events IH]; intros pre Hr Heq He.
  - by destruct pre.
  - simpl in Hr. apply andb_true_iff in Hr as [Hhead Hr].
    destruct pre as [|e' pre]; simpl in Heq; injection Heq as -> Heq.
    + subst events. rewrite He in Hhead. simpl in Hhead.
      destruct post as [|[] post]; try done. eauto.
    + by eapply IH.
Qed.

Lemma advance_with_files s e1 f1 e2 :
  advance (with_files (advance s e1) f1) e2 = with_files (advance s (e1 ++ e2)) f1.
Proof.
  unfold with_files, advance; simpl. f_equal.
  - rewrite length_app. lia.
  - by rewrite app_assoc.
Qed.

Section Pacing.

Variable urljoin : str -> str -> str.
Variable url_path : str -> str.
Variable w : World.
Variable download_folder : str.
Variable preferred_name : option str.

(** The steps of an attempt after its announcement: when the attempt is
    to be followed by another, they end in a pause of 2 or 3 seconds,
    the only one among them. *)
Lemma attempt_links_steps song_url song_title attempt s :
  exists r evs fs,
    attempt_links urljoin url_path w song_url song_title download_folder
      preferred_name attempt s
    = (r, with_files (advance s evs) fs)
    /\ match r with
       | Ok None =>
           if attempt <? 2
           then exists inner d,
               evs = inner ++ [EvSleep d] /\ (d = 2 \/ d = 3)
               /\ forallb quiet_step inner = true
           else forallb quiet_step evs = true
       | _ => forallb quiet_step evs = true
       end.
Proof.
  unfold attempt_links. change (max_retries - 1) with 2. unfold bind at 1.
  destruct (emits_get_download_links quiet_step ltac:(done) urljoin w song_url s)
    as (r1 & e1 & f1 & -> & Hq1).
  destruct r1 as [links1|e]; [|by exists (Raise e), e1, f1].
  unfold bind at 1.
  match goal with
  | |- context [match ?m _ with _ => _ end] =>
      assert (emits quiet_step m) as Hsel
  end.
  { destruct (negb (nonempty links1)); [|apply emits_ret].
    by apply emits_get_download_links_selenium. }
  destruct (Hsel (with_files (advance s e1) f1)) as (r2 & e2 & f2 & -> & Hq2).
  rewrite with_files_advance.
  pose proof (forallb_app_true _ _ _ Hq1 Hq2) as Hq12.
  destruct r2 as [links|e]; [|by exists (Raise e), (e1 ++ e2), f2].
  destruct (negb (nonempty links)).
  { destruct (attempt <? 2) eqn:Hlast.
    - exists (Ok None), ((e1 ++ e2) ++ [EvSleep 2]), f2.
      split; [unfold bind, sleep; rewrite emit_run, advance_with_files; done|].
      exists (e1 ++ e2), 2. eauto.
    - by exists (Ok (Some false)), (e1 ++ e2), f2. }
  unfold bind at 1.
  destruct (emits_links_loop quiet_step ltac:(done) ltac:(done) url_path w links
              download_folder
              (if truthy preferred_name then default [] preferred_name else song_title)
              (with_files (advance s (e1 ++ e2)) f2))
    as (r3 & e3 & f3 & -> & Hq3).
  rewrite with_files_advance.
  pose proof (forallb_app_true _ _ _ Hq12 Hq3) as Hq123.
  destruct r3 as [[]|e].
  - by exists (Ok (Some true)), ((e1 ++ e2) ++ e3), f3.
  - destruct (attempt <? 2) eqn:Hlast.
    + exists (Ok None), (((e1 ++ e2) ++ e3) ++ [EvSleep 3]), f3.
      split; [unfold bind, sleep; rewrite emit_run, advance_with_files; done|].
      exists ((e1 ++ e2) ++ e3), 3. eauto.
    + exists (Ok None), ((e1 ++ e2) ++ e3), f3. split; [done|]. done.
  - by exists (Raise e), ((e1 ++ e2) ++ e3), f3.
Qed.

(** One attempt for a song that has a page: its announcement, quiet
    steps, and, when another attempt is to follow, one pause. *)
Lemma attempt_body_paced song_info page attempt s :
  song_page song_info = Some page -> page <> [] ->
  exists r evs fs inner,
    attempt_body urljoin url_path w song_info download_folder preferred_name attempt s
    = (Ok r, with_files (advance s evs) fs)
    /\ forallb quiet_step inner = true
    /\ match r with
       | None =>
           if attempt <? 2
           then exists d, (d = 2 \/ d = 3)
                          /\ evs = EvAttempt (attempt + 1) :: inner ++ [EvSleep d]
           else evs = EvAttempt (attempt + 1) :: inner
       | Some _ => evs = EvAttempt (attempt + 1) :: inner
       end.
Proof.
  intros Hpage Hne.
  destruct (attempt_body_run urljoin url_path w download_folder preferred_name
              song_info page attempt s Hpage Hne) as [song_title ->].
  change (max_retries - 1) with 2.
  destruct (attempt_links_steps page song_title attempt
              (advance s [EvAttempt (attempt + 1)])) as (r & evs & fs & Hrun & Hsteps).
  unfold try_except. rewrite Hrun, with_files_advance_l.
  destruct r as [[result|]|e].
  - exists (Some result), ([EvAttempt (attempt + 1)] ++ evs), fs, evs. done.
  - destruct (attempt <? 2) eqn:Hlast.
    + destruct Hsteps as (inner & d & -> & Hd & Hq).
      exists None, ([EvAttempt (attempt + 1)] ++ inner ++ [EvSleep d]), fs, inner.
      split; [done|]. split; [done|]. eauto.
    + exists None, ([EvAttempt (attempt + 1)] ++ evs), fs, evs.
      split; [done|]. split; [done|]. done.
  - destruct (attempt <? 2) eqn:Hlast.
    + exists None, ([EvAttempt (attempt + 1)] ++ evs ++ [EvSleep 2]), fs, evs.
      split.
      { unfold bind, sleep. rewrite emit_run, advance_with_files.
        by rewrite <- app_assoc. }
      split; [done|]. eauto.
    + exists None, ([EvAttempt (attempt + 1)] ++ evs), fs, evs.
      split; [done|]. split; [done|]. done.
Qed.

Lemma attempts_loop_paced song_info page n a s :
  song_page song_info = Some page -> page <> [] ->
  a + n = max_retries ->
  exists result evs fs,
    attempts_loop urljoin url_path w song_info download_folder preferred_name
      (seq a n) s
    = (Ok result, with_files (advance s evs) fs)
    /\ paced_after true evs = true
    /\ resumed evs = true
    /\ (0 < n -> exists tail, evs = EvAttempt (a + 1) :: tail).
Proof.
  intros Hpage Hne. revert a s. induction n as [|n IH]; intros a s Han.
  { exists false, [], (files s). rewrite with_files_same. repeat split; try done. lia. }
  cbn [seq attempts_loop]. unfold bind at 1.
  destruct (attempt_body_paced song_info page a s Hpage Hne)
    as (r & evs1 & fs1 & inner & -> & Hq & Hshape).
  destruct r as [result|].
  - subst evs1. exists result, (EvAttempt (a + 1) :: inner), fs1.
    split; [done|]. split; [simpl; by apply quiet_paced|].
    split; [|by eexists].
    simpl. rewrite <- (app_nil_r inner). by rewrite quiet_resumed.
  - destruct n as [|n].
    + assert ((a <? 2) = false) as Hlast
        by (apply Nat.ltb_ge; unfold max_retries in Han; lia).
      rewrite Hlast in Hshape. subst evs1.
      exists false, (EvAttempt (a + 1) :: inner), fs1.
      split; [done|]. split; [simpl; by apply quiet_paced|].
      split; [|by eexists].
      simpl. rewrite <- (app_nil_r inner). by rewrite quiet_resumed.
    + assert ((a <? 2) = true) as Hlast
        by (apply Nat.ltb_lt; unfold max_retries in Han; lia).
      rewrite Hlast in Hshape. destruct Hshape as (d & Hd & ->).
      destruct (IH (S a)
                  (with_files (advance s (EvAttempt (a + 1) :: inner ++ [EvSleep d])) fs1)
                  ltac:(lia))
        as (result & evs2 & fs2 & -> & Hp & Hr & Hhead).
      destruct (Hhead ltac:(lia)) as [tail ->].
      eexists result, _, fs2. rewrite with_files_advance. split; [reflexivity|].
      assert (retry_pause (EvSleep d) = true) as Hpause by (by destruct Hd as [-> | ->]).
      split; [|split; [|by eexists]].
      * rewrite <- app_comm_cons. cbn [paced_after andb].
        rewrite <- app_assoc. cbn [app].
        by rewrite (paced_after_pause false inner d _ Hq), Hpause.
      * rewrite <- app_comm_cons. cbn [resumed retry_pause negb orb andb].
        rewrite <- app_assoc. cbn [app]. rewrite (quiet_resumed inner _ Hq).
        cbn [resumed]. rewrite Hpause. exact Hr.
Qed.

Lemma download_song_no_url song_info s :
  truthy (song_page song_info) = false ->
  download_song urljoin url_path w song_info download_folder preferred_name s
  = (Ok false, s).
Proof.
  unfold download_song. cbn [max_retries seq attempts_loop].
  unfold bind at 1. unfold attempt_body, try_except.
  destruct song_info as [[[|c url]|] title name | [|c text]]; simpl; done.
Qed.

End Pacing.

(** X9.  [download_song] never raises.  For a song without a page URL it
    returns failure at once, with no step taken and no file touched.
    Otherwise every attempt but the first starts straight after a pause of
    2 or 3 seconds, and every such pause is followed, straight away, by the
    start of a new attempt: the loop never waits without trying again. *)
Theorem download_song_paced urljoin url_path w song_info download_folder
    preferred_name s :
  exists result evs fs,
    download_song urljoin url_path w song_info download_folder preferred_name s
    = (Ok result, with_files (advance s evs) fs)
    /\ (truthy (song_page song_info) = false ->
        result = false /\ evs = [] /\ fs = files s)
    /\ (forall pre n post,
          evs = pre ++ EvAttempt n :: post ->
          pre = [] \/ exists pre' d, pre = pre' ++ [EvSleep d] /\ (d = 2 \/ d = 3))
    /\ (forall pre d post,
          evs = pre ++ EvSleep d :: post -> d = 2 \/ d = 3 ->
          exists n post', post = EvAttempt n :: post').
Proof.
  destruct (truthy (song_page song_info)) eqn:Hurl.
  - destruct (song_page song_info) as [[|c page]|] eqn:Hpage; try done.
    destruct (attempts_loop_paced urljoin url_path w download_folder preferred_name
                song_info (c :: page) max_retries 0 s Hpage ltac:(done) eq_refl)
      as (result & evs & fs & Hrun & Hp & Hr & _).
    exists result, evs, fs. split; [exact Hrun|]. split; [done|]. split.
    + intros pre n post Heq.
      destruct (paced_after_sound _ _ _ _ _ Hp Heq) as [[-> _] | ?]; [by left | by right].
    + intros pre d post Heq Hd. eapply resumed_sound; [exact Hr | exact Heq|].
      by destruct Hd as [-> | ->].
  - exists false, [], (files s). rewrite with_files_same.
    split; [by apply download_song_no_url|]. split; [done|].
    split; intros pre ? post Heq; by destruct pre.
Qed.
(** ** The steps of a batch *)

Lemma progress_of_app e1 e2 : progress_of (e1 ++ e2) = progress_of e1 ++ progress_of e2.
Proof. unfold progress_of. apply flat_map_app. Qed.

Lemma song_pauses_app e1 e2 : song_pauses (e1 ++ e2) = song_pauses e1 + song_pauses e2.
Proof. unfold song_pauses. by rewrite List.filter_app, length_app. Qed.

Lemma song_steps_only events :
  forallb song_step events = true -> progress_of events = [] /\ song_pauses events = 0.
Proof.
  induction events as [|e events IH]; [done|]. cbn [forallb].
  intros [He Hall]%andb_true_iff. destruct (IH Hall) as [IH1 IH2].
  change (e :: events) with ([e] ++ events).
  rewrite progress_of_app, song_pauses_app, IH1, IH2.
  destruct e as [| | | |d| | |]; try done. by destruct d as [|[|d]].
Qed.

Section SongSteps.

Variable urljoin : str -> str -> str.
Variable url_path : str -> str.
Variable w : World.
Variable download_folder : str.

Lemma emits_attempt_links song_url song_title preferred_name attempt :
  emits song_step
    (attempt_links urljoin url_path w song_url song_title download_folder
       preferred_name attempt).
Proof.
  unfold attempt_links, sleep.
  pose proof (emits_get_download_links song_step ltac:(done) urljoin w).
  pose proof (emits_get_download_links_selenium song_step ltac:(done) ltac:(done)
                ltac:(done) w).
  pose proof (emits_links_loop song_step ltac:(done) ltac:(done) url_path w).
  emitting.
Qed.

Lemma emits_attempt_body song_info preferred_name attempt :
  emits song_step
    (attempt_body urljoin url_path w song_info download_folder preferred_name attempt).
Proof.
  unfold attempt_body, sleep. pose proof emits_attempt_links.
  destruct song_info; emitting.
Qed.

Lemma emits_download_song song_info preferred_name :
  emits song_step
    (download_song urljoin url_path w song_info download_folder preferred_name).
Proof.
  unfold download_song. generalize (seq 0 max_retries). intros attempts.
  induction attempts as [|attempt rest IH]; simpl.
  - emitting.
  - apply emits_bind; [apply emits_attempt_body|]. intros [result|]; emitting.
Qed.

(** The download of one song, as the batch sees it. *)
Lemma download_song_steps song_info preferred_name s :
  exists result evs fs,
    download_song urljoin url_path w song_info download_folder preferred_name s
    = (Ok result, with_files (advance s evs) fs)
    /\ forallb song_step evs = true
    /\ length (attempts_of evs) <= max_retries
    /\ (result = true -> truthy (song_page song_info) = true).
Proof.
  destruct (attempts_loop_steps urljoin url_path w download_folder preferred_name
              song_info (seq 0 max_retries) s) as (result & evs & fs & Hrun & k & Hk).
  exists result, evs, fs. split; [exact Hrun|].
  destruct (emits_download_song song_info preferred_name s)
    as (r' & evs' & fs' & Hrun' & Hall).
  unfold download_song in Hrun'. rewrite Hrun in Hrun'.
  apply (f_equal snd) in Hrun'. cbn [snd] in Hrun'.
  apply same_steps in Hrun' as [<- _].
  split; [exact Hall|]. split.
  - rewrite Hk, length_fmap, length_take, length_seq. lia.
  - intros ->. destruct (truthy (song_page song_info)) eqn:Hurl; [done|].
    pose proof (download_song_no_url urljoin url_path w download_folder preferred_name
                  song_info s Hurl) as Hno.
    unfold download_song in Hno. rewrite Hrun in Hno. discriminate Hno.
Qed.

End SongSteps.
(** ** A batch, song by song *)

Lemma callback_run i (o : Outcome unit) s :
  (emit (EvProgress i) ;; lift o) s = (o, advance s [EvProgress i]).
Proof. reflexivity. Qed.

Section BatchSteps.

Variable urljoin : str -> str -> str.
Variable url_path : str -> str.
Variable w : World.
Variable download_folder : str.
Variable progress_callback : option (nat -> nat -> SongInfo -> Outcome unit).
Variable total_songs : nat.

(** The callback, when there is one, returns. *)
Local Abbreviation callback_returns :=
  (forall callback i song,
      progress_callback = Some callback -> callback i total_songs song = Ok tt).

(** A dict with a page URL. *)
Local Abbreviation has_page song :=
  (exists url title name, song = SongDict (Some url) title name /\ url <> []).

(** One song of the batch: the callback is called, once; the pause
    comes before every song but the first; the download makes its
    attempts; nothing is raised. *)
Lemma song_try_steps i song_info s :
  exists success evs fs,
    try_except
      (match progress_callback with
       | Some callback =>
           emit (EvProgress i) ;; lift (callback i total_songs song_info)
       | None => ret tt
       end ;;
       (if 0 <? i then sleep 1 else ret tt) ;;
       name <-
         match song_info with
         | SongDict _ _ name => ret (default ("song" : str) name)
         | SongOther _ => raise AttributeError
         end ;;
       download_song urljoin url_path w song_info download_folder
         (Some (format_02d (i + 1) ++ "_" ++ name)))
      (fun _ => ret false) s
    = (Ok success, with_files (advance s evs) fs)
    /\ progress_of evs = match progress_callback with Some _ => [i] | None => [] end
    /\ song_pauses evs <= (if 0 <? i then 1 else 0)
    /\ (callback_returns -> song_pauses evs = if 0 <? i then 1 else 0)
    /\ length (attempts_of evs) <= max_retries
    /\ (success = true -> has_page song_info).
Proof.
  unfold try_except. unfold bind at 1.
  set (called := match progress_callback with Some _ => [EvProgress i] | None => [] end).
  set (answer := match progress_callback with
                 | Some callback => callback i total_songs song_info
                 | None => Ok tt
                 end).
  match goal with
  | |- context [match ?m s with _ => _ end] =>
      assert (m s = (answer, advance s called)) as ->
  end.
  { subst called answer. destruct progress_callback as [callback|].
    - apply callback_run.
    - by rewrite advance_nil. }
  assert (progress_of called = match progress_callback with Some _ => [i] | None => [] end) as Hcalled
    by (subst called; by destruct progress_callback).
  assert (song_pauses called = 0) as Hnone
    by (subst called; by destruct progress_callback).
  assert (attempts_of called = []) as Hquiet
    by (subst called; by destruct progress_callback).
  destruct answer as [[]|e] eqn:Hanswer.
  2:{ exists false, called, (files s).
      split; [reflexivity|].
      split; [done|]. split; [lia|].
      split; [|split; [rewrite Hquiet; simpl; lia | done]].
      intros Hreturns. exfalso. subst answer.
      destruct progress_callback as [callback|]; [|done].
      by rewrite (Hreturns callback i song_info eq_refl) in Hanswer. }
  unfold bind at 1.
  set (paused := if 0 <? i then [EvSleep 1] else []).
  match goal with
  | |- context [match ?m (advance s called) with _ => _ end] =>
      assert (m (advance s called) = (Ok tt, advance s (called ++ paused))) as ->
  end.
  { subst paused. destruct (0 <? i).
    - unfold sleep. by rewrite emit_run, advance_app.
    - by rewrite app_nil_r. }
  assert (progress_of paused = []) as Hpaused by (subst paused; by destruct (0 <? i)).
  assert (song_pauses paused = if 0 <? i then 1 else 0) as Hone
    by (subst paused; by destruct (0 <? i)).
  assert (attempts_of paused = []) as Hquiet' by (subst paused; by destruct (0 <? i)).
  unfold bind at 1.
  destruct song_info as [url title name | text].
  2:{ exists false, (called ++ paused), (files s).
      split; [reflexivity|].
      rewrite progress_of_app, song_pauses_app, attempts_of_app, Hcalled, Hpaused,
        Hnone, Hone, Hquiet, Hquiet', app_nil_r.
      repeat split; try done; simpl; lia. }
  unfold ret at 1.
  destruct (download_song_steps urljoin url_path w download_folder
              (SongDict url title name)
              (Some (format_02d (i + 1) ++ "_" ++ default ("song" : str) name))
              (advance s (called ++ paused)))
    as (result & evs & fs & -> & Hall & Hthree & Hpage).
  destruct (song_steps_only evs Hall) as [Hno_progress Hno_pause].
  exists result, ((called ++ paused) ++ evs), fs.
  split; [by rewrite with_files_advance_l|].
  rewrite !progress_of_app, !song_pauses_app, !attempts_of_app, Hcalled, Hpaused,
    Hnone, Hone, Hquiet, Hquiet', Hno_progress, Hno_pause, !app_nil_r.
  split; [done|]. split; [lia|]. split; [intros _; lia|]. split; [done|].
  intros Hsuccess. specialize (Hpage Hsuccess). simpl in Hpage.
  destruct url as [[|c url]|]; try done. by eexists _, _, _.
Qed.

Lemma songs_loop_steps i songs successful_downloads failed_downloads s :
  exists more_successful more_failed evs fs,
    songs_loop urljoin url_path w progress_callback total_songs download_folder
      i songs successful_downloads failed_downloads s
    = (Ok (successful_downloads ++ more_successful, failed_downloads ++ more_failed),
       with_files (advance s evs) fs)
    /\ progress_of evs
       = match progress_callback with Some _ => seq i (length songs) | None => [] end
    /\ song_pauses evs <= (if 0 <? i then length songs else length songs - 1)
    /\ (callback_returns ->
        song_pauses evs = if 0 <? i then length songs else length songs - 1)
    /\ length (attempts_of evs) <= max_retries * length songs
    /\ Forall (fun song => has_page song) more_successful.
Proof.
  revert i successful_downloads failed_downloads s.
  induction songs as [|song rest IH]; intros i succ fail s.
  { exists [], [], [], (files s). rewrite with_files_same, !app_nil_r.
    split; [done|]. split; [by destruct progress_callback|].
    split; [by destruct (0 <? i)|]. split; [by destruct (0 <? i)|].
    split; [simpl; lia | constructor]. }
  cbn [songs_loop]. unfold bind at 1.
  destruct (song_try_steps i song s)
    as (success & evs1 & fs1 & -> & Hprogress & Hpause & Hpauses & Hattempts & Hpage).
  assert (exists succ1 fail1,
             (if success
              then songs_loop urljoin url_path w progress_callback total_songs
                     download_folder (S i) rest (succ ++ [song]) fail
              else songs_loop urljoin url_path w progress_callback total_songs
                     download_folder (S i) rest succ (fail ++ [song]))
             = songs_loop urljoin url_path w progress_callback total_songs
                 download_folder (S i) rest (succ ++ succ1) (fail ++ fail1)
             /\ Forall (fun song => has_page song) succ1) as (succ1 & fail1 & -> & Hsucc1).
  { destruct success.
    - exists [song], []. rewrite app_nil_r. split; [done|].
      constructor; [by apply Hpage | constructor].
    - exists [], [song]. rewrite app_nil_r. split; [done | constructor]. }
  destruct (IH (S i) (succ ++ succ1) (fail ++ fail1) (with_files (advance s evs1) fs1))
    as (succ2 & fail2 & evs2 & fs2 & -> & Hprogress2 & Hpause2 & Hpauses2 & Hattempts2
        & Hsucc2).
  exists (succ1 ++ succ2), (fail1 ++ fail2), (evs1 ++ evs2), fs2.
  rewrite with_files_advance, !app_assoc. split; [done|].
  rewrite progress_of_app, song_pauses_app, attempts_of_app, length_app,
    Hprogress, Hprogress2.
  change (0 <? S i) with true in Hpause2, Hpauses2. cbn [length].
  split; [by destruct progress_callback|].
  split; [destruct (0 <? i); lia|].
  split; [intros Hreturns; rewrite (Hpauses Hreturns), (Hpauses2 Hreturns);
          destruct (0 <? i); lia|].
  split; [unfold max_retries in *; lia | by apply Forall_app].
Qed.

End BatchSteps.

Lemma download_multiple_songs_steps urljoin url_path w song_list download_folder
    progress_callback s :
  match makedirs w (clock s) download_folder with
  | Some e =>
      download_multiple_songs urljoin url_path w song_list download_folder
        progress_callback s
      = (Ok {| successful := []; failed := song_list; total := length song_list;
               success_rate := PyInt 0; error := Some e |}, s)
  | None =>
      exists result evs fs,
        download_multiple_songs urljoin url_path w song_list download_folder
          progress_callback s
        = (Ok result, with_files (advance s evs) fs)
        /\ error result = None
        /\ progress_of evs
           = match progress_callback with
             | Some _ => seq 0 (length song_list)
             | None => []
             end
        /\ song_pauses evs <= length song_list - 1
        /\ ((forall callback i song,
               progress_callback = Some callback ->
               callback i (length song_list) song = Ok tt) ->
            song_pauses evs = length song_list - 1)
        /\ length (attempts_of evs) <= max_retries * length song_list
        /\ Forall (fun song =>
                     exists url title name,
                       song = SongDict (Some url) title name /\ url <> [])
             (successful result)
  end.
Proof.
  assert (fs_makedirs w download_folder s
          = match makedirs w (clock s) download_folder with
            | Some e => (Raise e, s)
            | None => (Ok tt, s)
            end) as Hmake by reflexivity.
  unfold download_multiple_songs, try_except.
  destruct (makedirs w (clock s) download_folder) as [e|].
  { unfold bind at 1. by rewrite Hmake. }
  unfold bind at 1. rewrite Hmake. unfold bind at 1.
  destruct (songs_loop_steps urljoin url_path w download_folder progress_callback
              (length song_list) 0 song_list [] [] s)
    as (succ & fail & evs & fs & -> & Hprogress & Hpause & Hpauses & Hattempts & Hsucc).
  eexists _, evs, fs. split; [reflexivity|]. simpl. done.
Qed.

(** X10.  [download_multiple_songs] never raises.  When the download
    folder cannot be made it takes no step and touches no file: every song
    is reported failed and the error is recorded.  Otherwise the progress
    callback, when one is given, is called once for every song of the list,
    in order, with the song's index; and for n songs at most n - 1 pauses of
    one second are made, exactly n - 1 when the callback never raises. *)
Theorem batch_progress_and_pauses urljoin url_path w song_list download_folder
    progress_callback s :
  exists result evs fs,
    download_multiple_songs urljoin url_path w song_list download_folder
      progress_callback s
    = (Ok result, with_files (advance s evs) fs)
    /\ match makedirs w (clock s) download_folder with
       | Some e =>
           evs = [] /\ fs = files s /\ error result = Some e
           /\ successful result = [] /\ failed result = song_list
       | None =>
           error result = None
           /\ progress_of evs
              = match progress_callback with
                | Some _ => seq 0 (length song_list)
                | None => []
                end
           /\ song_pauses evs <= length song_list - 1
           /\ ((forall callback i song,
                  progress_callback = Some callback ->
                  callback i (length song_list) song = Ok tt) ->
               song_pauses evs = length song_list - 1)
       end.
Proof.
  pose proof (download_multiple_songs_steps urljoin url_path w song_list download_folder
                progress_callback s) as Hrun.
  destruct (makedirs w (clock s) download_folder) as [e|].
  - eexists _, [], (files s). rewrite with_files_same. split; [exact Hrun|]. done.
  - destruct Hrun as (result & evs & fs & Hrun & Herror & Hprogress & Hpause & Hpauses & _).
    exists result, evs, fs. done.
Qed.

(** X11.  A batch of n songs starts at most 3n download attempts, and
    every song it reports successful is a dict with a page URL that is not
    empty: a song that is not a dict, or has no URL, is never reported
    successful. *)
Theorem batch_attempts_and_successes urljoin url_path w song_list download_folder
    progress_callback s :
  exists result evs fs,
    download_multiple_songs urljoin url_path w song_list download_folder
      progress_callback s
    = (Ok result, with_files (advance s evs) fs)
    /\ length (attempts_of evs) <= 3 * length song_list
    /\ Forall (fun song =>
                 exists url title name,
                   song = SongDict (Some url) title name /\ url <> [])
         (successful result).
Proof.
  pose proof (download_multiple_songs_steps urljoin url_path w song_list download_folder
                progress_callback s) as Hrun.
  destruct (makedirs w (clock s) download_folder) as [e|].
  - eexists _, [], (files s). rewrite with_files_same. split; [exact Hrun|].
    split; [simpl; lia | constructor].
  - destruct Hrun as (result & evs & fs & Hrun & _ & _ & _ & _ & Hattempts & Hsucc).
    exists result, evs, fs. done.
Qed.
(** ** The link check of the scraper *)

Lemma scraper_check_run w url s :
  ScraperService.validate_download_link w url s
  = (Ok match session_head w (clock s) url with
        | Ok response =>
            (status_code response =? 200)%Z
            && (contains "audio" (lower (default [] (content_type response)))
                || contains "mpeg" (lower (default [] (content_type response))))
        | Raise _ => false
        end, advance s [EvHead url]).
Proof.
  unfold ScraperService.validate_download_link, try_except, bind, http_head, now, lift.
  simpl. destruct (session_head w (clock s) url) as [response|e]; same_run.
Qed.

(** X12.  The scraper's own [validate_download_link] never raises and
    makes exactly one HEAD request.  It accepts a link exactly when the
    request returns with status 200 and a content type that contains
    "audio" or "mpeg", in any case of letters; a request that fails is a
    rejection.  A link it accepts is accepted by the check of the
    downloader as well, run from the same state, provided the size the
    response declares, if it declares one, lies between 1 MiB and
    100 MiB. *)
Theorem scraper_validate_contract w url s :
  exists accepted,
    ScraperService.validate_download_link w url s
    = (Ok accepted, advance s [EvHead url])
    /\ (accepted = true <->
        exists response,
          session_head w (clock s) url = Ok response
          /\ status_code response = 200%Z
          /\ contains "audio" (lower (default [] (content_type response)))
             || contains "mpeg" (lower (default [] (content_type response))) = true)
    /\ (accepted = true ->
        (forall response,
            session_head w (clock s) url = Ok response ->
            truthy (content_length response) = true ->
            exists size,
              int (default [] (content_length response)) = Some size
              /\ (1024 * 1024 <= size <= max_file_size)%Z) ->
        exists s', validate_download_link w url s = (Ok true, s')).
Proof.
  rewrite scraper_check_run. eexists. split; [reflexivity|].
  destruct (session_head w (clock s) url) as [response|e] eqn:Hhead.
  2:{ split; [split; [done | by intros (r & Hr & _)] | done]. }
  split.
  - split.
    + intros [Hstatus%Z.eqb_eq Haudio]%andb_true_iff. by exists response.
    + intros (r & [= <-] & Hstatus%Z.eqb_eq & Haudio). by apply andb_true_iff.
  - intros [Hstatus Haudio]%andb_true_iff Hsize.
    unfold validate_download_link, try_except, bind, http_head, now, lift.
    destruct (looks_like_audio url); [by eexists|].
    simpl. rewrite Hhead. simpl. rewrite Hstatus. simpl.
    apply orb_true_iff in Haudio.
    assert (contains "audio" (lower (default [] (content_type response)))
            || contains "mpeg" (lower (default [] (content_type response)))
            || contains "mp3" (lower (default [] (content_type response)))
            || contains "mp4" (lower (default [] (content_type response))) = true)
      as Hdeclared.
    { destruct Haudio as [-> | ->]; [done|]. by rewrite orb_true_r. }
    destruct (truthy (content_length response)) eqn:Hlen.
    + destruct (Hsize response eq_refl Hlen) as (size & -> & Hlo & Hhi).
      rewrite (proj2 (Z.ltb_ge _ _) Hlo), (proj2 (Z.ltb_ge _ _) Hhi). simpl.
      eexists. unfold ret. do 2 f_equal. exact Hdeclared.
    + eexists. unfold ret. do 2 f_equal. exact Hdeclared.
Qed.
(** ** Links that are taken on trust *)

Lemma mp3_link_looks_like_audio link :
  endswith ".mp3" link = true -> looks_like_audio link = true.
Proof.
  intros Hend. apply (ends_in_format_looks_like_audio link ".mp3").
  - unfold supported_formats. by left.
  - apply endswith_suffix in Hend as [pre ->].
    rewrite lower_app. apply endswith_suffix. by eexists.
Qed.

Lemma validate_on_trust w link s :
  looks_like_audio link = true -> validate_download_link w link s = (Ok true, s).
Proof. intros H. unfold validate_download_link, try_except. by rewrite H. Qed.

(** X13.  The downloader's link check is made without any request, and
    so without the size gate, for every link the extractions hand it that
    ends in [.mp3]: for every link the browser extraction returns, and for
    every link the page extraction returns other than the relative ones it
    has resolved against the page's address.  For such a link
    [_download_file] sends no HEAD request either: its first step is the
    GET, or it takes none. *)
Theorem extracted_links_unprobed urljoin url_path w song_page_url s :
  (exists links evs,
      get_download_links_selenium w song_page_url s = (Ok links, advance s evs)
      /\ Forall (fun link =>
                   forall s0, validate_download_link w link s0 = (Ok true, s0)) links)
  /\ (exists links evs,
        get_download_links urljoin w song_page_url s = (Ok links, advance s evs)
        /\ Forall (fun link =>
                     (forall s0, validate_download_link w link s0 = (Ok true, s0))
                     \/ exists target,
                          startswith "/" target = true
                          /\ link = urljoin song_page_url target) links)
  /\ (forall link download_folder filename s0,
        endswith ".mp3" link = true ->
        exists result evs fs,
          _download_file url_path w link download_folder filename s0
          = (Ok result, with_files (advance s0 evs) fs)
          /\ (evs = [] \/ evs = [EvGet link])).
Proof.
  split; [|split].
  - rewrite get_download_links_selenium_run.
    assert (forall elements,
              Forall (fun link =>
                        forall s0, validate_download_link w link s0 = (Ok true, s0))
                (fromkeys (flat_map selenium_links elements))) as Hall.
    { intros elements. apply Forall_forall. intros link Hin s0.
      apply (proj1 (fromkeys_elem _ _)) in Hin.
      apply in_flat_map_elem in Hin as (element & _ & Hin).
      apply validate_on_trust, mp3_link_looks_like_audio.
      apply selenium_links_elem in Hin
        as (href & onclick & _ & _ & [(_ & _ & He) | (_ & script & _ & Hin)]); [done|].
      by destruct (findall_shape script link Hin). }
    destruct (chrome_available w (clock s)); [|by eexists _, _].
    destruct (driver_get w (S (clock s)) song_page_url) as [find|e]; [|by eexists _, _].
    eexists _, _. split; [reflexivity|].
    destruct (find selenium_download_css); [apply Hall | constructor].
  - rewrite get_download_links_run. eexists _, _. split; [reflexivity|].
    unfold links_answer.
    destruct (session_get w (clock s) song_page_url) as [response|e]; [|constructor].
    destruct (bad_status response); [constructor|].
    apply Forall_forall. intros link Hin. unfold extract_links in Hin.
    apply (proj1 (fromkeys_elem _ _)) in Hin.
    apply clean_links_elem in Hin as (c & _ & [(_ & Hend & ->) | (_ & Hslash & ->)]).
    + left. intros s0. by apply validate_on_trust, mp3_link_looks_like_audio.
    + right. by exists c.
  - intros link download_folder filename s0 Hend.
    pose proof (mp3_link_looks_like_audio link Hend) as Hlooks.
    unfold _download_file, try_except.
    destruct (negb (nonempty link) || negb (startswith "http" link)).
    { exists false, [], (files s0). rewrite with_files_same. split; [done | by left]. }
    rewrite Hlooks. cbn [negb]. unfold bind at 1. unfold ret at 1. cbn [negb].
    unfold bind at 1.
    assert (http_get w link s0 = (session_get w (clock s0) link, advance s0 [EvGet link]))
      as -> by reflexivity.
    destruct (session_get w (clock s0) link) as [response|e].
    2:{ exists false, [EvGet link], (files s0). split; [|by right].
        unfold ret. by destruct s0. }
    match goal with
    | |- context [match ?m (advance s0 [EvGet link]) with _ => _ end] =>
        assert (emits (fun _ => false) m) as Hrest
    end.
    { unfold store_stream.
      pose proof (emits_raise_for_status (fun _ => false)).
      pose proof (emits_write_loop (fun _ => false)).
      emitting. }
    destruct (Hrest (advance s0 [EvGet link])) as (r & evs & fs & -> & Hnone).
    destruct evs as [|? evs]; [|done]. rewrite with_files_advance_l.
    destruct r as [result|e].
    + exists result, [EvGet link], fs. split; [done | by right].
    + exists false, [EvGet link], fs. split; [done | by right].
Qed.
(** ** The search endpoint *)

(** X14.  [search_single_track] answers every request: with status 400
    when the query is missing or empty, without a step taken, and otherwise
    with a page of results, never with status 500.  The page shows at most
    10 results, no two with the same URL, and a total that is at least
    their number and at most 20.  The query as given is searched for only when the search for the
    enhanced query has found nothing and the two differ; in all, at most 14
    page requests are sent and the browser driver is set up at most twice,
    and at most 7 and once when the enhancement leaves the query as it
    is. *)
Theorem search_single_track_contract urljoin quote_plus set_order w
    enhance_search_query query s :
  exists reply evs,
    search_single_track urljoin quote_plus set_order w enhance_search_query query s
    = (Ok reply, advance s evs)
    /\ (truthy query = false -> reply = BadRequest /\ evs = [])
    /\ (truthy query = true ->
        exists results total_results,
          reply = SearchPage (default [] query) (enhance_search_query (default [] query))
                    results total_results
          /\ length results <= 10
          /\ length results <= total_results <= 20
          /\ NoDup (hit_url <$> results)
          /\ length (requests_of evs) <= 14
          /\ driver_setups evs <= 2
          /\ (enhance_search_query (default [] query) = default [] query ->
              length (requests_of evs) <= 7 /\ driver_setups evs <= 1)).
Proof.
  unfold search_single_track, try_except.
  destruct (truthy query) eqn:Hquery; cbn [negb].
  2:{ exists BadRequest, []. rewrite advance_nil. done. }
  set (q := default [] query). set (enhanced := enhance_search_query q).
  cbv zeta. unfold bind at 1.
  destruct (search_masstamilan_cost urljoin quote_plus set_order w enhanced s)
    as (hits1 & evs1 & -> & Hlen1 & Hnodup1 & Hreq1 & Hdrv1).
  unfold bind at 1.
  assert (forall hits : list SearchHit,
             length hits <= 20 -> NoDup (hit_url <$> hits) ->
             length (take 10 hits) <= 10
             /\ length (take 10 hits) <= length hits <= 20
             /\ NoDup (hit_url <$> take 10 hits)) as Hpage.
  { intros hits Hlen Hnodup. rewrite length_take. split; [lia|]. split; [lia|].
    rewrite fmap_take. eapply sublist_NoDup; [exact Hnodup | apply sublist_take]. }
  destruct (negb (nonempty hits1) && negb (bool_decide (enhanced = q))) eqn:Hagain.
  - apply andb_true_iff in Hagain as [_ Hdiffer%negb_true_iff%bool_decide_eq_false].
    destruct (search_masstamilan_cost urljoin quote_plus set_order w q (advance s evs1))
      as (hits2 & evs2 & -> & Hlen2 & Hnodup2 & Hreq2 & Hdrv2).
    eexists _, (evs1 ++ evs2). rewrite advance_app. split; [reflexivity|].
    split; [done|]. intros _. eexists _, _. split; [reflexivity|].
    destruct (Hpage hits2 Hlen2 Hnodup2) as (H10 & H20 & Hnd).
    rewrite requests_of_app, length_app, driver_setups_app.
    split; [done|]. split; [done|]. split; [done|]. split; [lia|]. split; [lia|].
    intros Hsame. done.
  - eexists _, evs1. split; [reflexivity|].
    split; [done|]. intros _. eexists _, _. split; [reflexivity|].
    destruct (Hpage hits1 Hlen1 Hnodup1) as (H10 & H20 & Hnd).
    split; [done|]. split; [done|]. split; [done|]. split; [lia|]. split; [lia|].
    intros _. lia.
Qed.
(** ** The position in the file name *)

Lemma digit_char k :
  k < 10 ->
  is_digit (ascii_of_nat (48 + k)) = true
  /\ digit_val (ascii_of_nat (48 + k)) = Z.of_nat k.
Proof. intros Hk. do 10 (destruct k as [|k]; [by vm_compute|]). lia. Qed.

Lemma digit_plain c :
  is_digit c = true ->
  is_space c = false /\ underscore_unsafe c = c
  /\ c <> "_"%char /\ c <> "-"%char /\ c <> "+"%char /\ c <> "/"%char.
Proof. destruct c as [[] [] [] [] [] [] [] []]; vm_compute; intros; done. Qed.

Lemma int_digits_head acc b c D :
  is_digit c = true -> int_digits acc b (c :: D) = int_digits acc true (c :: D).
Proof. intros Hc. cbn [int_digits]. by rewrite Hc. Qed.

Lemma int_digits_snoc D d acc b :
  D <> [] -> Forall (fun c => is_digit c = true) D -> is_digit d = true ->
  int_digits acc b (D ++ [d])
  = (fun v => 10 * v + digit_val d)%Z <$> int_digits acc b D.
Proof.
  intros Hne HD Hd. revert acc b. induction D as [|c D IH]; [done|]. intros acc b.
  apply Forall_cons in HD as [Hc HD]. cbn [app int_digits]. rewrite Hc.
  destruct D as [|c' D].
  - cbn [app int_digits]. by rewrite Hd.
  - by apply IH.
Qed.

Lemma decimal_fuel_step fuel n acc :
  decimal_fuel (S fuel) n acc
  = if n / 10 =? 0 then ascii_of_nat (48 + n mod 10) :: acc
    else decimal_fuel fuel (n / 10) (ascii_of_nat (48 + n mod 10) :: acc).
Proof. reflexivity. Qed.

(** The decimal digits of a number, read back. *)
Lemma decimal_fuel_spec fuel n acc :
  n <= fuel ->
  exists D,
    decimal_fuel (S fuel) n acc = D ++ acc
    /\ D <> [] /\ Forall (fun c => is_digit c = true) D
    /\ int_digits 0 false D = Some (Z.of_nat n).
Proof.
  revert n acc. induction fuel as [|fuel IH]; intros n acc Hn.
  - assert (n = 0) as -> by lia. exists ["0"%char].
    split; [reflexivity|]. split; [done|]. split; [by constructor | reflexivity].
  - rewrite (decimal_fuel_step (S fuel)).
    destruct (digit_char (n mod 10)) as [Hd Hval];
      [apply Nat.mod_upper_bound; lia|].
    destruct (n / 10 =? 0) eqn:Hsmall.
    + apply Nat.eqb_eq in Hsmall. exists [ascii_of_nat (48 + n mod 10)].
      split; [done|]. split; [done|]. split; [by constructor|].
      cbn [int_digits]. rewrite Hd, Hval. f_equal.
      pose proof (Nat.div_mod_eq n 10). lia.
    + apply Nat.eqb_neq in Hsmall.
      destruct (IH (n / 10) (ascii_of_nat (48 + n mod 10) :: acc))
        as (D & -> & Hne & HD & Hint).
      { pose proof (Nat.div_mod_eq n 10). lia. }
      exists (D ++ [ascii_of_nat (48 + n mod 10)]).
      split; [by rewrite <- app_assoc|].
      split; [by destruct D|].
      split; [apply Forall_app; split; [done | by constructor]|].
      rewrite int_digits_snoc, Hint by done. cbn [fmap option_fmap option_map].
      rewrite Hval. f_equal.
      pose proof (Nat.div_mod_eq n 10). lia.
Qed.

Lemma digit_not_blank c : is_digit c = true -> is_c_space c = false.
Proof. destruct c as [[] [] [] [] [] [] [] []]; vm_compute; intros; done. Qed.

Lemma digits_strip D :
  Forall (fun c => is_digit c = true) D -> strip_by is_c_space D = D.
Proof.
  assert (forall l, Forall (fun c => is_digit c = true) l ->
            lstrip_by is_c_space l = l) as Hl.
  { intros [|c l]; [done|]. intros [Hc _]%Forall_cons. simpl.
    by rewrite (digit_not_blank c Hc). }
  intros HD. unfold strip_by. rewrite (Hl D HD).
  rewrite Hl; [apply rev_involutive|].
  apply Forall_forall. intros c Hc%list_elem_of_In%in_rev%list_elem_of_In.
  by eapply Forall_forall in HD.
Qed.

(** [int(f"{n:02d}")] is [n]: the zero-padded number is made of digits
    only and reads back as the number. *)
Lemma format_02d_int n :
  format_02d n <> [] /\ Forall (fun c => is_digit c = true) (format_02d n)
  /\ int (format_02d n) = Some (Z.of_nat n).
Proof.
  unfold format_02d, decimal.
  destruct (decimal_fuel_spec n n [] ltac:(lia)) as (D & -> & Hne & HD & Hint).
  rewrite app_nil_r.
  assert (forall D', D' <> [] -> Forall (fun c => is_digit c = true) D' ->
            int D' = int_digits 0 false D') as Hread.
  { intros D' Hne' HD'. unfold int. rewrite (digits_strip D' HD').
    destruct D' as [|c D']; [done|]. apply Forall_cons in HD' as [Hc _].
    destruct (digit_plain c Hc) as (_ & _ & _ & Hminus & Hplus & _).
    by rewrite !bool_decide_eq_false_2. }
  destruct (length D <? 2).
  - assert (Forall (fun c => is_digit c = true) ("0"%char :: D)) as HD0
      by (by constructor).
    split; [done|]. split; [exact HD0|].
    change (("0" : str) ++ D) with ("0"%char :: D).
    rewrite Hread by done. rewrite int_digits_head by done.
    cbn [int_digits]. change (is_digit "0") with true. cbn iota.
    change (10 * 0 + digit_val "0")%Z with 0%Z.
    destruct D as [|c D]; [done|]. apply Forall_cons in HD as [Hc _].
    by rewrite <- (int_digits_head 0 false c D Hc).
  - split; [done|]. split; [done|]. by rewrite Hread.
Qed.

(** Two names that start with digits and an underscore start with the
    same digits when they are equal. *)
Lemma digits_prefix_unique D1 D2 r1 r2 :
  Forall (fun c => is_digit c = true) D1 -> Forall (fun c => is_digit c = true) D2 ->
  D1 ++ "_"%char :: r1 = D2 ++ "_"%char :: r2 -> D1 = D2.
Proof.
  revert D2. induction D1 as [|c D1 IH]; intros [|c' D2] H1 H2 Heq; [done| | |].
  - injection Heq as Hc _. apply Forall_cons in H2 as [Hc' _].
    destruct (digit_plain c' Hc') as (_ & _ & Hunder & _). congruence.
  - injection Heq as Hc _. apply Forall_cons in H1 as [Hc' _].
    destruct (digit_plain c Hc') as (_ & _ & Hunder & _). congruence.
  - injection Heq as -> Heq. apply Forall_cons in H1 as [_ H1].
    apply Forall_cons in H2 as [_ H2]. f_equal. by eapply IH.
Qed.

(** A word at the head of a string is kept at the head when the blanks
    are collapsed. *)
Lemma join_split_prefix word rest :
  plain_word word -> exists tail, join " " (split (word ++ rest)) = word ++ tail.
Proof.
  revert word. induction rest as [|c rest IH]; intros word Hword.
  - rewrite split_word_first by (done || by left). exists []. by rewrite app_nil_r.
  - destruct (is_space c) eqn:Hc.
    + rewrite split_word_first by (done || right; by eexists _, _).
      destruct (split (c :: rest)) as [|next words]; [exists []; by rewrite app_nil_r|].
      by eexists.
    + destruct (IH (word ++ [c])) as [tail Htail].
      { destruct Hword as [Hne Hchars]. split; [by destruct word|].
        intros a [Ha | ->%list_elem_of_singleton]%elem_of_app; [by apply Hchars | done]. }
      exists (c :: tail). rewrite <- !app_assoc in Htail. exact Htail.
Qed.

(** The position put before a name stays at the head of the name the
    file gets. *)
Lemma destination_name_position n name ext :
  length (format_02d n) < 100 ->
  exists tail,
    destination_name (format_02d n ++ "_" ++ name) ext = format_02d n ++ "_"%char :: tail.
Proof.
  intros Hshort. destruct (format_02d_int n) as (Hne & Hdigits & _).
  set (D := format_02d n) in *.
  assert (exists tail, sanitize_filename (D ++ "_" ++ name) = D ++ "_"%char :: tail)
    as [tail Htail].
  { rewrite sanitize_filename_unfold.
    assert (map underscore_unsafe (D ++ "_" ++ name)
            = (D ++ ["_"%char]) ++ map underscore_unsafe name) as ->.
    { rewrite map_app, <- app_assoc. f_equal.
      rewrite <- (map_id D) at 2. apply map_ext_in.
      intros c Hc%list_elem_of_In. apply digit_plain.
      by eapply Forall_forall in Hdigits. }
    destruct (join_split_prefix (D ++ ["_"%char]) (map underscore_unsafe name))
      as [tail ->].
    { split; [by destruct D|].
      intros a [Ha | ->%list_elem_of_singleton]%elem_of_app; [|done].
      apply digit_plain. by eapply Forall_forall in Hdigits. }
    rewrite take_app, (take_ge (D ++ ["_"%char])) by (rewrite length_app; simpl; lia).
    rewrite <- app_assoc. by eexists. }
  unfold destination_name. rewrite Htail.
  destruct (existsb _ supported_formats); [by eexists|].
  exists (tail ++ ext). by rewrite <- app_assoc.
Qed.

Lemma path_join_relative folder name :
  startswith "/" name = false ->
  path_join folder name
  = folder ++ (if bool_decide (folder = []) || endswith "/" folder then [] else "/") ++ name.
Proof. intros H. unfold path_join. rewrite H. by destruct (_ || _). Qed.

(** X15.  Two songs at different positions of a batch are never stored
    under the same path, whatever their names, the addresses they are
    fetched from and the responses, as long as the positions, written out,
    have fewer than 100 digits: the position, written with at least two
    digits and followed by an underscore, stays at the head of the file
    name through the sanitising. *)
Theorem batch_files_distinct url_path download_folder i j name_i name_j
    url_i url_j response_i response_j :
  i <> j ->
  length (format_02d (i + 1)) < 100 -> length (format_02d (j + 1)) < 100 ->
  destination_path url_path url_i download_folder
    (format_02d (i + 1) ++ "_" ++ name_i) response_i
  <> destination_path url_path url_j download_folder
       (format_02d (j + 1) ++ "_" ++ name_j) response_j.
Proof.
  intros Hij Hi Hj. unfold destination_path.
  destruct (destination_name_position (i + 1) name_i
              (choose_ext url_path (default [] (content_type response_i)) url_i) Hi)
    as [tail_i ->].
  destruct (destination_name_position (j + 1) name_j
              (choose_ext url_path (default [] (content_type response_j)) url_j) Hj)
    as [tail_j ->].
  destruct (format_02d_int (i + 1)) as (Hne_i & Hdigits_i & Hint_i).
  destruct (format_02d_int (j + 1)) as (Hne_j & Hdigits_j & Hint_j).
  assert (forall n tail,
            format_02d n <> [] -> Forall (fun c => is_digit c = true) (format_02d n) ->
            startswith "/" (format_02d n ++ "_"%char :: tail) = false) as Hrel.
  { intros n tail Hne Hdigits. destruct (format_02d n) as [|c D]; [done|].
    apply Forall_cons in Hdigits as [Hc _].
    destruct (digit_plain c Hc) as (_ & _ & _ & _ & _ & Hslash).
    change (startswith "/" ((c :: D) ++ "_"%char :: tail))
      with (bool_decide ("/"%char = c) && true).
    by rewrite bool_decide_eq_false_2. }
  rewrite !path_join_relative by (by apply Hrel).
  intros Heq. apply app_inv_head, app_inv_head in Heq.
  apply digits_prefix_unique in Heq; [|done|done].
  rewrite Heq in Hint_i. rewrite Hint_i in Hint_j. injection Hint_j as Hsame. lia.
Qed.

(** X15, witness: the first two songs of a batch, both named "song". *)
Lemma batch_files_distinct_witness :
  0 <> 1
  /\ destination_path url_path_sample "https://cdn.example/a.mp3" "downloads"
       (format_02d (0 + 1) ++ "_" ++ "song") audio_stream
     <> destination_path url_path_sample "https://cdn.example/a.mp3" "downloads"
          (format_02d (1 + 1) ++ "_" ++ "song") audio_stream.
Proof.
  split; [lia|].
  apply (batch_files_distinct url_path_sample "downloads" 0 1 "song" "song"
           "https://cdn.example/a.mp3" "https://cdn.example/a.mp3"
           audio_stream audio_stream); [lia | vm_compute; lia | vm_compute; lia].
Defined.
(** ** What a search returns *)

Section Hits.

Variable urljoin : str -> str -> str.
Variable quote_plus : str -> str.
Variable set_order : list str -> list str.
Variable w : World.

(** The hits of one stage: all from the same channel, all with a title
    of more than 5 characters. *)
Local Abbreviation from_channel source hits :=
  (Forall (fun h => hit_source h = source /\ 5 < length (hit_title h)) hits).

Lemma run_stage_hits query stage s :
  exists hits s',
    run_stage urljoin quote_plus w query stage s = (Ok hits, s')
    /\ (from_channel ("masstamilan_direct" : str) hits
        \/ from_channel ("masstamilan" : str) hits).
Proof.
  assert (forall t q base,
            from_channel ("masstamilan_direct" : str)
              (direct_answer urljoin quote_plus w t q base)) as Hdirect.
  { intros t q base. unfold direct_answer.
    destruct (session_get w (S t) _) as [response|e]; [|constructor].
    destruct (bad_status response); [constructor|].
    apply Forall_forall. intros h Hh.
    apply direct_hits_elem in Hh as (link & href & _ & Hlen & ->). done. }
  destruct stage; cbn [run_stage].
  - rewrite direct_run by done. eexists _, _. split; [done | left; apply Hdirect].
  - rewrite direct_run by done. eexists _, _. split; [done | left; apply Hdirect].
  - rewrite selenium_run. eexists _, _. split; [done | right].
    unfold selenium_answer. destruct (chrome_available _ _); [|constructor].
    destruct (driver_get _ _ _) as [find|e]; [|constructor]. cbn [fst].
    destruct (find selenium_search_css) as [links|e]; [|constructor].
    apply Forall_forall. intros h (link & _ & Hh)%in_flat_map_elem.
    by apply selenium_hit_shape in Hh as (Hsrc & _ & _ & _ & Hlen).
  - rewrite direct_run by done. eexists _, _. split; [done | left; apply Hdirect].
Qed.

Lemma spec_first_nonempty_hits query stages s :
  exists raw s',
    spec_first_nonempty urljoin quote_plus w query stages s = (Ok raw, s')
    /\ (from_channel ("masstamilan_direct" : str) raw
        \/ from_channel ("masstamilan" : str) raw).
Proof.
  revert s. induction stages as [|stage rest IH]; intros s; simpl.
  - exists [], s. split; [done | left; constructor].
  - destruct (run_stage_hits query stage s) as (hits & s1 & Hrun & Hhits).
    unfold bind. rewrite Hrun. destruct hits as [|h hits]; simpl; [apply IH|].
    by exists (h :: hits), s1.
Qed.

End Hits.

(** X16.  Every hit that [search_masstamilan] returns has a title of more
    than 5 characters, and all the hits of one result come through the same
    channel: all are marked [masstamilan_direct], or all are marked
    [masstamilan], the mark of the browser. *)
Theorem search_hits_one_channel urljoin quote_plus set_order w query s :
  exists hits s',
    search_masstamilan urljoin quote_plus set_order w query s = (Ok hits, s')
    /\ Forall (fun h => 5 < length (hit_title h)) hits
    /\ (Forall (fun h => hit_source h = "masstamilan_direct") hits
        \/ Forall (fun h => hit_source h = "masstamilan") hits).
Proof.
  rewrite search_masstamilan_spec. unfold spec_search, bind.
  destruct (spec_first_nonempty_hits urljoin quote_plus w (clean_search_query query)
              (spec_stages set_order (clean_search_query query)) s)
    as (raw & s' & -> & Hraw).
  eexists _, s'. split; [reflexivity|].
  assert (take 20 (_filter_and_deduplicate_results raw) `sublist_of` raw) as Hsub.
  { etrans; [apply sublist_take|]. rewrite filter_is_kept. apply kept_sublist. }
  assert (forall source,
            Forall (fun h => hit_source h = source /\ 5 < length (hit_title h)) raw ->
            Forall (fun h => 5 < length (hit_title h))
              (take 20 (_filter_and_deduplicate_results raw))
            /\ Forall (fun h => hit_source h = source)
                 (take 20 (_filter_and_deduplicate_results raw))) as Hkeep.
  { intros source Hall. split; apply Forall_forall; intros h Hh;
      apply (elem_of_sublist _ _ _ Hh) in Hsub;
      by eapply Forall_forall in Hall as [? ?]. }
  destruct Hraw as [Hall | Hall]; destruct (Hkeep _ Hall); auto.
Qed.
(** ** The cycles of the retry loop *)

Lemma quiet_extraction_first page inner events :
  attempts_of inner = [] ->
  extraction_first page (inner ++ events) = extraction_first page events.
Proof.
  induction inner as [|e inner IH]; [done|].
  change (e :: inner) with ([e] ++ inner). rewrite attempts_of_app.
  intros [He Hinner]%app_eq_nil. specialize (IH Hinner).
  destruct e; try done.
Qed.

(** What [extraction_first] computes. *)
Lemma extraction_first_sound page events pre n post :
  extraction_first page events = true ->
  events = pre ++ EvAttempt n :: post ->
  exists post', post = EvGet page :: post'.
Proof.
  revert pre. induction events as [|e events IH]; intros pre Hall Heq.
  - by destruct pre.
  - destruct pre as [|e' pre]; simpl in Heq; injection Heq as -> Heq.
    + subst events. simpl in Hall. apply andb_true_iff in Hall as [Hhead _].
      destruct post as [|[] post]; try done.
      apply bool_decide_eq_true in Hhead as ->. by eexists.
    + apply (IH pre); [|done].
      destruct e'; simpl in Hall; try done. by apply andb_true_iff in Hall as [_ ?].
Qed.

Lemma selenium_links_steps w url s :
  exists links steps,
    get_download_links_selenium w url s = (Ok links, advance s steps)
    /\ browser_steps url steps.
Proof.
  rewrite get_download_links_selenium_run. unfold browser_steps.
  destruct (chrome_available w (clock s)); [|eexists _, _; eauto].
  destruct (driver_get w (S (clock s)) url); eexists _, _; eauto.
Qed.

Section Cycles.

Variable urljoin : str -> str -> str.
Variable url_path : str -> str.
Variable w : World.
Variable download_folder : str.
Variable preferred_name : option str.

(** An attempt goes on from its announcement with the request for the
    song's page. *)
Lemma attempt_links_starts song_url song_title attempt s :
  exists r rest fs,
    attempt_links urljoin url_path w song_url song_title download_folder
      preferred_name attempt s
    = (r, with_files (advance s (EvGet song_url :: rest)) fs)
    /\ attempts_of rest = [].
Proof.
  destruct (quietly_attempt_links urljoin url_path w download_folder preferred_name
              song_url song_title attempt s) as (r & evs & fs & Hrun & Hquiet).
  assert (exists rest, evs = EvGet song_url :: rest) as [rest ->].
  { revert Hrun. unfold attempt_links. unfold bind at 1.
    rewrite get_download_links_run. cbv beta iota.
    match goal with
    | |- ?m (advance s [EvGet song_url]) = _ -> _ =>
        assert (emits (fun _ => true) m) as Hrest
    end.
    { unfold sleep.
      pose proof (emits_get_download_links_selenium (fun _ => true) ltac:(done)
                    ltac:(done) ltac:(done) w).
      pose proof (emits_links_loop (fun _ => true) ltac:(done) ltac:(done) url_path w).
      emitting. }
    destruct (Hrest (advance s [EvGet song_url])) as (r' & rest & fs' & -> & _).
    rewrite with_files_advance_l. intros Hsame.
    apply (f_equal snd) in Hsame. cbn [snd] in Hsame.
    apply same_steps in Hsame as [Hevs _]. by exists rest. }
  exists r, rest, fs. done.
Qed.

Lemma attempt_body_starts song_info page attempt s :
  song_page song_info = Some page -> page <> [] ->
  exists r rest fs,
    attempt_body urljoin url_path w song_info download_folder preferred_name attempt s
    = (Ok r, with_files (advance s (EvAttempt (attempt + 1) :: EvGet page :: rest)) fs)
    /\ attempts_of rest = [].
Proof.
  intros Hpage Hne.
  destruct (attempt_body_run urljoin url_path w download_folder preferred_name
              song_info page attempt s Hpage Hne) as [song_title ->].
  destruct (attempt_links_starts page song_title attempt
              (advance s [EvAttempt (attempt + 1)])) as (r & rest & fs & Hrun & Hquiet).
  unfold try_except. rewrite Hrun, with_files_advance_l.
  destruct r as [r|e]; [by exists r, rest, fs|].
  destruct (retry_handler_run attempt
              (with_files (advance s ([EvAttempt (attempt + 1)] ++ EvGet page :: rest)) fs))
    as (evs' & -> & Hquiet').
  exists None, (rest ++ evs'), fs. split.
  - by rewrite advance_with_files.
  - by rewrite attempts_of_app, Hquiet, Hquiet'.
Qed.

Lemma attempts_loop_starts song_info page attempts s :
  song_page song_info = Some page -> page <> [] ->
  exists result evs fs,
    attempts_loop urljoin url_path w song_info download_folder preferred_name
      attempts s
    = (Ok result, with_files (advance s evs) fs)
    /\ extraction_first page evs = true.
Proof.
  intros Hpage Hne. revert s. induction attempts as [|attempt rest IH]; intros s.
  { exists false, [], (files s). by rewrite with_files_same. }
  cbn [attempts_loop]. unfold bind at 1.
  destruct (attempt_body_starts song_info page attempt s Hpage Hne)
    as (r & inner & fs & -> & Hquiet).
  assert (forall events,
            extraction_first page
              ((EvAttempt (attempt + 1) :: EvGet page :: inner) ++ events)
            = extraction_first page events) as Hblock.
  { intros events. cbn [app extraction_first].
    rewrite bool_decide_eq_true_2 by done. cbn [andb].
    by apply quiet_extraction_first. }
  destruct r as [result|].
  - exists result, (EvAttempt (attempt + 1) :: EvGet page :: inner), fs.
    split; [done|]. rewrite <- (app_nil_r (_ :: _ :: inner)). by rewrite Hblock.
  - destruct (IH (with_files
                    (advance s (EvAttempt (attempt + 1) :: EvGet page :: inner)) fs))
      as (result & evs & fs' & -> & Hall).
    eexists result, _, fs'. rewrite with_files_advance. split; [reflexivity|].
    by rewrite Hblock.
Qed.

(** A cycle that finds no link: the page is requested, the browser is
    tried, and the attempt waits 2 seconds when another is to follow. *)
Lemma attempt_body_cycle song_info page attempt s :
  song_page song_info = Some page -> page <> [] ->
  (forall st, (get_download_links urljoin w page st).1 = Ok []) ->
  (forall st, (get_download_links_selenium w page st).1 = Ok []) ->
  exists steps,
    browser_steps page steps
    /\ attempt_body urljoin url_path w song_info download_folder preferred_name
         attempt s
       = (Ok (if attempt <? 2 then None else Some false),
          advance s ([EvAttempt (attempt + 1); EvGet page] ++ steps
                     ++ if attempt <? 2 then [EvSleep 2] else [])).
Proof.
  intros Hpage Hne Hnone Hnone'.
  destruct (attempt_body_run urljoin url_path w download_folder preferred_name
              song_info page attempt s Hpage Hne) as [song_title ->].
  change (max_retries - 1) with 2.
  unfold try_except, attempt_links. change (max_retries - 1) with 2.
  unfold bind at 1.
  set (s1 := advance s [EvAttempt (attempt + 1)]).
  assert (links_answer urljoin w (clock s1) page = []) as Hlinks.
  { specialize (Hnone s1). rewrite get_download_links_run in Hnone.
    by injection Hnone. }
  rewrite get_download_links_run, Hlinks. cbv beta iota. cbn [nonempty negb].
  unfold bind at 1.
  destruct (selenium_links_steps w page (advance s1 [EvGet page]))
    as (links & steps & Hrun & Hsteps).
  assert (links = []) as ->.
  { specialize (Hnone' (advance s1 [EvGet page])). rewrite Hrun in Hnone'.
    by injection Hnone'. }
  rewrite Hrun. cbv beta iota. cbn [nonempty negb]. subst s1.
  exists steps. split; [exact Hsteps|].
  rewrite !advance_app.
  destruct (attempt <? 2).
  - unfold bind, sleep. rewrite emit_run, advance_app. by rewrite <- !app_assoc.
  - unfold ret. by rewrite app_nil_r.
Qed.

End Cycles.

Lemma advance_as_with_files s events :
  advance s events = with_files (advance s events) (files s).
Proof. reflexivity. Qed.

(** C2, as it is stated, fails: a cycle of [download_song] has no search
    step, and for a page without links no validation and no download
    either.  The page is served and holds no link, Chrome is not there:
    each of the three cycles is the request for the page and the set-up of
    the driver, with a wait of 2 seconds after the first and the second. *)
Lemma retry_cycle_without_search :
  get_download_links urljoin_sample linkless_world "https://masstamilan.dev/songs/x"
    initial_state
  = (Ok [], advance initial_state [EvGet "https://masstamilan.dev/songs/x"])
  /\ download_song urljoin_sample url_path_sample linkless_world
       (SongDict (Some ("https://masstamilan.dev/songs/x" : str)) (Some ("Song" : str)) None)
       "downloads" None initial_state
     = (Ok false,
        advance initial_state
          [EvAttempt 1; EvGet "https://masstamilan.dev/songs/x"; EvDriver; EvSleep 2;
           EvAttempt 2; EvGet "https://masstamilan.dev/songs/x"; EvDriver; EvSleep 2;
           EvAttempt 3; EvGet "https://masstamilan.dev/songs/x"; EvDriver]).
Proof. split; vm_compute; reflexivity. Qed.

(** C2, amended.  [download_song] never raises and starts at most
    [max_retries] = 3 attempts, numbered 1, 2, 3 in order; every attempt
    goes on from its log line with the request for the song's page, the
    extraction of the links: there is no search in a cycle.  For a track
    that has a page whose extraction, direct and through the browser,
    always yields no link, it runs exactly three cycles and returns
    failure, no file touched; each of the three is the log line, the
    request for the page and the browser extraction (the set-up of the
    driver, the page load when Chrome is there, the wait of 5 seconds when
    the page has loaded), and a wait of 2 seconds follows the first and the
    second: nothing is validated and nothing downloaded. *)
Theorem download_song_retry_bound urljoin url_path w song_info download_folder
    preferred_name s :
  exists result evs fs,
    download_song urljoin url_path w song_info download_folder preferred_name s
    = (Ok result, with_files (advance s evs) fs)
    /\ attempts_of evs `prefix_of` [1; 2; 3]
    /\ length (attempts_of evs) <= max_retries
    /\ (forall pre n post,
          evs = pre ++ EvAttempt n :: post ->
          exists page post',
            song_page song_info = Some page /\ post = EvGet page :: post')
    /\ (forall page,
          song_page song_info = Some page -> page <> [] ->
          (forall st, (get_download_links urljoin w page st).1 = Ok []) ->
          (forall st, (get_download_links_selenium w page st).1 = Ok []) ->
          result = false /\ fs = files s /\ attempts_of evs = [1; 2; 3]
          /\ exists steps1 steps2 steps3,
               browser_steps page steps1 /\ browser_steps page steps2
               /\ browser_steps page steps3
               /\ evs = [EvAttempt 1; EvGet page] ++ steps1 ++ [EvSleep 2]
                        ++ [EvAttempt 2; EvGet page] ++ steps2 ++ [EvSleep 2]
                        ++ [EvAttempt 3; EvGet page] ++ steps3).
Proof.
  destruct (attempts_loop_steps urljoin url_path w download_folder preferred_name
              song_info (seq 0 max_retries) s) as (result & evs & fs & Hrun & k & Hk).
  exists result, evs, fs. split; [exact Hrun|].
  assert (attempts_of evs `prefix_of` [1; 2; 3]) as Hprefix.
  { rewrite Hk. change [1; 2; 3] with ((fun a => a + 1) <$> seq 0 max_retries).
    rewrite fmap_take. apply prefix_take. }
  split; [exact Hprefix|].
  split; [apply prefix_length in Hprefix; exact Hprefix|].
  split.
  - intros pre n post Heq.
    destruct (song_page song_info) as [[|c page]|] eqn:Hpage.
    1,3: exfalso;
      pose proof (download_song_no_url urljoin url_path w download_folder preferred_name
                    song_info s ltac:(by rewrite Hpage)) as Hno;
      unfold download_song in Hno; rewrite Hrun in Hno;
      apply (f_equal snd) in Hno; cbn [snd] in Hno;
      rewrite <- (with_files_same s) in Hno at 2;
      apply same_steps in Hno as [-> _]; by destruct pre.
    destruct (attempts_loop_starts urljoin url_path w download_folder preferred_name
                song_info (c :: page) (seq 0 max_retries) s Hpage ltac:(done))
      as (result' & evs' & fs' & Hrun' & Hall).
    rewrite Hrun in Hrun'. apply (f_equal snd) in Hrun'. cbn [snd] in Hrun'.
    apply same_steps in Hrun' as [<- _].
    destruct (extraction_first_sound _ _ _ _ _ Hall Heq) as [post' ->].
    by exists (c :: page), post'.
  - intros page Hpage Hne Hnone Hnone'.
    pose proof (fun attempt st =>
                  attempt_body_cycle urljoin url_path w download_folder preferred_name
                    song_info page attempt st Hpage Hne Hnone Hnone') as Hcycle.
    revert Hrun. cbn [max_retries seq attempts_loop].
    unfold bind at 1. destruct (Hcycle 0 s) as (steps1 & Hsteps1 & ->).
    cbn [Nat.ltb Nat.leb]. cbv beta iota.
    unfold bind at 1.
    destruct (Hcycle 1 (advance s ([EvAttempt (0 + 1); EvGet page] ++ steps1 ++ [EvSleep 2])))
      as (steps2 & Hsteps2 & ->).
    cbn [Nat.ltb Nat.leb]. cbv beta iota.
    unfold bind at 1.
    destruct (Hcycle 2 (advance
                          (advance s ([EvAttempt (0 + 1); EvGet page] ++ steps1
                                      ++ [EvSleep 2]))
                          ([EvAttempt (1 + 1); EvGet page] ++ steps2 ++ [EvSleep 2])))
      as (steps3 & Hsteps3 & ->).
    cbn [Nat.ltb Nat.leb]. cbv beta iota.
    rewrite !advance_app, app_nil_r. unfold ret.
    intros Hsame.
    pose proof (f_equal fst Hsame) as Hresult. cbn [fst] in Hresult.
    injection Hresult as <-.
    apply (f_equal snd) in Hsame. cbn [snd] in Hsame.
    rewrite (advance_as_with_files s) in Hsame.
    apply same_steps in Hsame as [<- <-].
    split; [done|]. split; [done|].
    split.
    + rewrite !attempts_of_app.
      assert (forall steps, browser_steps page steps -> attempts_of steps = []) as Hquiet
        by (intros steps [-> | [-> | ->]]; reflexivity).
      rewrite (Hquiet _ Hsteps1), (Hquiet _ Hsteps2), (Hquiet _ Hsteps3). reflexivity.
    + exists steps1, steps2, steps3. split; [done|]. split; [done|]. split; [done|].
      by rewrite <- !app_assoc.
Qed.

(** C2, witness: in a world where nothing answers, a track with a page
    runs through its three cycles and fails. *)
Lemma download_song_retry_bound_witness :
  exists result evs fs,
    download_song urljoin_sample url_path_sample offline_world
      (SongDict (Some ("https://masstamilan.dev/songs/x" : str)) (Some ("Song" : str)) None)
      "downloads" None initial_state
    = (Ok result, with_files (advance initial_state evs) fs)
    /\ result = false /\ attempts_of evs = [1; 2; 3].
Proof.
  destruct (download_song_retry_bound urljoin_sample url_path_sample offline_world
              (SongDict (Some ("https://masstamilan.dev/songs/x" : str))
                 (Some ("Song" : str)) None)
              "downloads" None initial_state)
    as (result & evs & fs & Hrun & _ & _ & _ & Hexhaust).
  exists result, evs, fs. split; [exact Hrun|].
  destruct (Hexhaust "https://masstamilan.dev/songs/x") as (Hresult & _ & Hattempts & _).
  - reflexivity.
  - discriminate.
  - intros st. reflexivity.
  - intros st. reflexivity.
  - done.
Defined.
(** ** The batch, turn by turn *)

Lemma first_attempts_app e1 e2 :
  first_attempts (e1 ++ e2) = first_attempts e1 + first_attempts e2.
Proof.
  unfold first_attempts. by rewrite attempts_of_app, List.filter_app, length_app.
Qed.

(** The quotient of the code's example: one song of three. *)
Lemma true_divide_third : true_divide 1 3 = 0x1.5555555555555p-2%float.
Proof. reflexivity. Qed.

Section TurnByTurn.

Variable urljoin : str -> str -> str.
Variable url_path : str -> str.
Variable w : World.
Variable download_folder : str.
Variable progress_callback : option (nat -> nat -> SongInfo -> Outcome unit).
Variable total_songs : nat.

(** The callback, when there is one, returns. *)
Local Abbreviation callback_returns :=
  (forall callback i song,
      progress_callback = Some callback -> callback i total_songs song = Ok tt).

(** A download that has a page to read announces its first attempt, once;
    a download without one announces nothing. *)
Lemma download_song_first song_info preferred_name s :
  exists result evs fs,
    download_song urljoin url_path w song_info download_folder preferred_name s
    = (Ok result, with_files (advance s evs) fs)
    /\ first_attempts evs = if truthy (song_page song_info) then 1 else 0.
Proof.
  destruct (truthy (song_page song_info)) eqn:Hurl.
  2:{ exists false, [], (files s). rewrite with_files_same.
      split; [by apply download_song_no_url | done]. }
  destruct (song_page song_info) as [[|c page]|] eqn:Hpage; try done.
  destruct (attempts_loop_steps urljoin url_path w download_folder preferred_name
              song_info (seq 0 max_retries) s) as (result & evs & fs & Hrun & k & Hk).
  exists result, evs, fs. split; [exact Hrun|].
  destruct (attempts_loop_paced urljoin url_path w download_folder preferred_name
              song_info (c :: page) max_retries 0 s Hpage ltac:(done) eq_refl)
    as (result' & evs' & fs' & Hrun' & _ & _ & Hhead).
  rewrite Hrun in Hrun'. apply (f_equal snd) in Hrun'. cbn [snd] in Hrun'.
  apply same_steps in Hrun' as [<- _].
  destruct Hhead as [tail Htail]; [unfold max_retries; lia|].
  unfold first_attempts. rewrite Hk.
  rewrite Htail in Hk. cbn [attempts_of] in Hk.
  destruct k as [|[|[|[|k]]]]; [discriminate Hk | reflexivity..].
Qed.

(** The body of the loop, under its handler, is the turn of the song. *)
Lemma song_turn_run i song_info s :
  try_except
    (match progress_callback with
     | Some callback =>
         emit (EvProgress i) ;; lift (callback i total_songs song_info)
     | None => ret tt
     end ;;
     (if 0 <? i then sleep 1 else ret tt) ;;
     name <-
       match song_info with
       | SongDict _ _ name => ret (default ("song" : str) name)
       | SongOther _ => raise AttributeError
       end ;;
     download_song urljoin url_path w song_info download_folder
       (Some (format_02d (i + 1) ++ "_" ++ name)))
    (fun _ => ret false) s
  = song_turn urljoin url_path w download_folder progress_callback total_songs
      i song_info s.
Proof.
  unfold song_turn, try_except. unfold bind at 1.
  set (called := match progress_callback with Some _ => [EvProgress i] | None => [] end).
  set (answer := match progress_callback with
                 | Some callback => callback i total_songs song_info
                 | None => Ok tt
                 end).
  match goal with
  | |- context [match ?m s with _ => _ end] =>
      assert (m s = (answer, advance s called)) as ->
  end.
  { subst called answer. destruct progress_callback as [callback|].
    - apply callback_run.
    - by rewrite advance_nil. }
  destruct answer as [[]|e]; [|reflexivity].
  unfold bind at 1.
  set (paused := if 0 <? i then [EvSleep 1] else []).
  match goal with
  | |- context [match ?m (advance s called) with _ => _ end] =>
      assert (m (advance s called) = (Ok tt, advance s (called ++ paused))) as ->
  end.
  { subst paused. destruct (0 <? i).
    - unfold sleep. by rewrite emit_run, advance_app.
    - by rewrite app_nil_r. }
  unfold bind at 1.
  destruct song_info as [url title name | text]; [|reflexivity].
  unfold ret at 1.
  destruct (download_song_first (SongDict url title name)
              (Some (format_02d (i + 1) ++ "_" ++ default ("song" : str) name))
              (advance s (called ++ paused)))
    as (result & evs & fs & -> & _).
  reflexivity.
Qed.

(** A turn ends in a verdict, never in an exception; when the callback
    returns, the download of the song gets under way if the song is a
    dict with a page URL. *)
Lemma song_turn_steps i song_info s :
  exists flag evs fs,
    song_turn urljoin url_path w download_folder progress_callback total_songs
      i song_info s
    = (Ok flag, with_files (advance s evs) fs)
    /\ (callback_returns ->
        first_attempts evs = if startable song_info then 1 else 0).
Proof.
  unfold song_turn.
  set (called := match progress_callback with Some _ => [EvProgress i] | None => [] end).
  set (answer := match progress_callback with
                 | Some callback => callback i total_songs song_info
                 | None => Ok tt
                 end).
  assert (first_attempts called = 0) as Hcalled
    by (subst called; by destruct progress_callback).
  destruct answer as [[]|e] eqn:Hanswer.
  2:{ exists false, called, (files s). split; [reflexivity|].
      intros Hreturns. exfalso. subst answer.
      destruct progress_callback as [callback|]; [|done].
      by rewrite (Hreturns callback i song_info eq_refl) in Hanswer. }
  set (paused := if 0 <? i then [EvSleep 1] else []).
  assert (first_attempts paused = 0) as Hpaused by (subst paused; by destruct (0 <? i)).
  destruct song_info as [url title name | text].
  2:{ exists false, (called ++ paused), (files s). split; [reflexivity|].
      intros _. by rewrite first_attempts_app, Hcalled, Hpaused. }
  destruct (download_song_first (SongDict url title name)
              (Some (format_02d (i + 1) ++ "_" ++ default ("song" : str) name))
              (advance s (called ++ paused)))
    as (result & evs & fs & -> & Hfirst).
  exists result, ((called ++ paused) ++ evs), fs.
  split; [by rewrite with_files_advance_l|].
  intros _. by rewrite !first_attempts_app, Hcalled, Hpaused, Hfirst.
Qed.

(** The loop gives every song its turn and sorts the songs by their
    verdicts. *)
Lemma songs_loop_turns i songs successful_downloads failed_downloads s :
  exists flags evs fs,
    turns urljoin url_path w download_folder progress_callback total_songs i songs s
    = (Ok flags, with_files (advance s evs) fs)
    /\ songs_loop urljoin url_path w progress_callback total_songs download_folder
         i songs successful_downloads failed_downloads s
       = (Ok (successful_downloads ++ pick true flags songs,
              failed_downloads ++ pick false flags songs),
          with_files (advance s evs) fs)
    /\ length flags = length songs
    /\ (callback_returns ->
        first_attempts evs = length (List.filter startable songs)).
Proof.
  revert i successful_downloads failed_downloads s.
  induction songs as [|song rest IH]; intros i succ fail s.
  { exists [], [], (files s). rewrite with_files_same, !app_nil_r. done. }
  cbn [songs_loop turns]. unfold bind at 1 3. rewrite song_turn_run.
  destruct (song_turn_steps i song s) as (flag & evs1 & fs1 & -> & Hfirst).
  unfold bind at 1.
  assert (exists succ1 fail1,
             (if flag
              then songs_loop urljoin url_path w progress_callback total_songs
                     download_folder (S i) rest (succ ++ [song]) fail
              else songs_loop urljoin url_path w progress_callback total_songs
                     download_folder (S i) rest succ (fail ++ [song]))
             = songs_loop urljoin url_path w progress_callback total_songs
                 download_folder (S i) rest (succ ++ succ1) (fail ++ fail1)
             /\ succ1 = pick true [flag] [song] /\ fail1 = pick false [flag] [song])
    as (succ1 & fail1 & -> & -> & ->).
  { destruct flag.
    - exists [song], []. by rewrite app_nil_r.
    - exists [], [song]. by rewrite app_nil_r. }
  destruct (IH (S i) (succ ++ pick true [flag] [song]) (fail ++ pick false [flag] [song])
              (with_files (advance s evs1) fs1))
    as (flags & evs2 & fs2 & -> & -> & Hlen & Hfirst2).
  exists (flag :: flags), (evs1 ++ evs2), fs2.
  rewrite with_files_advance. split; [reflexivity|].
  split; [destruct flag; cbn [pick Bool.eqb]; by rewrite <- !app_assoc|].
  split; [cbn [length]; by rewrite Hlen|].
  intros Hreturns. rewrite first_attempts_app, (Hfirst Hreturns), (Hfirst2 Hreturns).
  cbn [List.filter]. by destruct (startable song).
Qed.

End TurnByTurn.

(** C10.  [download_multiple_songs] never raises.  Every song of the list
    gets one verdict: ['successful'] holds, in order, the songs whose
    verdict is success, ['failed'] the others, so that the two lists
    together are the input rearranged; ['total'] is the length of the
    input; ['success_rate'] is the integer 0 for the empty list and
    otherwise the float quotient of the number of successful songs by the
    total.  When the download folder cannot be made no song is tried and
    all are reported failed.  Otherwise the verdicts are those of the
    turns of the songs, taken one after the other whatever the verdicts
    before: a song's verdict is failure when the callback raises or the
    song is not a dict, and otherwise what [download_song] returns for it
    under its numbered name; and when the callback never raises,
    [download_song] gets under way for every dict with a page URL, however
    many songs before it have failed. *)
Theorem download_multiple_songs_partition urljoin url_path w song_list download_folder
    progress_callback s :
  exists result evs fs flags,
    download_multiple_songs urljoin url_path w song_list download_folder
      progress_callback s
    = (Ok result, with_files (advance s evs) fs)
    /\ length flags = length song_list
    /\ successful result = pick true flags song_list
    /\ failed result = pick false flags song_list
    /\ successful result ++ failed result ≡ₚ song_list
    /\ total result = length song_list
    /\ (length song_list = 0 -> success_rate result = PyInt 0)
    /\ match makedirs w (clock s) download_folder with
       | Some e =>
           error result = Some e /\ successful result = []
           /\ success_rate result = PyInt 0 /\ evs = [] /\ fs = files s
       | None =>
           error result = None
           /\ turns urljoin url_path w download_folder progress_callback
                (length song_list) 0 song_list s
              = (Ok flags, with_files (advance s evs) fs)
           /\ (0 < length song_list ->
               success_rate result
               = PyFloat (true_divide (length (successful result)) (total result)))
           /\ ((forall callback i song,
                  progress_callback = Some callback ->
                  callback i (length song_list) song = Ok tt) ->
               first_attempts evs = length (List.filter startable song_list))
       end.
Proof.
  assert (fs_makedirs w download_folder s
          = match makedirs w (clock s) download_folder with
            | Some e => (Raise e, s)
            | None => (Ok tt, s)
            end) as Hmake by reflexivity.
  unfold download_multiple_songs, try_except.
  destruct (makedirs w (clock s) download_folder) as [e|].
  - unfold bind at 1. rewrite Hmake. unfold ret.
    eexists _, [], (files s), (replicate (length song_list) false).
    rewrite with_files_same. split; [reflexivity|]. cbn [successful failed total
      success_rate error].
    destruct (pick_all_false song_list) as [Ht Hf].
    split; [by rewrite length_replicate|].
    split; [done|]. split; [done|]. split; [done|]. split; [done|]. done.
  - unfold bind at 1. rewrite Hmake. unfold bind at 1.
    destruct (songs_loop_turns urljoin url_path w download_folder progress_callback
                (length song_list) 0 song_list [] [] s)
      as (flags & evs & fs & Hturns & -> & Hlen & Hfirst).
    unfold ret.
    eexists _, evs, fs, flags. split; [reflexivity|].
    cbn [successful failed total success_rate error fst snd app].
    split; [done|]. split; [done|]. split; [done|].
    split; [by apply pick_partition|]. split; [done|].
    split; [by intros ->|].
    split; [done|]. split; [done|]. split; [|done].
    intros Hpos. apply Nat.ltb_lt in Hpos. by rewrite Hpos.
Qed.
